(** * pyinsteon: the ALDB synchronisation managers

    A shallow embedding of
      - pyinsteon/aldb/read_manager.py        (device ALDB read manager),
      - pyinsteon/aldb/im_read_manager.py     (modem ALDB read manager),
      - pyinsteon/handlers/direct_command.py  (direct command handler),
      - pyinsteon/managers/get_set_op_flag_manager.py (operating flags),
    together with the part of [asyncio.Lock] those modules rely on.

    Python integers are [Z]; [None] is the [None] of an [option]; a raised
    exception is a constructor of the result type of the function that can
    raise it.  Coroutines are cut at their suspension points: each piece that
    runs without yielding to the event loop is one function on the state. *)

From Stdlib Require Import ZArith Lia List Bool.
From stdpp Require Import gmap strings list fin_maps sorting.

Local Open Scope Z_scope.

(** ** asyncio.Lock

    The lock of the Python standard library, as the managers use it: a
    [locked] flag and a FIFO of waiters.  [acquire] succeeds at once only
    when the lock is free and nobody waits; otherwise the caller is queued.
    [release] frees the lock and wakes the first waiter (which stays in the
    queue until it runs again and takes the lock); on a free lock it raises
    [RuntimeError]. *)

Module Asyncio.

Section Lock.
(** [K] is what a waiter does once it owns the lock. *)
Context {K : Type}.

Record Lock := mkLock {
  locked : bool;
  waiters : list K;
  (** the first waiter's future is done: it is scheduled to run *)
  head_woken : bool
}.

Definition new_lock : Lock :=
  {| locked := false; waiters := []; head_woken := false |}.

(** [acquire k l]: [(true, l')] when the lock is taken without
    suspending, [(false, l')] when the caller is queued with
    continuation [k]. *)
Definition acquire (k : K) (l : Lock) : bool * Lock :=
  match locked l, waiters l with
  | false, [] => (true, {| locked := true; waiters := []; head_woken := false |})
  | _, _ => (false, {| locked := locked l; waiters := waiters l ++ [k];
                       head_woken := head_woken l |})
  end.

(** [release l]: [None] is [RuntimeError('Lock is not acquired.')];
    otherwise the new lock and whether a waiter has to be scheduled. *)
Definition release (l : Lock) : option (Lock * bool) :=
  if locked l then
    match waiters l with
    | [] => Some ({| locked := false; waiters := []; head_woken := false |}, false)
    | _ :: _ =>
        Some ({| locked := false; waiters := waiters l; head_woken := true |},
              negb (head_woken l))
    end
  else None.

(** The woken waiter runs: it leaves the queue and owns the lock. *)
Definition wake (l : Lock) : option (K * Lock) :=
  match waiters l with
  | k :: rest =>
      Some (k, {| locked := true; waiters := rest; head_woken := false |})
  | [] => None
  end.
End Lock.

Arguments Lock K : clear implicits.

End Asyncio.

(** ** ALDB records and the device mirror *)

Module Aldb.

(** Modelled from the spec: the control flags of a record (class
    [ControlFlags] is not part of the sources at hand): in-use,
    controller-vs-responder, the high-water-mark sentinel and two reserved
    bits. *)
Record ControlFlags := mkFlags {
  is_in_use : bool;
  is_controller : bool;
  is_high_water_mark : bool;
  is_bit5_set : bool;
  is_bit4_set : bool
}.

(** Modelled from the spec: [ALDBRecord(mem_addr, control_flags, group,
    address, data1, data2, data3)], an immutable value. *)
Record ALDBRecord := mkRecord {
  mem_addr : Z;
  control_flags : ControlFlags;
  group : Z;
  target_address : Z;
  data1 : Z;
  data2 : Z;
  data3 : Z
}.

(** Modelled from the spec: the device mirror [ALDB], a mapping from memory
    address to record with the address of the first record slot. *)
Record ALDB := mkALDB {
  records : gmap Z ALDBRecord;
  first_mem_addr : Z
}.

(** Modelled from the spec: keyed assignment, [_aldb[mem_addr] = record];
    a record already stored under the key is overwritten. *)
Definition setitem (k : Z) (r : ALDBRecord) (a : ALDB) : ALDB :=
  {| records := <[k := r]> (records a); first_mem_addr := first_mem_addr a |}.

(** Modelled from the spec: keyed lookup, [_aldb.get(mem_addr)] and
    [_aldb[mem_addr]]. *)
Definition get (k : Z) (a : ALDB) : option ALDBRecord := records a !! k.

(** Modelled from the spec: iterating over the mirror walks its keys in
    descending address order. *)
Definition iter (a : ALDB) : list Z :=
  merge_sort (flip Z.le) (elements (dom (records a))).

(** Modelled from the spec: [calc_load_status] is true iff the sentinel
    record is present and every slot from [first_mem_addr] down to it is
    present, with stride 8.  [n] bounds the number of slots visited. *)
Fixpoint loaded_from (m : gmap Z ALDBRecord) (addr : Z) (n : nat) : bool :=
  match n with
  | O => false
  | S n' =>
      match m !! addr with
      | None => false
      | Some r =>
          if is_high_water_mark (control_flags r) then true
          else loaded_from m (addr - 8) n'
      end
  end.

Definition calc_load_status (a : ALDB) : bool :=
  loaded_from (records a) (first_mem_addr a) (size (records a)).

End Aldb.

(** ** Python results *)

Module Py.

Inductive Exn := KeyError | RuntimeError | TypeError | ValueError.

(** The outcome of code that may raise. *)
Inductive result (A : Type) :=
| Ok (a : A)
| Raise (e : Exn).
Arguments Ok {A} a.
Arguments Raise {A} e.

End Py.

(** ** The device ALDB read manager (aldb/read_manager.py) *)

Module ReadManager.
Import Asyncio Aldb Py.

Definition RETRIES_ALL_MAX : Z := 5.
Definition RETRIES_ONE_MAX : Z := 20.
Definition RETRIES_WRITE_MAX : Z := 5.
Definition TIMER : Z := 10.
Definition TIMER_INCREMENT : Z := 3.

Inductive Command := READ_ALL | READ_ONE | WRITE.

(** Where a suspended [async_read] resumes once it owns [_load_lock]. *)
Inductive Cont :=
| first_acquire (mem_addr num_recs : Z)   (* line 62 *)
| second_acquire.                          (* line 73 *)

(** Work the event loop has been handed and has not run yet. *)
Inductive Task :=
| Start (mem_addr num_recs : Z)  (* ensure_future(self.async_read(..)) *)
| Wake.                           (* the waiter woken by release() *)

Record Manager := mkManager {
  _aldb : ALDB;
  _retries_all : Z;
  _retries_one : Z;
  _retries_write : Z;
  _last_command : option Command;
  _last_mem_addr : Z;
  _load_lock : Lock Cont;
  (** the event loop: runnable tasks, [async_read]s suspended in
      [_read_handler.async_send] as (retries, mem_addr, num_recs), and
      sleeping [_timer]s as (delay, mem_addr, num_recs) *)
  ready : list Task;
  sending : list (Z * Z * Z);
  timers : list (Z * Z * Z);
  (** observations: the commands handed to the read handler, the number of
      [async_read] calls that returned [True], exceptions raised in tasks *)
  sent : list (Z * Z);
  returned : nat;
  errors : list Exn
}.

(** [__init__] *)
Definition init (a : ALDB) : Manager :=
  {| _aldb := a; _retries_all := 0; _retries_one := 0; _retries_write := 0;
     _last_command := None; _last_mem_addr := 0; _load_lock := new_lock;
     ready := []; sending := []; timers := []; sent := []; returned := 0;
     errors := [] |}.

Definition set_aldb (a : ALDB) (m : Manager) : Manager :=
  mkManager a (_retries_all m) (_retries_one m) (_retries_write m)
    (_last_command m) (_last_mem_addr m) (_load_lock m) (ready m) (sending m)
    (timers m) (sent m) (returned m) (errors m).
Definition set_retries_all (v : Z) (m : Manager) : Manager :=
  mkManager (_aldb m) v (_retries_one m) (_retries_write m)
    (_last_command m) (_last_mem_addr m) (_load_lock m) (ready m) (sending m)
    (timers m) (sent m) (returned m) (errors m).
Definition set_retries_one (v : Z) (m : Manager) : Manager :=
  mkManager (_aldb m) (_retries_all m) v (_retries_write m)
    (_last_command m) (_last_mem_addr m) (_load_lock m) (ready m) (sending m)
    (timers m) (sent m) (returned m) (errors m).
Definition set_last_command (c : option Command) (m : Manager) : Manager :=
  mkManager (_aldb m) (_retries_all m) (_retries_one m) (_retries_write m)
    c (_last_mem_addr m) (_load_lock m) (ready m) (sending m)
    (timers m) (sent m) (returned m) (errors m).
Definition set_last_mem_addr (v : Z) (m : Manager) : Manager :=
  mkManager (_aldb m) (_retries_all m) (_retries_one m) (_retries_write m)
    (_last_command m) v (_load_lock m) (ready m) (sending m)
    (timers m) (sent m) (returned m) (errors m).
Definition set_load_lock (l : Lock Cont) (m : Manager) : Manager :=
  mkManager (_aldb m) (_retries_all m) (_retries_one m) (_retries_write m)
    (_last_command m) (_last_mem_addr m) l (ready m) (sending m)
    (timers m) (sent m) (returned m) (errors m).
Definition set_ready (r : list Task) (m : Manager) : Manager :=
  mkManager (_aldb m) (_retries_all m) (_retries_one m) (_retries_write m)
    (_last_command m) (_last_mem_addr m) (_load_lock m) r (sending m)
    (timers m) (sent m) (returned m) (errors m).
Definition set_sending (v : list (Z * Z * Z)) (m : Manager) : Manager :=
  mkManager (_aldb m) (_retries_all m) (_retries_one m) (_retries_write m)
    (_last_command m) (_last_mem_addr m) (_load_lock m) (ready m) v
    (timers m) (sent m) (returned m) (errors m).
Definition set_timers (v : list (Z * Z * Z)) (m : Manager) : Manager :=
  mkManager (_aldb m) (_retries_all m) (_retries_one m) (_retries_write m)
    (_last_command m) (_last_mem_addr m) (_load_lock m) (ready m) (sending m)
    v (sent m) (returned m) (errors m).
Definition set_sent (v : list (Z * Z)) (m : Manager) : Manager :=
  mkManager (_aldb m) (_retries_all m) (_retries_one m) (_retries_write m)
    (_last_command m) (_last_mem_addr m) (_load_lock m) (ready m) (sending m)
    (timers m) v (returned m) (errors m).
Definition set_returned (v : nat) (m : Manager) : Manager :=
  mkManager (_aldb m) (_retries_all m) (_retries_one m) (_retries_write m)
    (_last_command m) (_last_mem_addr m) (_load_lock m) (ready m) (sending m)
    (timers m) (sent m) v (errors m).
Definition set_errors (v : list Exn) (m : Manager) : Manager :=
  mkManager (_aldb m) (_retries_all m) (_retries_one m) (_retries_write m)
    (_last_command m) (_last_mem_addr m) (_load_lock m) (ready m) (sending m)
    (timers m) (sent m) (returned m) v.

(** [self.read(mem_addr, num_recs)]: hand a new [async_read] to the loop. *)
Definition read (mem_addr num_recs : Z) (m : Manager) : Manager :=
  set_ready (ready m ++ [Start mem_addr num_recs]) m.

(** [self._load_lock.release()] inside a task: a woken waiter is scheduled;
    on a free lock the task dies with [RuntimeError]. *)
Definition lock_release (m : Manager) : Manager :=
  match release (_load_lock m) with
  | Some (l, true) => set_ready (ready m ++ [Wake]) (set_load_lock l m)
  | Some (l, false) => set_load_lock l m
  | None => set_errors (errors m ++ [RuntimeError]) m
  end.

(** [_has_first_record]; the truth value of the mirror is that of its
    length. *)
Definition _has_first_record (m : Manager) : bool :=
  if (size (records (_aldb m)) =? 0)%nat then false
  else
    fold_left
      (fun found_first mem_addr =>
         if (mem_addr =? first_mem_addr (_aldb m)) || (mem_addr =? 0x0fff)
         then true else found_first)
      (iter (_aldb m)) false.

(** The [for] loop of [_next_missing_record] over the remaining keys;
    [None] is Python's [None]. *)
Fixpoint next_missing_loop (a : ALDB) (last_addr : Z) (keys : list Z)
  : result (option Z) :=
  match keys with
  | [] => Ok (Some (last_addr - 8))
  | mem_addr :: keys' =>
      match get mem_addr a with
      | None => Raise KeyError
      | Some rec =>
          if is_high_water_mark (control_flags rec) then Ok None
          else if negb (last_addr =? 0) && negb (last_addr - 8 =? mem_addr)
               then Ok (Some (last_addr - 8))
               else next_missing_loop a mem_addr keys'
      end
  end.

(** [_next_missing_record] *)
Definition _next_missing_record (m : Manager) : result (option Z) :=
  if negb (_has_first_record m) then
    if (_last_mem_addr m =? 0x0000) && (RETRIES_ONE_MAX <=? _retries_one m)
    then Ok (Some (first_mem_addr (_aldb m)))
    else Ok (Some 0x0000)
  else next_missing_loop (_aldb m) 0 (iter (_aldb m)).

(** [_receive_record] *)
Definition _receive_record (is_response : bool) (record : ALDBRecord)
    (m : Manager) : Manager :=
  set_aldb (setitem (mem_addr record) record (_aldb m)) m.

(** [_manage_get_all_cmd] *)
Definition _manage_get_all_cmd (mem_addr num_recs : Z) (m : Manager) : Manager :=
  if calc_load_status (_aldb m) then lock_release m
  else if _retries_all m <? RETRIES_ALL_MAX then
    let m := read 0x0000 0 m in
    set_retries_all (_retries_all m + 1) m
  else
    match _next_missing_record m with
    | Raise e => set_errors (errors m ++ [e]) m
    | Ok None => m
    | Ok (Some next_mem_addr) =>
        if next_mem_addr =? _last_mem_addr m then
          if _retries_one m <? RETRIES_ONE_MAX then
            let m := read next_mem_addr 1 m in
            set_retries_one (_retries_one m + 1) m
          else lock_release m
        else
          let m := set_last_mem_addr next_mem_addr m in
          let m := set_retries_one 0 m in
          read next_mem_addr num_recs m
    end.

(** [_manage_get_one_cmd] *)
Definition _manage_get_one_cmd (mem_addr num_recs : Z) (m : Manager) : Manager :=
  match get mem_addr (_aldb m) with
  | Some _ => lock_release m
  | None =>
      if _retries_one m <? RETRIES_ONE_MAX then read mem_addr num_recs m
      else lock_release m
  end.

(** [_timer], after its sleep *)
Definition _timer (mem_addr num_recs : Z) (m : Manager) : Manager :=
  match _last_command m with
  | Some READ_ALL => _manage_get_all_cmd mem_addr num_recs m
  | _ => _manage_get_one_cmd mem_addr num_recs m
  end.

(** [async_read], lines 63-70: the lock is owned; up to the suspension in
    [_read_handler.async_send]. *)
Definition read_locked (mem_addr num_recs : Z) (m : Manager) : Manager :=
  let '(cmd, retries) :=
    if (mem_addr =? 0x0000) && (num_recs =? 0)
    then (READ_ALL, _retries_all m) else (READ_ONE, _retries_one m) in
  let m := set_last_command (Some cmd) m in
  let m := set_sent (sent m ++ [(mem_addr, num_recs)]) m in
  set_sending (sending m ++ [(retries, mem_addr, num_recs)]) m.

(** [async_read], lines 71-74: the send has returned; start the watchdog
    and wait for the completion of the sequence. *)
Definition read_sent (retries mem_addr num_recs : Z) (m : Manager) : Manager :=
  let timer := TIMER + retries * TIMER_INCREMENT in
  let m := set_timers (timers m ++ [(timer, mem_addr, num_recs)]) m in
  match acquire second_acquire (_load_lock m) with
  | (true, l) => set_returned (S (returned m)) (set_load_lock l m)
  | (false, l) => set_load_lock l m
  end.

(** A task owns the lock and goes on from [k]. *)
Definition resume (k : Cont) (m : Manager) : Manager :=
  match k with
  | first_acquire mem_addr num_recs => read_locked mem_addr num_recs m
  | second_acquire => set_returned (S (returned m)) m
  end.

Definition run_task (t : Task) (m : Manager) : Manager :=
  match t with
  | Start mem_addr num_recs =>
      match acquire (first_acquire mem_addr num_recs) (_load_lock m) with
      | (true, l) => read_locked mem_addr num_recs (set_load_lock l m)
      | (false, l) => set_load_lock l m
      end
  | Wake =>
      match wake (_load_lock m) with
      | Some (k, l) => resume k (set_load_lock l m)
      | None => m
      end
  end.

(** The loop runs what is runnable, oldest first. *)
Fixpoint drain (fuel : nat) (m : Manager) : Manager :=
  match fuel, ready m with
  | S fuel', t :: rest => drain fuel' (run_task t (set_ready rest m))
  | _, _ => m
  end.

(** Removing the [i]-th element of a list. *)
Definition take_nth {A} (i : nat) (l : list A) : option (A * list A) :=
  match l !! i with
  | Some x => Some (x, take i l ++ drop (S i) l)
  | None => None
  end.

(** What happens to the manager from outside its own tasks. *)
Inductive Event :=
| CallRead (mem_addr num_recs : Z)  (* read() / async_read() is called *)
| SendReturns (i : nat)    (* the i-th outstanding async_send returns *)
| Delivers (is_response : bool) (record : ALDBRecord)
                           (* the read handler delivers a record *)
| TimerWakes (i : nat).    (* the sleep of the i-th pending _timer ends *)

Definition handle (e : Event) (m : Manager) : Manager :=
  match e with
  | CallRead mem_addr num_recs => read mem_addr num_recs m
  | SendReturns i =>
      match take_nth i (sending m) with
      | Some ((retries, mem_addr, num_recs), rest) =>
          read_sent retries mem_addr num_recs (set_sending rest m)
      | None => m
      end
  | Delivers is_response record => _receive_record is_response record m
  | TimerWakes i =>
      match take_nth i (timers m) with
      | Some ((_, mem_addr, num_recs), rest) =>
          _timer mem_addr num_recs (set_timers rest m)
      | None => m
      end
  end.

Definition step (m : Manager) (e : Event) : Manager :=
  let m := handle e m in drain (length (ready m)) m.

Definition run (m : Manager) (es : list Event) : Manager := fold_left step es m.

End ReadManager.

(** ** Walks of a mirror *)

Module Walk.
Import Aldb.

(** The record stored at [k] is the high-water-mark sentinel. *)
Definition sentinel_at (a : ALDB) (k : Z) : Prop :=
  ∃ r, get k a = Some r ∧ is_high_water_mark (control_flags r) = true.

(** The walk gets past the keys [l]: none of them holds the sentinel and
    each lies exactly 8 below the one before it. *)
Fixpoint unbroken (a : ALDB) (l : list Z) : Prop :=
  match l with
  | [] => True
  | p :: l' =>
      ¬ sentinel_at a p
      ∧ match l' with k :: _ => p - 8 = k | [] => True end
      ∧ unbroken a l'
  end.

End Walk.

(** ** Constants *)

Module Constants.

(** Modelled from the spec: the results of an outbound command
    ([constants.ResponseStatus] is not part of the sources at hand). *)
Inductive ResponseStatus := SUCCESS | FAILURE | UNSENT.

Definition ResponseStatus_eqb (a b : ResponseStatus) : bool :=
  match a, b with
  | SUCCESS, SUCCESS | FAILURE, FAILURE | UNSENT, UNSENT => true
  | _, _ => false
  end.

End Constants.

(** ** The modem ALDB read manager (aldb/im_read_manager.py) *)

Module ImReadManager.
Import Asyncio Aldb Py Constants.

(** Modelled from the spec: the modem mirror [ModemALDB], a mapping from
    memory address to record; [last_mem_addr] is the lowest address
    written so far. *)
Record ModemALDB := mkModemALDB {
  records : gmap Z ALDBRecord;
  last_mem_addr : Z
}.

(** Modelled from the spec: keyed assignment, [_aldb[mem_addr] = record],
    which keeps [last_mem_addr] the lowest address written. *)
Definition setitem (k : Z) (r : ALDBRecord) (a : ModemALDB) : ModemALDB :=
  {| records := <[k := r]> (records a);
     last_mem_addr := Z.min (last_mem_addr a) k |}.

Inductive Request := GetFirst | GetNext.

(** Where a suspended [async_load] resumes once it owns [_load_lock]. *)
Inductive Cont :=
| first_acquire    (* line 34 *)
| second_acquire.  (* line 39 *)

Record Manager := mkManager {
  _aldb : ModemALDB;
  _retries : Z;
  _load_lock : Lock Cont;
  (** the requests handed to the two handlers, oldest first *)
  sent : list Request;
  (** waiters of [_load_lock] that [release] has scheduled *)
  woken : nat;
  errors : list Exn
}.

Definition init (a : ModemALDB) : Manager :=
  {| _aldb := a; _retries := 0; _load_lock := new_lock; sent := [];
     woken := 0; errors := [] |}.

Definition set_aldb (a : ModemALDB) (m : Manager) : Manager :=
  mkManager a (_retries m) (_load_lock m) (sent m) (woken m) (errors m).
Definition set_retries (v : Z) (m : Manager) : Manager :=
  mkManager (_aldb m) v (_load_lock m) (sent m) (woken m) (errors m).
Definition set_load_lock (l : Lock Cont) (m : Manager) : Manager :=
  mkManager (_aldb m) (_retries m) l (sent m) (woken m) (errors m).
Definition set_sent (v : list Request) (m : Manager) : Manager :=
  mkManager (_aldb m) (_retries m) (_load_lock m) v (woken m) (errors m).
Definition set_woken (v : nat) (m : Manager) : Manager :=
  mkManager (_aldb m) (_retries m) (_load_lock m) (sent m) v (errors m).
Definition set_errors (v : list Exn) (m : Manager) : Manager :=
  mkManager (_aldb m) (_retries m) (_load_lock m) (sent m) (woken m) v.

(** [_max_retries] *)
Definition _max_retries (m : Manager) : bool := 3 <=? _retries m.

(** [self._load_lock.release()] *)
Definition lock_release (m : Manager) : Manager :=
  match release (_load_lock m) with
  | Some (l, true) => set_woken (S (woken m)) (set_load_lock l m)
  | Some (l, false) => set_load_lock l m
  | None => set_errors (errors m ++ [RuntimeError]) m
  end.

Section Handlers.
(** What the modem answers: the truth value of the result of the [n]-th
    [async_send] ([handle_ack] returns True, [handle_nak] False). *)
Variable answers : nat → bool.
(** [control_flags.create_from_byte], not part of the sources at hand. *)
Variable create_from_byte : Z → ControlFlags.

(** [await handler.async_send()] *)
Definition async_send (r : Request) (m : Manager) : bool * Manager :=
  (answers (length (sent m)), set_sent (sent m ++ [r]) m).

(** Whether a loop has left its [while] or is still turning when the
    steps allotted to it are used up. *)
Inductive Loop := Left | Turning.

(** The [while] of [_get_next_record], for at most [n] turns, of a call
    that runs by itself: nothing else changes [_retries] between its
    sends. *)
Fixpoint get_next_loop (n : nat) (response : bool) (m : Manager)
  : Loop * Manager :=
  if negb response && negb (_max_retries m) then
    match n with
    | O => (Turning, m)
    | S n' =>
        let '(response, m) := async_send GetNext m in
        let m := set_retries (_retries m + 0) m in
        get_next_loop n' response m
    end
  else (Left, m).

(** [_get_next_record] *)
Definition _get_next_record (n : nat) (m : Manager) : Loop * Manager :=
  let response := false in
  let m := set_retries 0 m in
  match get_next_loop n response m with
  | (Left, m) => (Left, if _max_retries m then lock_release m else m)
  | (Turning, m) => (Turning, m)
  end.

(** [_receive_record].  It is a plain [def], not a coroutine: the
    [await] of its last line is none that Python accepts there, and the
    call [self._get_next_record()] that the line spells makes a coroutine
    object which nothing runs.  The record is stored; nothing is sent. *)
Definition _receive_record (flags group address data1 data2 data3 : Z)
    (m : Manager) : Manager :=
  let next_mem_addr := last_mem_addr (_aldb m) - 8 in
  let control_flags := create_from_byte flags in
  let record := mkRecord next_mem_addr control_flags group address
                  data1 data2 data3 in
  set_aldb (setitem next_mem_addr record (_aldb m)) m.

(** What the specification says of a delivery: the record is stored and
    the get-next request follows at once, as it would if the callback
    were a coroutine that runs [_get_next_record]. *)
Definition receive_record_then_ask (n : nat)
    (flags group address data1 data2 data3 : Z) (m : Manager)
  : Loop * Manager :=
  _get_next_record n (_receive_record flags group address data1 data2 data3 m).

(** How far a call of [async_load] has come. *)
Inductive Load :=
| Returned (status : ResponseStatus)
| Suspended (at_ : Cont)
| Spinning.

(** The [while] of [async_load], for at most [n] turns, of a call that
    runs by itself: nothing else changes [_retries] between its sends. *)
Fixpoint get_first_loop (n : nat) (response : bool) (m : Manager)
  : Loop * (bool * Manager) :=
  if negb response && negb (_max_retries m) then
    match n with
    | O => (Turning, (response, m))
    | S n' =>
        let '(response, m) := async_send GetFirst m in
        let m := set_retries (_retries m + 1) m in
        get_first_loop n' response m
    end
  else (Left, (response, m)).

(** [async_load], lines 40-42 *)
Definition load_finish (m : Manager) : Load * Manager :=
  let m := if locked (_load_lock m) then lock_release m else m in
  (Returned SUCCESS, m).

(** [async_load], lines 35-42: the lock is owned *)
Definition load_locked (n : nat) (response : bool) (m : Manager) : Load * Manager :=
  match get_first_loop n response m with
  | (Turning, (_, m)) => (Spinning, m)
  | (Left, (response, m)) =>
      if response then
        match acquire second_acquire (_load_lock m) with
        | (true, l) => load_finish (set_load_lock l m)
        | (false, l) => (Suspended second_acquire, set_load_lock l m)
        end
      else load_finish m
  end.

(** [async_load] from its call to its return or first suspension *)
Definition async_load (n : nat) (m : Manager) : Load * Manager :=
  let response := false in
  let m := set_retries 0 m in
  match acquire first_acquire (_load_lock m) with
  | (true, l) => load_locked n response (set_load_lock l m)
  | (false, l) => (Suspended first_acquire, set_load_lock l m)
  end.

(** [async_load] goes on when [release] has woken it; [None] when
    nobody waits for the lock *)
Definition load_resumes (n : nat) (m : Manager) : option (Load * Manager) :=
  match wake (_load_lock m) with
  | Some (first_acquire, l) => Some (load_locked n false (set_load_lock l m))
  | Some (second_acquire, l) => Some (load_finish (set_load_lock l m))
  | None => None
  end.
End Handlers.

(** The status [async_load] has returned, if it has. *)
Definition status_of (o : Load) : option ResponseStatus :=
  match o with Returned s => Some s | _ => None end.

End ImReadManager.

(** ** The direct command handler (handlers/direct_command.py) *)

Module DirectCommand.
Import Asyncio Py Constants.

Record Handler := mkHandler {
  response_lock : Lock unit;
  (** calls of [async_send] suspended in [super().async_send] *)
  sending : nat;
  (** waiters of the lock that [release] has scheduled *)
  woken : nat;
  (** what the calls that are over have returned or raised *)
  outcomes : list (result ResponseStatus)
}.

(** [__init__] *)
Definition init : Handler :=
  {| response_lock := new_lock; sending := 0; woken := 0; outcomes := [] |}.

Definition set_response_lock (l : Lock unit) (h : Handler) : Handler :=
  mkHandler l (sending h) (woken h) (outcomes h).
Definition set_sending (n : nat) (h : Handler) : Handler :=
  mkHandler (response_lock h) n (woken h) (outcomes h).
Definition set_woken (n : nat) (h : Handler) : Handler :=
  mkHandler (response_lock h) (sending h) n (outcomes h).
Definition set_outcomes (o : list (result ResponseStatus)) (h : Handler) : Handler :=
  mkHandler (response_lock h) (sending h) (woken h) o.

(** [async_send], lines 29-30: [if self.response_lock.locked():
    self.response_lock.release()] *)
Definition release_if_locked (h : Handler) : Handler :=
  if locked (response_lock h) then
    match release (response_lock h) with
    | Some (l, true) => set_woken (S (woken h)) (set_response_lock l h)
    | Some (l, false) => set_response_lock l h
    | None => h
    end
  else h.

(** How a call of [async_send] gets past [await
    self.response_lock.acquire()]. *)
Inductive Entry := Sends | Queues.

(** [async_send], lines 29-32: from the call to the suspension in
    [super().async_send] (or in [acquire]). *)
Definition async_send_enters (h : Handler) : Entry * Handler :=
  let h := release_if_locked h in
  match acquire tt (response_lock h) with
  | (true, l) => (Sends, set_sending (S (sending h)) (set_response_lock l h))
  | (false, l) => (Queues, set_response_lock l h)
  end.

(** A call queued in [acquire] is woken: it owns the lock and sends. *)
Definition async_send_resumes (h : Handler) : Handler :=
  match wake (response_lock h) with
  | Some (_, l) =>
      set_sending (S (sending h)) (set_woken (pred (woken h)) (set_response_lock l h))
  | None => h
  end.

(** [async_send], lines 32-34: [super().async_send] has returned
    [response]. *)
Definition async_send_returns (response : ResponseStatus) (h : Handler) : Handler :=
  let h := set_sending (pred (sending h)) h in
  match release (response_lock h) with
  | Some (l, w) =>
      let h := set_response_lock l h in
      let h := if w then set_woken (S (woken h)) h else h in
      set_outcomes (outcomes h ++ [Ok response]) h
  | None => set_outcomes (outcomes h ++ [Raise RuntimeError]) h
  end.

(** What happens to a handler. *)
Inductive Event :=
| Calls                               (* async_send(..) is called *)
| Responds (response : ResponseStatus) (* a super().async_send returns *)
| Wakes.                              (* a woken waiter runs *)

Definition step (h : Handler) (e : Event) : Handler :=
  match e with
  | Calls => snd (async_send_enters h)
  | Responds response =>
      match sending h with
      | O => h
      | S _ => async_send_returns response h
      end
  | Wakes =>
      match woken h with
      | O => h
      | S _ => async_send_resumes h
      end
  end.

Definition run (h : Handler) (es : list Event) : Handler := fold_left step es h.

End DirectCommand.

(** ** The operating flags manager (managers/get_set_op_flag_manager.py) *)

Module OpFlags.
Import Py Constants.

Definition MAX_RETRIES : Z := 5.

(** The values a flag takes: a bit of a register or a whole register. *)
Inductive Value := VBool (b : bool) | VInt (z : Z).

(** [bool(v)] *)
Definition truth (v : Value) : bool :=
  match v with VBool b => b | VInt z => negb (z =? 0) end.

(** Python compares a [bool] with an [int] by its number. *)
Definition number (v : Value) : Z :=
  match v with VBool b => Z.b2z b | VInt z => z end.

(** [a == b] *)
Definition value_eqb (a b : Value) : bool := number a =? number b.

(** Modelled from the spec: an operating flag (the class is not part of
    the sources at hand) carries [value], the last confirmed value, and
    [new_value], the pending write; it is dirty when they differ, and
    [load] makes a value the confirmed one and drops the pending write. *)
Record OperatingFlag := mkFlag {
  value : Value;
  new_value : Value
}.

Definition is_dirty (f : OperatingFlag) : bool :=
  negb (value_eqb (new_value f) (value f)).

Definition load (v : Value) (f : OperatingFlag) : OperatingFlag :=
  {| value := v; new_value := v |}.

(** [OperatingFlagInfo = namedtuple("FlagInfo", "name group bit set_cmd
    unset_cmd")] *)
Record OperatingFlagInfo := mkInfo {
  name : string;
  group : Z;
  bit : option Z;
  set_cmd : option Z;
  unset_cmd : option Z
}.

(** A Python [dict] in its insertion order. *)
Section Dict.
Context {K V : Type} `{EqDecision K}.

Fixpoint dict_get (k : K) (d : list (K * V)) : option V :=
  match d with
  | [] => None
  | (k', v) :: d' => if decide (k = k') then Some v else dict_get k d'
  end.

(** [d[k] = v]: in place when [k] is a key, at the end otherwise *)
Fixpoint dict_set (k : K) (v : V) (d : list (K * V)) : list (K * V) :=
  match d with
  | [] => [(k, v)]
  | (k', v') :: d' =>
      if decide (k = k') then (k, v) :: d' else (k', v') :: dict_set k v d'
  end.

Definition dict_keys (d : list (K * V)) : list K := map fst d.
End Dict.

(** An entry of [_groups]: the bindings of the bits of a register, or the
    binding of the whole register. *)
Inductive GroupEntry :=
| Bits (d : list (Z * OperatingFlagInfo))
| Whole (flag_info : OperatingFlagInfo).

Record Manager := mkManager {
  _op_flags : list (string * OperatingFlag);
  _groups : gmap Z GroupEntry;
  _flags : gmap string OperatingFlagInfo;
  (** the commands handed to [_set_command.async_send], oldest first *)
  sent : list Z
}.

(** [__init__] *)
Definition init (_op_flags : list (string * OperatingFlag)) : Manager :=
  {| _op_flags := _op_flags; _groups := ∅; _flags := ∅; sent := [] |}.

Definition set_op_flags (v : list (string * OperatingFlag)) (m : Manager) : Manager :=
  mkManager v (_groups m) (_flags m) (sent m).
Definition set_groups (v : gmap Z GroupEntry) (m : Manager) : Manager :=
  mkManager (_op_flags m) v (_flags m) (sent m).
Definition set_flags (v : gmap string OperatingFlagInfo) (m : Manager) : Manager :=
  mkManager (_op_flags m) (_groups m) v (sent m).
Definition set_sent (v : list Z) (m : Manager) : Manager :=
  mkManager (_op_flags m) (_groups m) (_flags m) v.

(** [subscribe]; a bit cannot be bound in a group whose register is bound
    as a whole (a tuple takes no item assignment). *)
Definition subscribe (name : string) (group : Z) (bit : option Z)
    (set_cmd unset_cmd : option Z) (m : Manager) : result unit * Manager :=
  let flag_info := mkInfo name group bit set_cmd unset_cmd in
  let m := match _groups m !! group with
           | None => set_groups (<[group := Bits []]> (_groups m)) m
           | Some _ => m
           end in
  match bit with
  | Some b =>
      match _groups m !! group with
      | Some (Bits d) =>
          let m := set_groups (<[group := Bits (dict_set b flag_info d)]> (_groups m)) m in
          (Ok tt, set_flags (<[name := flag_info]> (_flags m)) m)
      | Some (Whole _) => (Raise TypeError, m)
      | None => (Raise KeyError, m)
      end
  | None =>
      let m := set_groups (<[group := Whole flag_info]> (_groups m)) m in
      (Ok tt, set_flags (<[name := flag_info]> (_flags m)) m)
  end.

(** [bool(flags & 1 << bit)]; shifting by [None] or by a negative count
    raises. *)
Definition bit_value (flags : Z) (bit : option Z) : result Value :=
  match bit with
  | None => Raise TypeError
  | Some b =>
      if b <? 0 then Raise ValueError
      else Ok (VBool (negb (Z.land flags (Z.shiftl 1 b) =? 0)))
  end.

(** The [for bit in self._groups[group]] of [_update_flags] over a dict of
    bit bindings. *)
Fixpoint update_bits (d : list (Z * OperatingFlagInfo)) (keys : list Z)
    (flags : Z) (m : Manager) : result unit * Manager :=
  match keys with
  | [] => (Ok tt, m)
  | bit :: keys' =>
      match dict_get bit d with
      | None => (Raise KeyError, m)
      | Some flag_info =>
          match dict_get (name flag_info) (_op_flags m) with
          | None => (Raise KeyError, m)
          | Some flag =>
              match bit_value flags (OpFlags.bit flag_info) with
              | Raise e => (Raise e, m)
              | Ok value =>
                  update_bits d keys' flags
                    (set_op_flags
                       (dict_set (name flag_info) (load value flag) (_op_flags m)) m)
              end
          end
      end
  end.

(** [_update_flags].  An empty dict of bindings is false.  For the binding
    of a whole register the [for] then runs over the fields of the tuple
    and indexes the tuple with the first of them, the name. *)
Definition _update_flags (group flags : Z) (m : Manager) : result unit * Manager :=
  match _groups m !! group with
  | None => (Ok tt, m)
  | Some (Bits []) => (Ok tt, m)
  | Some (Bits d) => update_bits d (dict_keys d) flags m
  | Some (Whole flag_info) =>
      match dict_get (name flag_info) (_op_flags m) with
      | None => (Raise KeyError, m)
      | Some flag =>
          let m := set_op_flags
                     (dict_set (name flag_info) (load (VInt flags) flag) (_op_flags m)) m in
          (Raise TypeError, m)
      end
  end.

Section Device.
(** What the device answers: the result of the [n]-th
    [_set_command.async_send]. *)
Variable answers : nat → ResponseStatus.

(** [await self._set_command.async_send(cmd=cmd)] *)
Definition async_send (cmd : Z) (m : Manager) : ResponseStatus * Manager :=
  (answers (length (sent m)), set_sent (sent m ++ [cmd]) m).

(** The [while] of [_async_write], for at most [n] turns; the flag says
    whether the loop was left. *)
Fixpoint write_loop (n : nat) (cmd : Z) (retries : Z) (result : ResponseStatus)
    (m : Manager) : bool * (ResponseStatus * Manager) :=
  if (retries <? MAX_RETRIES) && negb (ResponseStatus_eqb result SUCCESS) then
    match n with
    | O => (false, (result, m))
    | S n' =>
        let '(result, m) := async_send cmd m in
        write_loop n' cmd (retries + 1) result m
    end
  else (true, (result, m)).

(** [_async_write] *)
Definition _async_write (flag_info : OperatingFlagInfo) (m : Manager)
  : result ResponseStatus * Manager :=
  match dict_get (name flag_info) (_op_flags m) with
  | None => (Raise KeyError, m)
  | Some flag =>
      let cmd := if truth (new_value flag) then set_cmd flag_info
                 else unset_cmd flag_info in
      match cmd with
      | Some cmd =>
          let retries := 0 in
          let result := UNSENT in
          let '(result, m) :=
            snd (write_loop (Z.to_nat MAX_RETRIES) cmd retries result m) in
          let m :=
            if ResponseStatus_eqb result SUCCESS
            then set_op_flags
                   (dict_set (name flag_info) (load (new_value flag) flag)
                      (_op_flags m)) m
            else m in
          (Ok result, m)
      | None =>
          let m := set_op_flags
                     (dict_set (name flag_info) (load (value flag) flag)
                        (_op_flags m)) m in
          (Ok SUCCESS, m)
      end
  end.

(** The body of the [for name in self._op_flags] of [async_write] *)
Definition write_visit (name : string) (results : list ResponseStatus)
    (m : Manager) : result (list ResponseStatus) * Manager :=
  match dict_get name (_op_flags m) with
  | None => (Raise KeyError, m)
  | Some flag =>
      if is_dirty flag then
        match _flags m !! name with
        | None => (Raise KeyError, m)
        | Some flat_info =>
            match _async_write flat_info m with
            | (Ok result, m) => (Ok (results ++ [result]), m)
            | (Raise e, m) => (Raise e, m)
            end
        end
      else (Ok results, m)
  end.

Fixpoint write_names (names : list string) (results : list ResponseStatus)
    (m : Manager) : result (list ResponseStatus) * Manager :=
  match names with
  | [] => (Ok results, m)
  | name :: names' =>
      match write_visit name results m with
      | (Ok results, m) => write_names names' results m
      | (Raise e, m) => (Raise e, m)
      end
  end.

(** [async_write]; the function returns nothing: what is given here is
    its local [results]. *)
Definition async_write (m : Manager) : result (list ResponseStatus) * Manager :=
  write_names (dict_keys (_op_flags m)) [] m.
End Device.

(** The result in hand before the [i]-th send of a retry loop that starts
    with [result] when [sent] commands have gone out. *)
Definition in_hand (answers : nat → ResponseStatus) (sent : nat)
    (result : ResponseStatus) (i : nat) : ResponseStatus :=
  match i with
  | O => result
  | S j => answers (sent + j)%nat
  end.

End OpFlags.

(** ** Properties of a device mirror and runs of the device manager *)

Module Mirror.
Import Aldb ReadManager.

(** Every record sits under its own memory address. *)
Definition key_consistent (a : ALDB) : Prop :=
  ∀ addr r, get addr a = Some r → mem_addr r = addr.

(** What the environment of a read sequence does when no record arrives
    and nobody calls [read] again: sends return and timers elapse. *)
Inductive Progress :=
| SendDone (i : nat)
| TimerDone (i : nat).

Definition event_of (p : Progress) : Event :=
  match p with
  | SendDone i => SendReturns i
  | TimerDone i => TimerWakes i
  end.

(** A manager on an empty mirror whose table starts at [first]. *)
Definition fresh (first : Z) : Manager := init (mkALDB ∅ first).

(** The states of a bulk read that receives nothing: the command is with
    the handler; the watchdog is set and [async_read] waits for the end of
    the sequence; the watchdog has asked for the read again. *)
Definition requested (first : Z) : Manager := step (fresh first) (CallRead 0 0).
Definition watched (first : Z) : Manager := step (requested first) (SendReturns 0).
Definition asked_again (first : Z) : Manager := step (watched first) (TimerWakes 0).

(** A record in use at [addr]. *)
Definition link_at (addr : Z) : ALDBRecord :=
  mkRecord addr (mkFlags true true false false false) 1 0x1a2b3c 255 28 1.

(** The high-water-mark record at [addr]. *)
Definition sentinel (addr : Z) : ALDBRecord :=
  mkRecord addr (mkFlags false false true false false) 0 0 0 0 0.

(** A first caller reads the record at 0x0FFF, a second caller asks for
    the record at 0x0FF7 while the first sequence runs, the record at
    0x0FFF arrives and the watchdog of the first sequence fires. *)
Definition two_callers : list Event :=
  [CallRead 0x0fff 1; SendReturns 0; CallRead 0x0ff7 1;
   Delivers true (link_at 0x0fff); TimerWakes 0].

(** A mirror holding the records at 0x0FFF and 0x0FF7. *)
Definition two_links : Manager :=
  run (fresh 0x0fff)
    [Delivers true (link_at 0x0fff); Delivers true (link_at 0x0ff7)].

End Mirror.

(** ** A device with one operating flag *)

Module Led.
Import Py Constants OpFlags.

(** The flag "led_on" is off and is to be switched on. *)
Definition led_flag : OperatingFlag :=
  {| value := VBool false; new_value := VBool true |}.

(** It is bit 2 of register 0, set by command 5 and cleared by command 6. *)
Definition led_info : OperatingFlagInfo :=
  mkInfo "led_on" 0 (Some 2) (Some 5) (Some 6).

Definition led_manager : Manager :=
  snd (subscribe "led_on" 0 (Some 2) (Some 5) (Some 6)
         (init [("led_on"%string, led_flag)])).

(** A device that acknowledges every command. *)
Definition obliging : nat → ResponseStatus := λ _, SUCCESS.

End Led.


(** ** What every run of the device manager keeps *)

Module Flight.
Import Asyncio Aldb Py ReadManager.

(** At most one command is with the handler or under its watchdog, and the
    gate is held while one is; a pending watchdog has its [async_read]
    queued at the second [acquire]; nothing is runnable, nothing was
    raised; and once a call has returned the gate is held with nothing
    left to release it. *)
Definition one_in_flight (m : Manager) : Prop :=
  ready m = []
  ∧ head_woken (_load_lock m) = false
  ∧ (length (sending m) + length (timers m) ≤ 1)%nat
  ∧ (sending m ≠ [] ∨ timers m ≠ [] → locked (_load_lock m) = true)
  ∧ (timers m ≠ [] → second_acquire ∈ waiters (_load_lock m))
  ∧ (locked (_load_lock m) = false → waiters (_load_lock m) = [])
  ∧ errors m = []
  ∧ (returned m = 0%nat
     ∨ returned m = 1%nat ∧ locked (_load_lock m) = true
       ∧ sending m = [] ∧ timers m = []).

(** The retry counters stay within their budgets, and so do the retry
    counts and delays noted for the sends and watchdogs under way. *)
Definition within_budget (m : Manager) : Prop :=
  0 ≤ _retries_all m ≤ RETRIES_ALL_MAX
  ∧ 0 ≤ _retries_one m ≤ RETRIES_ONE_MAX
  ∧ Forall (λ s, 0 ≤ s.1.1 ≤ RETRIES_ONE_MAX) (sending m)
  ∧ Forall (λ t, TIMER ≤ t.1.1 ≤ TIMER + RETRIES_ONE_MAX * TIMER_INCREMENT)
      (timers m).

(** All records of the mirror lie in slots of one 8-byte grid. *)
Definition aligned (a : ALDB) : Prop :=
  ∃ c, ∀ k, is_Some (get k a) → k mod 8 = c.

(** Every command sent, being sent or (while a sequence is under way or
    the gate is free) queued for the gate was asked for by a call of
    [read] among the events [es]. *)
Definition only_asked (es : list Event) (m : Manager) : Prop :=
  (∀ a n, (a, n) ∈ sent m → CallRead a n ∈ es)
  ∧ (∀ r a n, (r, a, n) ∈ sending m → CallRead a n ∈ es)
  ∧ (sending m ≠ [] ∨ timers m ≠ [] ∨ locked (_load_lock m) = false →
     ∀ a n, first_acquire a n ∈ waiters (_load_lock m) → CallRead a n ∈ es).

(** Nothing is under way and the gate is held: no command is with the
    handler, no watchdog is pending and nothing is runnable. *)
Definition stalled (m : Manager) : Prop :=
  ready m = [] ∧ sending m = [] ∧ timers m = []
  ∧ locked (_load_lock m) = true.

End Flight.

(** ** Runs of the modem manager *)

Module Modem.
Import Asyncio Aldb Py Constants ImReadManager.

(** A record as the response handler delivers it: the control byte, the
    group, the address and the three data bytes. *)
Definition Delivery : Type := Z * Z * Z * Z * Z * Z.

(** Records are delivered one after the other, each delivery followed
    by the get-next loop that the callback is meant to run, for [n]
    turns ([receive_record_then_ask]; with [_receive_record] as it is
    written the loop is never entered). *)
Definition deliveries (answers : nat → bool) (create_from_byte : Z → ControlFlags)
    (n : nat) (ds : list Delivery) (m : Manager) : Manager :=
  fold_left
    (λ m d,
       let '(flags, group, address, data1, data2, data3) := d in
       snd (receive_record_then_ask answers create_from_byte n
              flags group address data1 data2 data3 m))
    ds m.

End Modem.

(** ** The coroutines of the modem manager, step by step *)

Module ImEvents.
Import Asyncio Aldb Py Constants ImReadManager Modem.

(** The manager with its coroutines: the calls of [async_load] suspended
    in a get-first send, the calls of [_get_next_record] suspended in a
    get-next send, and what the calls of [async_load] that are over have
    returned.  The calls suspended in [acquire] are the waiters of the
    lock. *)
Record State := mkState {
  manager : Manager;
  loading : nat;
  asking : nat;
  returned : list ResponseStatus
}.

Definition start (a : ModemALDB) : State :=
  {| manager := init a; loading := 0; asking := 0; returned := [] |}.

Definition set_manager (m : Manager) (s : State) : State :=
  mkState m (loading s) (asking s) (returned s).
Definition set_loading (n : nat) (s : State) : State :=
  mkState (manager s) n (asking s) (returned s).
Definition set_asking (n : nat) (s : State) : State :=
  mkState (manager s) (loading s) n (returned s).
Definition set_returned (r : list ResponseStatus) (s : State) : State :=
  mkState (manager s) (loading s) (asking s) r.

(** [async_load], lines 40-42 *)
Definition load_ends (s : State) : State :=
  let s := set_manager (snd (load_finish (manager s))) s in
  set_returned (returned s ++ [SUCCESS]) s.

(** [async_load], lines 38-42: the loop is left with [response] *)
Definition load_leaves (response : bool) (s : State) : State :=
  if response then
    match acquire second_acquire (_load_lock (manager s)) with
    | (true, l) => load_ends (set_manager (set_load_lock l (manager s)) s)
    | (false, l) => set_manager (set_load_lock l (manager s)) s
    end
  else load_ends s.

(** [async_load], line 35: the test of the [while], and on to the
    suspension in the get-first send or out of the loop *)
Definition load_turns (response : bool) (s : State) : State :=
  if negb response && negb (_max_retries (manager s)) then
    let m := manager s in
    set_loading (S (loading s)) (set_manager (set_sent (sent m ++ [GetFirst]) m) s)
  else load_leaves response s.

(** [async_load] is called: lines 32-34 *)
Definition calls_load (s : State) : State :=
  let m := set_retries 0 (manager s) in
  match acquire first_acquire (_load_lock m) with
  | (true, l) => load_turns false (set_manager (set_load_lock l m) s)
  | (false, l) => set_manager (set_load_lock l m) s
  end.

(** A get-first send returns [response]: lines 36-37 and the test
    again *)
Definition first_returns (response : bool) (s : State) : State :=
  match loading s with
  | O => s
  | S n =>
      let m := manager s in
      load_turns response
        (set_loading n (set_manager (set_retries (_retries m + 1) m) s))
  end.

(** [_get_next_record], line 62: the test of the [while], and on to the
    suspension in the get-next send or out of the loop and through lines
    65-66 *)
Definition next_turns (response : bool) (s : State) : State :=
  let m := manager s in
  if negb response && negb (_max_retries m) then
    set_asking (S (asking s)) (set_manager (set_sent (sent m ++ [GetNext]) m) s)
  else if _max_retries m then set_manager (lock_release m) s
  else s.

(** [_get_next_record] is called: lines 60-61 *)
Definition calls_get_next (s : State) : State :=
  next_turns false (set_manager (set_retries 0 (manager s)) s).

(** A get-next send returns [response]: lines 63-64 and the test
    again *)
Definition next_returns (response : bool) (s : State) : State :=
  match asking s with
  | O => s
  | S n =>
      let m := manager s in
      next_turns response
        (set_asking n (set_manager (set_retries (_retries m + 0) m) s))
  end.

(** A waiter that [release] has woken runs: it owns the lock and goes on
    from its [acquire]. *)
Definition wakes (s : State) : State :=
  match woken (manager s) with
  | O => s
  | S k =>
      match wake (_load_lock (manager s)) with
      | Some (first_acquire, l) =>
          load_turns false
            (set_manager (set_woken k (set_load_lock l (manager s))) s)
      | Some (second_acquire, l) =>
          load_ends (set_manager (set_woken k (set_load_lock l (manager s))) s)
      | None => s
      end
  end.

(** What happens to the manager. *)
Inductive Event :=
| CallsLoad                        (* async_load() is called *)
| FirstReturns (response : bool)   (* a get-first send returns *)
| CallsGetNext                     (* _get_next_record() is called *)
| NextReturns (response : bool)    (* a get-next send returns *)
| Delivers (d : Delivery)          (* the handler delivers a record *)
| Wakes.                           (* a woken waiter runs *)

Section Run.
Variable create_from_byte : Z → ControlFlags.

Definition step (s : State) (e : Event) : State :=
  match e with
  | CallsLoad => calls_load s
  | FirstReturns response => first_returns response s
  | CallsGetNext => calls_get_next s
  | NextReturns response => next_returns response s
  | Delivers (flags, group, address, data1, data2, data3) =>
      set_manager
        (_receive_record create_from_byte flags group address data1 data2 data3
           (manager s)) s
  | Wakes => wakes s
  end.

Definition run (s : State) (es : list Event) : State := fold_left step es s.
End Run.

(** One more call of [async_load] while a load waits for the answer to
    its get-first request, and the refusal of that request. *)
Definition another_call : list Event := [CallsLoad; FirstReturns false].

(** No coroutine of [async_load] runs or is started by the event. *)
Definition beside_load (e : Event) : Prop :=
  match e with
  | CallsLoad | FirstReturns _ => False
  | _ => True
  end.

(** The manager is at rest with its lock free. *)
Definition at_rest (s : State) : Prop :=
  loading s = 0%nat ∧ asking s = 0%nat
  ∧ locked (_load_lock (manager s)) = false
  ∧ waiters (_load_lock (manager s)) = []
  ∧ woken (manager s) = 0%nat.

End ImEvents.

(** ** Runs of a direct command handler *)

Module Direct.
Import Asyncio Py Constants DirectCommand.

(** Exchanges made one after the other: each call has its response
    before the next call is made. *)
Definition one_by_one (rs : list ResponseStatus) : list Event :=
  concat (map (λ r, [Calls; Responds r]) rs).

(** Exchanges that overlap: all the calls are made before the first of
    them has its response. *)
Definition overlapping (rs : list ResponseStatus) : list Event :=
  replicate (length rs) Calls ++ map Responds rs.

(** The number of calls of [async_send] among the events. *)
Fixpoint calls (es : list Event) : nat :=
  match es with
  | [] => 0
  | Calls :: es' => S (calls es')
  | _ :: es' => calls es'
  end.

End Direct.

(** ** The registry of the operating flags manager *)

Module Registry.
Import Py Constants OpFlags.

(** [d.pop(k)]; [None] is [KeyError]. *)
Fixpoint dict_pop {V : Type} (k : Z) (d : list (Z * V)) : option (list (Z * V)) :=
  match d with
  | [] => None
  | (k', v) :: d' =>
      if decide (k = k') then Some d'
      else match dict_pop k d' with
           | Some d'' => Some ((k', v) :: d'')
           | None => None
           end
  end.

(** How [_remove] and [unsubscribe] end: they return, or the [pop] asked
    of the binding of a whole register (a tuple) raises
    [AttributeError]. *)
Inductive Removal := Removed | AttributeError.

(** [_remove]: a [KeyError] of either [pop] is passed over. *)
Definition _remove (name : string) (group : Z) (bit : option Z) (m : Manager)
  : Removal * Manager :=
  let first :=
    match bit with
    | Some b =>
        match _groups m !! group with
        | None => (Removed, m)
        | Some (Bits d) =>
            match dict_pop b d with
            | Some d' => (Removed, set_groups (<[group := Bits d']> (_groups m)) m)
            | None => (Removed, m)
            end
        | Some (Whole _) => (AttributeError, m)
        end
    | None => (Removed, set_groups (delete group (_groups m)) m)
    end in
  match first with
  | (Removed, m) => (Removed, set_flags (delete name (_flags m)) m)
  | (AttributeError, m) => (AttributeError, m)
  end.

(** [unsubscribe] *)
Definition unsubscribe (name : string) (m : Manager) : Removal * Manager :=
  match _flags m !! name with
  | Some flag_info => _remove name (group flag_info) (bit flag_info) m
  | None => (Removed, m)
  end.

(** The calls that change the registry. *)
Inductive Op :=
| Subscribe (name : string) (group : Z) (bit : option Z)
    (set_cmd unset_cmd : option Z)
| Unsubscribe (name : string).

(** A call is made; when it raises, the manager is as the call left it. *)
Definition apply (m : Manager) (op : Op) : Manager :=
  match op with
  | Subscribe name group bit set_cmd unset_cmd =>
      snd (subscribe name group bit set_cmd unset_cmd m)
  | Unsubscribe name => snd (unsubscribe name m)
  end.

Definition apply_all (m : Manager) (ops : list Op) : Manager :=
  fold_left apply ops m.

(** An entry of [_groups] is filed under the group [g] it belongs to:
    bit bindings under their own bit, each bit once; the binding of a
    whole register with no bit. *)
Definition filed_in (g : Z) (e : GroupEntry) : Prop :=
  match e with
  | Bits d =>
      (∀ b fi, (b, fi) ∈ d → bit fi = Some b ∧ group fi = g)
      ∧ NoDup (dict_keys d)
  | Whole fi => bit fi = None ∧ group fi = g
  end.

(** Every binding is filed where it says it belongs: under its own name
    in [_flags], under its own group and bit in [_groups]. *)
Definition well_filed (m : Manager) : Prop :=
  (∀ n fi, _flags m !! n = Some fi → name fi = n)
  ∧ (∀ g e, _groups m !! g = Some e → filed_in g e).

Section Reads.
(** What the device answers: the result of the [n]-th
    [_get_command.async_send]. *)
Variable answers : nat → ResponseStatus.

(** The [while] of [_async_read], for at most [n] turns, over the log of
    the groups asked for; the flag says whether the loop was left. *)
Fixpoint read_loop (n : nat) (group retries : Z) (result : ResponseStatus)
    (asked : list Z) : bool * (ResponseStatus * list Z) :=
  if (retries <? MAX_RETRIES) && negb (ResponseStatus_eqb result SUCCESS) then
    match n with
    | O => (false, (result, asked))
    | S n' =>
        let result := answers (length asked) in
        read_loop n' group (retries + 1) result (asked ++ [group])
    end
  else (true, (result, asked)).

(** [_async_read] *)
Definition _async_read (group : Z) (asked : list Z) : ResponseStatus * list Z :=
  let retries := 0 in
  let result := UNSENT in
  snd (read_loop (Z.to_nat MAX_RETRIES) group retries result asked).
End Reads.

(** The flags that have a write pending. *)
Definition dirty_flags (ops : list (string * OperatingFlag))
  : list (string * OperatingFlag) :=
  filter (λ p, is_dirty p.2 = true) ops.

End Registry.

(** ** What [async_write] does, write by write *)

Module Written.
Import Py Constants OpFlags.

(** The command bound for the pending value of a flag: [set_cmd] to set
    it, [unset_cmd] to clear it; [None] for a read-only flag. *)
Definition command (fi : OperatingFlagInfo) (f : OperatingFlag) : option Z :=
  if truth (new_value f) then set_cmd fi else unset_cmd fi.

(** One write: the name of the flag, the flag as the write found it, its
    binding, the number of commands the manager had sent when the write
    began, the number sent for the write and its result. *)
Record Write := mkWrite {
  w_name : string;
  w_flag : OperatingFlag;
  w_info : OperatingFlagInfo;
  w_start : nat;
  w_sends : nat;
  w_result : ResponseStatus
}.

(** A write is made the way the specification has it: with a command
    bound, the
    command is sent between 1 and 5 times, every send but the last is
    answered with something other than SUCCESS, fewer than 5 sends are
    made only when the last answer is SUCCESS, and the result is the last
    answer; with no command bound nothing is sent and the result is
    SUCCESS. *)
Definition as_specified (answers : nat → ResponseStatus) (w : Write) : Prop :=
  match command (w_info w) (w_flag w) with
  | Some _ =>
      (1 ≤ w_sends w ≤ 5)%nat
      ∧ w_result w = answers (w_start w + w_sends w - 1)%nat
      ∧ (∀ i, (i < w_sends w - 1)%nat → answers (w_start w + i)%nat ≠ SUCCESS)
      ∧ ((w_sends w < 5)%nat → w_result w = SUCCESS)
  | None => w_sends w = 0%nat ∧ w_result w = SUCCESS
  end.

(** The commands sent for a write. *)
Definition commands (w : Write) : list Z :=
  match command (w_info w) (w_flag w) with
  | Some cmd => replicate (w_sends w) cmd
  | None => []
  end.

(** The flag after a write: the pending value is confirmed on SUCCESS and
    the flag is left alone otherwise; the pending value of a read-only
    flag is reset to the confirmed one. *)
Definition written (w : Write) : OperatingFlag :=
  match command (w_info w) (w_flag w) with
  | Some _ =>
      if ResponseStatus_eqb (w_result w) SUCCESS
      then mkFlag (new_value (w_flag w)) (new_value (w_flag w))
      else w_flag w
  | None => mkFlag (value (w_flag w)) (value (w_flag w))
  end.

(** Writes follow one another: each begins where the one before it
    ended. *)
Fixpoint chained (start : nat) (ws : list Write) : Prop :=
  match ws with
  | [] => True
  | w :: ws' => w_start w = start ∧ chained (start + w_sends w) ws'
  end.

(** The flags written, as they were found. *)
Definition found (ws : list Write) : list (string * OperatingFlag) :=
  map (λ w, (w_name w, w_flag w)) ws.

End Written.

(** ** Sample runs *)

Module Samples.
Import Aldb Py Constants.

(** A call reads the record at 0x0FFF, and the record arrives before the
    watchdog of the read fires. *)
Definition served : list ReadManager.Event :=
  [ReadManager.CallRead 0x0fff 1; ReadManager.SendReturns 0;
   ReadManager.Delivers true (Mirror.link_at 0x0fff);
   ReadManager.TimerWakes 0].

(** A modem manager on an empty mirror. *)
Definition empty_modem : ImReadManager.Manager :=
  ImReadManager.init (ImReadManager.mkModemALDB ∅ 0x2000).

(** A modem that acknowledges every request, and one that refuses them
    all. *)
Definition acknowledging : nat → bool := λ _, true.
Definition refusing : nat → bool := λ _, false.

(** A decoder that reads every control byte as a controller link in
    use. *)
Definition in_use : Z → ControlFlags :=
  λ _, mkFlags true true false false false.

(** The coroutines of a modem manager on an empty mirror. *)
Definition modem_at_rest : ImEvents.State :=
  ImEvents.start (ImReadManager.mkModemALDB ∅ 0x2000).

(** A device that acknowledges no command. *)
Definition silent : nat → ResponseStatus := λ _, FAILURE.

(** The manager of the led before the flag is subscribed. *)
Definition led_unbound : OpFlags.Manager :=
  OpFlags.init [("led_on"%string, Led.led_flag)].

End Samples.
(** * Facts *)

Section DeviceMirror.
Import Asyncio Aldb Py ReadManager.

Lemma elem_of_iter (a : ALDB) (k : Z) : k ∈ iter a ↔ is_Some (get k a).
Proof.
  unfold iter, get.
  rewrite merge_sort_Permutation, elem_of_elements.
  apply elem_of_dom.
Qed.

Lemma NoDup_iter (a : ALDB) : NoDup (iter a).
Proof.
  unfold iter. rewrite merge_sort_Permutation. apply NoDup_elements.
Qed.

Lemma iter_sorted (a : ALDB) : StronglySorted (flip Z.le) (iter a).
Proof.
  unfold iter. apply StronglySorted_merge_sort.
  - intros x y z Hxy Hyz. unfold flip in *. lia.
  - intros x y. unfold flip. lia.
Qed.

(** Two neighbours of the walk: the later one has the smaller address. *)
Lemma iter_descending (a : ALDB) (pre post : list Z) (p k : Z) :
  iter a = pre ++ p :: k :: post → k < p.
Proof.
  intros Heq.
  pose proof (iter_sorted a) as Hs. pose proof (NoDup_iter a) as Hn.
  rewrite Heq in Hs, Hn.
  apply StronglySorted_app_1_r in Hs.
  apply NoDup_app in Hn as (_ & _ & Hn).
  apply StronglySorted_inv in Hs as [_ Hall].
  apply NoDup_cons in Hn as [Hnotin _].
  apply Forall_cons in Hall as [Hle _]. unfold flip in Hle.
  assert (p ≠ k) by (intros ->; apply Hnotin; left).
  lia.
Qed.

Lemma iter_nil (a : ALDB) : iter a = [] ↔ size (records a) = 0%nat.
Proof.
  split.
  - intros Hnil. apply map_size_empty_iff. apply map_eq. intros k.
    rewrite lookup_empty. destruct (records a !! k) eqn:Hk; [|done].
    assert (k ∈ iter a) as Hin by (apply elem_of_iter; unfold get; eauto).
    rewrite Hnil in Hin. by apply elem_of_nil in Hin.
  - intros Hsz. apply map_size_empty_iff in Hsz.
    unfold iter. rewrite Hsz, dom_empty_L, elements_empty. reflexivity.
Qed.

Lemma found_first_fold (first : Z) (l : list Z) (b : bool) :
  fold_left
    (fun found_first mem_addr =>
       if (mem_addr =? first) || (mem_addr =? 0x0fff) then true else found_first)
    l b = true
  ↔ b = true ∨ first ∈ l ∨ 0x0fff ∈ l.
Proof.
  revert b. induction l as [|k l IH]; intros b; simpl.
  - rewrite !elem_of_nil. tauto.
  - rewrite IH, !elem_of_cons.
    destruct (Z.eqb_spec k first), (Z.eqb_spec k 0x0fff); simpl; subst;
      intuition congruence.
Qed.

(** [_has_first_record] finds a record at the first address of the table or
    at 0x0FFF. *)
Lemma has_first_record_true (m : Manager) :
  _has_first_record m = true ↔
  is_Some (get (first_mem_addr (_aldb m)) (_aldb m)) ∨ is_Some (get 0x0fff (_aldb m)).
Proof.
  unfold _has_first_record. rewrite <- !elem_of_iter.
  destruct (Nat.eqb_spec (size (records (_aldb m))) 0) as [Hz|Hnz].
  - apply iter_nil in Hz. rewrite Hz, !elem_of_nil. intuition discriminate.
  - rewrite found_first_fold. intuition discriminate.
Qed.

Lemma has_first_record_false (m : Manager) :
  _has_first_record m = false ↔
  get (first_mem_addr (_aldb m)) (_aldb m) = None ∧ get 0x0fff (_aldb m) = None.
Proof.
  rewrite <- not_true_iff_false, has_first_record_true.
  rewrite !eq_None_not_Some. tauto.
Qed.

End DeviceMirror.

Section NextMissing.
Import Asyncio Aldb Py ReadManager Walk.

Lemma not_sentinel_at (a : ALDB) (k : Z) (r : ALDBRecord) :
  get k a = Some r → ¬ sentinel_at a k →
  is_high_water_mark (control_flags r) = false.
Proof.
  intros Hget Hns. apply not_true_is_false. intros Hhwm.
  apply Hns. exists r. auto.
Qed.

Lemma unbroken_app_inv (a : ALDB) (l1 l2 : list Z) :
  unbroken a (l1 ++ l2) → unbroken a l1.
Proof.
  induction l1 as [|p l1 IH]; simpl; [done|].
  intros (Hns & Hstride & Hrest). split; [done|]. split; [|auto].
  destruct l1; simpl in *; done.
Qed.

(** The loop runs through an unbroken stretch of stored keys and goes on
    from its last key. *)
Lemma next_missing_loop_unbroken (a : ALDB) (pre rest : list Z) (last_addr : Z) :
  (∀ k, k ∈ pre → is_Some (get k a)) →
  unbroken a pre →
  match pre with k :: _ => last_addr = 0 ∨ last_addr - 8 = k | [] => True end →
  next_missing_loop a last_addr (pre ++ rest)
  = next_missing_loop a (default last_addr (last pre)) rest.
Proof.
  revert last_addr. induction pre as [|k pre IH]; intros last_addr Hin Hun Hfirst.
  - reflexivity.
  - simpl in Hun. destruct Hun as (Hns & Hstride & Hun).
    destruct (Hin k) as [r Hr]; [left|].
    simpl. rewrite Hr, (not_sentinel_at a k r Hr Hns).
    replace (negb (last_addr =? 0) && negb (last_addr - 8 =? k)) with false.
    2:{ symmetry. destruct Hfirst as [->| <-]; [reflexivity|].
        rewrite Z.eqb_refl. apply andb_false_r. }
    rewrite IH.
    + rewrite last_cons. destruct (last pre); reflexivity.
    + intros k' Hk'. apply Hin. by right.
    + exact Hun.
    + destruct pre; [done|]. right. exact Hstride.
Qed.

Lemma last_snoc_default (pre : list Z) (p d : Z) :
  default d (last (pre ++ [p])) = p.
Proof. by rewrite last_snoc. Qed.

End NextMissing.

Section C1.
Import Asyncio Aldb Py ReadManager Walk.

(** C1. [_next_missing_record], for a mirror of unsigned addresses.  When
    the mirror has no record at its first address and none at 0x0FFF the
    answer is 0x0000, or the first address once 20 single reads of 0x0000
    are spent.  Otherwise the keys are walked in descending order: the walk
    answers [None] at the sentinel, [previous - 8] at the first key that is
    not 8 below the previous one, and [last - 8] when it runs off the end. *)
Theorem next_missing_record_walk (m : Manager) :
  (∀ k, is_Some (get k (_aldb m)) → 0 ≤ k) →
  (get (first_mem_addr (_aldb m)) (_aldb m) = None →
   get 0x0fff (_aldb m) = None →
   _next_missing_record m =
     Ok (Some (if (_last_mem_addr m =? 0x0000) && (RETRIES_ONE_MAX <=? _retries_one m)
               then first_mem_addr (_aldb m) else 0x0000)))
  ∧ (is_Some (get (first_mem_addr (_aldb m)) (_aldb m))
     ∨ is_Some (get 0x0fff (_aldb m)) →
     (∀ pre k post,
        iter (_aldb m) = pre ++ k :: post → unbroken (_aldb m) pre →
        sentinel_at (_aldb m) k →
        _next_missing_record m = Ok None)
     ∧ (∀ pre p k post,
        iter (_aldb m) = pre ++ p :: k :: post → unbroken (_aldb m) (pre ++ [p]) →
        ¬ sentinel_at (_aldb m) k → p - 8 ≠ k →
        _next_missing_record m = Ok (Some (p - 8)))
     ∧ (∀ pre p,
        iter (_aldb m) = pre ++ [p] → unbroken (_aldb m) (pre ++ [p]) →
        _next_missing_record m = Ok (Some (p - 8)))).
Proof.
  intros Hnonneg. split.
  - intros Hfirst Hfff. unfold _next_missing_record.
    rewrite (proj2 (has_first_record_false m) (conj Hfirst Hfff)). simpl.
    destruct ((_last_mem_addr m =? 0) && (RETRIES_ONE_MAX <=? _retries_one m));
      reflexivity.
  - intros Hhas. apply has_first_record_true in Hhas.
    unfold _next_missing_record. rewrite Hhas. simpl.
    assert (∀ l1 l2, iter (_aldb m) = l1 ++ l2 →
                     ∀ k, k ∈ l1 → is_Some (get k (_aldb m))) as Hstored.
    { intros l1 l2 Heq k Hk. apply elem_of_iter. rewrite Heq.
      apply elem_of_app. by left. }
    assert (∀ l : list Z,
              match l with k :: _ => 0 = 0 ∨ 0 - 8 = k | [] => True end) as Hstart.
    { intros [|]; auto. }
    split; [|split].
    + intros pre k post Heq Hun (r & Hr & Hhwm).
      rewrite Heq, next_missing_loop_unbroken; [|eauto|done|apply Hstart].
      simpl. by rewrite Hr, Hhwm.
    + intros pre p k post Heq Hun Hns Hgap.
      assert (k < p) as Hlt by (eapply iter_descending; eauto).
      destruct (proj1 (elem_of_iter (_aldb m) k)) as [r Hr].
      { rewrite Heq. rewrite !elem_of_app, !elem_of_cons. auto. }
      assert (0 ≤ k) by (apply Hnonneg; eauto).
      replace (pre ++ p :: k :: post) with ((pre ++ [p]) ++ k :: post) in Heq
        by (by rewrite <- app_assoc).
      rewrite Heq, next_missing_loop_unbroken, last_snoc_default;
        [|eauto|done|apply Hstart].
      simpl. rewrite Hr, (not_sentinel_at _ _ _ Hr Hns).
      destruct (Z.eqb_spec p 0); [lia|].
      destruct (Z.eqb_spec (p - 8) k); [lia|]. reflexivity.
    + intros pre p Heq Hun.
      rewrite <- (app_nil_r (pre ++ [p])) in Heq.
      rewrite Heq, next_missing_loop_unbroken, last_snoc_default;
        [reflexivity|eauto|done|apply Hstart].
Qed.

End C1.

Section MirrorMutation.
Import Asyncio Aldb Py ReadManager Mirror.

Lemma aldb_lock_release (m : Manager) : _aldb (lock_release m) = _aldb m.
Proof. unfold lock_release. by repeat case_match. Qed.

Lemma aldb_read_sent (retries a n : Z) (m : Manager) :
  _aldb (read_sent retries a n m) = _aldb m.
Proof. unfold read_sent. by repeat case_match. Qed.

Lemma aldb_read_locked (a n : Z) (m : Manager) :
  _aldb (read_locked a n m) = _aldb m.
Proof. unfold read_locked. by repeat case_match. Qed.

Lemma aldb_run_task (t : Task) (m : Manager) : _aldb (run_task t m) = _aldb m.
Proof.
  destruct t as [a n|]; simpl.
  - case_match. case_match; [by rewrite aldb_read_locked|done].
  - case_match; [|done]. case_match. destruct c; simpl; [|done].
    by rewrite aldb_read_locked.
Qed.

Lemma aldb_drain (fuel : nat) (m : Manager) : _aldb (drain fuel m) = _aldb m.
Proof.
  revert m. induction fuel as [|fuel IH]; intros m; simpl; [done|].
  destruct (ready m) as [|t rest]; [done|].
  by rewrite IH, aldb_run_task.
Qed.

Lemma ready_run_task (t : Task) (m : Manager) : ready (run_task t m) = ready m.
Proof.
  destruct t as [a n|]; simpl.
  - unfold read_locked. by repeat case_match.
  - case_match; [|done]. case_match. destruct c; simpl; [|done].
    unfold read_locked. by repeat case_match.
Qed.

Lemma ready_drain (fuel : nat) (m : Manager) :
  (length (ready m) ≤ fuel)%nat → ready (drain fuel m) = [].
Proof.
  revert m. induction fuel as [|fuel IH]; intros m Hlen; simpl.
  - destruct (ready m); [done|simpl in Hlen; lia].
  - destruct (ready m) as [|t rest] eqn:Hready; [done|].
    apply IH. rewrite ready_run_task. simpl in *. lia.
Qed.

(** After an event the loop has run everything that was runnable. *)
Lemma step_quiescent (m : Manager) (e : Event) : ready (step m e) = [].
Proof. unfold step. by apply ready_drain. Qed.

Lemma aldb_manage_get_all_cmd (a n : Z) (m : Manager) :
  _aldb (_manage_get_all_cmd a n m) = _aldb m.
Proof.
  unfold _manage_get_all_cmd.
  repeat case_match; simpl; auto using aldb_lock_release.
Qed.

Lemma aldb_manage_get_one_cmd (a n : Z) (m : Manager) :
  _aldb (_manage_get_one_cmd a n m) = _aldb m.
Proof.
  unfold _manage_get_one_cmd.
  repeat case_match; simpl; auto using aldb_lock_release.
Qed.

Lemma aldb_timer_wakes (a n : Z) (m : Manager) :
  _aldb (_timer a n m) = _aldb m.
Proof.
  unfold _timer.
  repeat case_match; auto using aldb_manage_get_all_cmd, aldb_manage_get_one_cmd.
Qed.

(** Only a delivered record changes the mirror. *)
Lemma aldb_step (m : Manager) (e : Event) :
  _aldb (step m e) =
  match e with
  | Delivers _ record => setitem (mem_addr record) record (_aldb m)
  | _ => _aldb m
  end.
Proof.
  unfold step. rewrite aldb_drain.
  destruct e as [a n|i|b r|i]; simpl; try done.
  - destruct (take_nth i (sending m)) as [[[[retries a] n] rest]|]; [|done].
    by rewrite aldb_read_sent.
  - destruct (take_nth i (timers m)) as [[[[d a] n] rest]|]; [|done].
    by rewrite aldb_timer_wakes.
Qed.

Lemma key_consistent_setitem (a : ALDB) (r : ALDBRecord) :
  key_consistent a → key_consistent (setitem (mem_addr r) r a).
Proof.
  intros Ha addr r'. unfold get, setitem. simpl.
  rewrite lookup_insert_Some. intros [[<- <-]|[_ Hr']]; [done|].
  by apply Ha.
Qed.

Lemma key_consistent_step (m : Manager) (e : Event) :
  key_consistent (_aldb m) → key_consistent (_aldb (step m e)).
Proof.
  intros Hm. rewrite aldb_step.
  destruct e; auto using key_consistent_setitem.
Qed.

Lemma key_consistent_run (es : list Event) (m : Manager) :
  key_consistent (_aldb m) → key_consistent (_aldb (run m es)).
Proof.
  revert m. induction es as [|e es IH]; intros m Hm; simpl; [done|].
  apply IH. by apply key_consistent_step.
Qed.

Lemma key_consistent_empty (first : Z) : key_consistent (mkALDB ∅ first).
Proof. intros addr r. unfold get. simpl. by rewrite lookup_empty. Qed.

End MirrorMutation.

Section C3.
Import Asyncio Aldb Py ReadManager Mirror.

(** C3. Whatever happens to a manager created on an empty mirror, every
    record of the mirror sits under its own [mem_addr]; a delivered record
    is stored under its [mem_addr], over what was there; and no other
    event touches the mirror. *)
Theorem mirror_keyed_by_mem_addr (first : Z) (es : list Event) :
  key_consistent (_aldb (run (fresh first) es))
  ∧ (∀ (m : Manager) (e : Event),
       _aldb (step m e) =
       match e with
       | Delivers _ record => setitem (mem_addr record) record (_aldb m)
       | _ => _aldb m
       end)
  ∧ (∀ (m : Manager) (is_response : bool) (record : ALDBRecord),
       get (mem_addr record) (_aldb (step m (Delivers is_response record)))
       = Some record).
Proof.
  split; [|split].
  - apply key_consistent_run, key_consistent_empty.
  - apply aldb_step.
  - intros m is_response record. rewrite aldb_step.
    unfold get, setitem. simpl. apply lookup_insert_eq.
Qed.

End C3.

Section Stall.
Import Asyncio Aldb Py ReadManager Mirror.

Lemma stall_closed (first : Z) (p : Progress) (m : Manager) :
  m = requested first ∨ m = watched first ∨ m = asked_again first →
  step m (event_of p) = requested first
  ∨ step m (event_of p) = watched first
  ∨ step m (event_of p) = asked_again first.
Proof.
  intros [-> | [-> | ->]]; destruct p as [[|i]|[|i]]; vm_compute; auto.
Qed.

Lemma stall_run (first : Z) (ps : list Progress) (m : Manager) :
  m = requested first ∨ m = watched first ∨ m = asked_again first →
  run m (map event_of ps) = requested first
  ∨ run m (map event_of ps) = watched first
  ∨ run m (map event_of ps) = asked_again first.
Proof.
  revert m. induction ps as [|p ps IH]; intros m Hm; simpl; [done|].
  apply IH. by apply stall_closed.
Qed.

(** The READ_ONE watchdog never counts an attempt. *)
Lemma manage_get_one_cmd_retries_one (mem_addr num_recs : Z) (m : Manager) :
  _retries_one (_manage_get_one_cmd mem_addr num_recs m) = _retries_one m.
Proof.
  unfold _manage_get_one_cmd, lock_release, read. by repeat case_match.
Qed.

(** While the record is missing and the budget is not spent, the READ_ONE
    watchdog asks for the same read again and leaves the gate alone. *)
Lemma manage_get_one_cmd_again (mem_addr num_recs : Z) (m : Manager) :
  get mem_addr (_aldb m) = None → _retries_one m < RETRIES_ONE_MAX →
  _manage_get_one_cmd mem_addr num_recs m = read mem_addr num_recs m.
Proof.
  intros Hnone Hlt. unfold _manage_get_one_cmd. rewrite Hnone.
  destruct (Z.ltb_spec (_retries_one m) RETRIES_ONE_MAX); [done|lia].
Qed.

(** A call of [async_read] made while the gate is held is queued and
    sends nothing. *)
Lemma read_while_locked (mem_addr num_recs : Z) (m : Manager) :
  locked (_load_lock m) = true → ready m = [] →
  sent (step m (CallRead mem_addr num_recs)) = sent m
  ∧ waiters (_load_lock (step m (CallRead mem_addr num_recs)))
    = waiters (_load_lock m) ++ [first_acquire mem_addr num_recs].
Proof.
  intros Hlocked Hready.
  destruct m as [a ra ro rw lc lm [lk ws hw] rd sg tm st rt er].
  simpl in *. subst. unfold step. simpl. done.
Qed.

End Stall.

Section C2.
Import Asyncio Aldb Py ReadManager Mirror.

(** C2 (the code departs from it). A bulk read on an empty mirror that
    receives no record: whatever sends return and timers elapse, one
    READ_ALL is all that is ever sent, the bulk counter stops at 1, no
    single read is issued, the gate stays held and [async_read] does not
    return.  The first watchdog hands the repeated read to [async_read],
    which waits for the gate its own sequence holds. *)
Theorem bulk_read_without_records_stalls (first : Z) (ps : list Progress) :
  let m := run (fresh first) (CallRead 0 0 :: map event_of ps) in
  sent m = [(0, 0)]
  ∧ _retries_all m ≤ 1
  ∧ _retries_one m = 0
  ∧ locked (_load_lock m) = true
  ∧ returned m = 0%nat
  ∧ calc_load_status (_aldb m) = false.
Proof.
  simpl.
  destruct (stall_run first ps (requested first)) as [H | [H | H]]; [auto|..];
    unfold requested in H at 1; rewrite H; vm_compute; intuition discriminate.
Qed.

End C2.

Section C4.
Import Asyncio Aldb Py ReadManager Mirror.

Lemma run_app (m : Manager) (es1 es2 : list Event) :
  run m (es1 ++ es2) = run (run m es1) es2.
Proof. apply fold_left_app. Qed.

Lemma two_callers_closed (first : Z) (p : Progress) :
  step (run (fresh first) two_callers) (event_of p)
  = run (fresh first) two_callers.
Proof. destruct p as [[|i]|[|i]]; vm_compute; reflexivity. Qed.

Lemma two_callers_run (first : Z) (ps : list Progress) (m : Manager) :
  m = run (fresh first) two_callers → run m (map event_of ps) = m.
Proof.
  intros Hm. induction ps as [|p ps IH]; simpl; [done|].
  replace (step m (event_of p)) with m; [exact IH|].
  subst m. symmetry. apply two_callers_closed.
Qed.

(** C4 (the code departs from it). A second [async_read] called while a
    first sequence holds the gate is queued behind the first call's second
    [acquire].  When the watchdog of the first sequence releases the gate,
    that second [acquire] takes it, the first call returns and nothing
    releases the gate again: whatever sends return and timers elapse, the
    second caller stays queued and its command is never sent. *)
Theorem second_read_never_begins (first : Z) (ps : list Progress) :
  let before := run (fresh first) (removelast two_callers) in
  let m := run (fresh first) (two_callers ++ map event_of ps) in
  waiters (_load_lock before) = [second_acquire; first_acquire 0x0ff7 1]
  ∧ returned before = 0%nat
  ∧ returned m = 1%nat
  ∧ sent m = [(0x0fff, 1)]
  ∧ locked (_load_lock m) = true
  ∧ waiters (_load_lock m) = [first_acquire 0x0ff7 1]
  ∧ timers m = [] ∧ sending m = [] ∧ ready m = [].
Proof.
  cbv zeta. rewrite run_app, (two_callers_run first ps _ eq_refl).
  vm_compute. intuition reflexivity.
Qed.

End C4.

Section ModemLoops.
Import Asyncio Aldb Py Constants ImReadManager.

Lemma modem_lock_release_aldb (m : Manager) : _aldb (lock_release m) = _aldb m.
Proof. unfold lock_release. by repeat case_match. Qed.

Lemma modem_lock_release_sent (m : Manager) : sent (lock_release m) = sent m.
Proof. unfold lock_release. by repeat case_match. Qed.

(** The get-next loop leaves the mirror alone and only adds to what was
    sent. *)
Lemma get_next_loop_frame (answers : nat → bool) (n : nat) (response : bool)
    (m : Manager) :
  _aldb (snd (get_next_loop answers n response m)) = _aldb m
  ∧ ∃ rest, sent (snd (get_next_loop answers n response m)) = sent m ++ rest.
Proof.
  revert response m. induction n as [|n IH]; intros response m; simpl.
  - destruct (negb response && negb (_max_retries m)); simpl;
      (split; [done|exists []; by rewrite app_nil_r]).
  - destruct (negb response && negb (_max_retries m)); simpl.
    + destruct (IH (answers (length (sent m)))
                  (set_retries (_retries m + 0) (set_sent (sent m ++ [GetNext]) m)))
        as [Ha [rest Hs]].
      split; [by rewrite Ha|].
      exists (GetNext :: rest). rewrite Hs. simpl. by rewrite <- app_assoc.
    + split; [done|exists []; by rewrite app_nil_r].
Qed.

(** With every request refused the counter stays at 0 and the loop is
    still turning after any number of requests. *)
Lemma get_next_loop_refused (n : nat) (m : Manager) :
  _retries m = 0 →
  fst (get_next_loop (λ _, false) n false m) = Turning
  ∧ _retries (snd (get_next_loop (λ _, false) n false m)) = 0
  ∧ sent (snd (get_next_loop (λ _, false) n false m))
    = sent m ++ replicate n GetNext
  ∧ _load_lock (snd (get_next_loop (λ _, false) n false m)) = _load_lock m.
Proof.
  revert m. induction n as [|n IH]; intros m Hr; simpl.
  - unfold _max_retries. rewrite Hr. simpl. by rewrite app_nil_r.
  - unfold _max_retries. rewrite Hr. simpl.
    destruct (IH (set_retries (0 + 0) (set_sent (sent m ++ [GetNext]) m)))
      as (Hf & Hr' & Hs & Hl); [done|].
    rewrite Hf, Hr', Hs, Hl. simpl.
    by rewrite <- app_assoc.
Qed.

(** The get-first loop is left within the turns its counter allows. *)
Lemma get_first_loop_left (answers : nat → bool) (n : nat) (response : bool)
    (m : Manager) :
  (Z.to_nat (3 - _retries m) ≤ n)%nat →
  fst (get_first_loop answers n response m) = Left.
Proof.
  revert response m. induction n as [|n IH]; intros response m Hn; simpl.
  - destruct (negb response && negb (_max_retries m)) eqn:Hc; [|done].
    apply andb_true_iff in Hc as [_ Hc]. unfold _max_retries in Hc.
    apply negb_true_iff, Z.leb_gt in Hc. lia.
  - destruct (negb response && negb (_max_retries m)) eqn:Hc; [|done].
    apply andb_true_iff in Hc as [_ Hc]. unfold _max_retries in Hc.
    apply negb_true_iff, Z.leb_gt in Hc.
    apply IH. simpl. lia.
Qed.

(** Once the get-first loop is left, more turns change nothing. *)
Lemma get_first_loop_more (answers : nat → bool) (n k : nat) (response : bool)
    (m : Manager) :
  fst (get_first_loop answers n response m) = Left →
  get_first_loop answers (n + k) response m
  = get_first_loop answers n response m.
Proof.
  revert response m. induction n as [|n IH]; intros response m; simpl.
  - destruct (negb response && negb (_max_retries m)) eqn:Hc; [discriminate|].
    intros _. destruct k; simpl; by rewrite Hc.
  - destruct (negb response && negb (_max_retries m)) eqn:Hc; [|done].
    apply IH.
Qed.

Lemma async_load_more (answers : nat → bool) (n k : nat) (m : Manager) :
  fst (async_load answers n m) ≠ Spinning →
  async_load answers (n + k) m = async_load answers n m.
Proof.
  unfold async_load.
  destruct (acquire first_acquire (_load_lock (set_retries 0 m))) as [[|] l];
    [|done].
  unfold load_locked. intros Hns.
  rewrite get_first_loop_more; [done|].
  destruct (get_first_loop answers n false _) as [[|] [r m']]; [done|].
  by destruct Hns.
Qed.

End ModemLoops.

Section C5.
Import Asyncio Aldb Py Constants ImReadManager.

(** C5. A record delivered to the modem manager is given the address
    [last_mem_addr - 8], is built from the decoded control byte, the group,
    the target address and the three data bytes and is stored in the
    mirror under that address; but the get-next request does not follow:
    [_receive_record] sends nothing and leaves the counter and the lock
    as they are, while the delivery the specification describes
    ([receive_record_then_ask]) has a get-next request as the next thing
    sent. *)
Theorem receive_record_never_asks
    (create_from_byte : Z → ControlFlags)
    (flags group address data1 data2 data3 : Z) (m : Manager) :
  let next_mem_addr := last_mem_addr (_aldb m) - 8 in
  let record := mkRecord next_mem_addr (create_from_byte flags) group address
                  data1 data2 data3 in
  let m' := _receive_record create_from_byte
              flags group address data1 data2 data3 m in
  mem_addr record = last_mem_addr (_aldb m) - 8
  ∧ records (_aldb m') = <[next_mem_addr := record]> (records (_aldb m))
  ∧ records (_aldb m') !! next_mem_addr = Some record
  ∧ sent m' = sent m
  ∧ _retries m' = _retries m
  ∧ _load_lock m' = _load_lock m
  ∧ (∀ (answers : nat → bool) (n : nat),
       ∃ rest,
         sent (snd (receive_record_then_ask answers create_from_byte (S n)
                      flags group address data1 data2 data3 m))
         = sent m ++ GetNext :: rest).
Proof.
  intros next_mem_addr record m'.
  split; [done|]. split; [done|]. split; [apply lookup_insert_eq|].
  split; [done|]. split; [done|]. split; [done|].
  intros answers n. unfold receive_record_then_ask, _get_next_record.
  fold m'. simpl.
  destruct (get_next_loop_frame answers n (answers (length (sent m')))
              (set_retries (0 + 0) (set_sent (sent m' ++ [GetNext]) (set_retries 0 m'))))
    as [Ha [rest Hs]].
  destruct (get_next_loop answers n _ _) as [[|] m2]; simpl in *.
  - destruct (_max_retries m2);
      rewrite ?modem_lock_release_sent, Hs;
      exists rest; by rewrite <- app_assoc.
  - rewrite Hs. exists rest; by rewrite <- app_assoc.
Qed.

End C5.

Section C6.
Import Asyncio Aldb Py Constants ImReadManager.

(** C6 (the code departs from it). When the modem refuses every get-next
    request, [_get_next_record] is still in its loop after any number [n]
    of requests: the counter has not moved from 0 and the gate has not
    been released. *)
Theorem get_next_record_never_gives_up (n : nat) (m : Manager) :
  fst (_get_next_record (λ _, false) n m) = Turning
  ∧ _retries (snd (_get_next_record (λ _, false) n m)) = 0
  ∧ sent (snd (_get_next_record (λ _, false) n m)) = sent m ++ replicate n GetNext
  ∧ _load_lock (snd (_get_next_record (λ _, false) n m)) = _load_lock m.
Proof.
  unfold _get_next_record.
  destruct (get_next_loop_refused n (set_retries 0 m) eq_refl)
    as (Hf & Hr & Hs & Hl).
  destruct (get_next_loop (λ _, false) n false (set_retries 0 m)) as [l m'].
  simpl in *. subst l. simpl. done.
Qed.

End C6.

Section C10.
Import Asyncio Aldb Py Constants ImReadManager.

Lemma load_finish_status (m : Manager) :
  fst (load_finish m) = Returned SUCCESS.
Proof. reflexivity. Qed.

Lemma load_locked_status (answers : nat → bool) (n : nat) (response : bool)
    (m : Manager) :
  status_of (fst (load_locked answers n response m)) = None
  ∨ status_of (fst (load_locked answers n response m)) = Some SUCCESS.
Proof.
  unfold load_locked.
  destruct (get_first_loop answers n response m) as [[|] [r m']]; simpl; auto.
  destruct r; [|auto].
  destruct (acquire second_acquire (_load_lock m')) as [[|] l]; simpl; auto.
Qed.

Lemma load_locked_not_spinning (answers : nat → bool) (n : nat)
    (response : bool) (m : Manager) :
  (Z.to_nat (3 - _retries m) ≤ n)%nat →
  fst (load_locked answers n response m) ≠ Spinning.
Proof.
  intros Hn. unfold load_locked.
  pose proof (get_first_loop_left answers n response m Hn) as Hl.
  destruct (get_first_loop answers n response m) as [[|] [r m']];
    simpl in *; [|discriminate].
  destruct r; [|discriminate].
  destruct (acquire second_acquire (_load_lock m')) as [[|] l]; discriminate.
Qed.

(** C10. [async_load] never spins in its get-first loop, and whenever it
    returns, at once or after it has been woken, it returns SUCCESS: so it
    does when all three get-first requests are refused and the mirror is
    left as it was, and so it does when the first request is acknowledged
    and the gate is released afterwards. *)
Theorem async_load_returns_success (answers : nat → bool) (n : nat) (m : Manager) :
  fst (async_load answers (3 + n) m) ≠ Spinning
  ∧ (status_of (fst (async_load answers n m)) = None
     ∨ status_of (fst (async_load answers n m)) = Some SUCCESS)
  ∧ match load_resumes answers n m with
    | Some r => status_of (fst r) = None ∨ status_of (fst r) = Some SUCCESS
    | None => True
    end
  ∧ (∀ a : ModemALDB,
       let r := async_load (λ _, false) (3 + n) (init a) in
       fst r = Returned SUCCESS
       ∧ sent (snd r) = [GetFirst; GetFirst; GetFirst]
       ∧ _aldb (snd r) = a
       ∧ locked (_load_lock (snd r)) = false)
  ∧ (∀ a : ModemALDB,
       let r := async_load (λ _, true) (3 + n) (init a) in
       fst r = Suspended second_acquire
       ∧ sent (snd r) = [GetFirst]
       ∧ fst <$> load_resumes (λ _, true) n (lock_release (snd r))
         = Some (Returned SUCCESS)).
Proof.
  split; [|split; [|split; [|split]]].
  - unfold async_load.
    destruct (acquire first_acquire (_load_lock (set_retries 0 m))) as [[|] l];
      [|discriminate].
    apply load_locked_not_spinning. simpl. lia.
  - unfold async_load.
    destruct (acquire first_acquire (_load_lock (set_retries 0 m))) as [[|] l];
      [apply load_locked_status|simpl; auto].
  - unfold load_resumes.
    destruct (wake (_load_lock m)) as [[[|] l]|]; [| |done].
    + apply load_locked_status.
    + simpl. auto.
  - intros a. cbv zeta. rewrite async_load_more by (vm_compute; discriminate).
    vm_compute. done.
  - intros a. cbv zeta. rewrite async_load_more by (vm_compute; discriminate).
    vm_compute. done.
Qed.

End C10.

Section DirectSend.
Import Asyncio Py Constants DirectCommand.

(** Nobody ever waits for the response lock: every [acquire] of
    [async_send] finds it free. *)
Lemma nobody_waits_step (h : Handler) (e : Event) :
  waiters (response_lock h) = [] ∧ woken h = 0%nat →
  waiters (response_lock (step h e)) = [] ∧ woken (step h e) = 0%nat.
Proof.
  destruct h as [[lk ws hw] sg wk oc]. simpl. intros [-> ->].
  destruct e as [|response|]; simpl.
  - unfold async_send_enters, release_if_locked. simpl.
    destruct lk; simpl; done.
  - destruct sg as [|sg]; simpl; [done|].
    unfold async_send_returns. simpl. destruct lk; simpl; done.
  - done.
Qed.

Lemma nobody_waits (es : list Event) (h : Handler) :
  waiters (response_lock h) = [] ∧ woken h = 0%nat →
  waiters (response_lock (run h es)) = [] ∧ woken (run h es) = 0%nat.
Proof.
  revert h. induction es as [|e es IH]; intros h Hh; simpl; [done|].
  apply IH. by apply nobody_waits_step.
Qed.

End DirectSend.

Section Dicts.
Import OpFlags.
Context {K V : Type} `{EqDecision K}.

Lemma dict_get_set_eq (k : K) (v : V) (d : list (K * V)) :
  dict_get k (dict_set k v d) = Some v.
Proof.
  induction d as [|[k' v'] d IH]; simpl.
  - by rewrite decide_True.
  - destruct (decide (k = k')) as [->|Hne]; simpl.
    + by rewrite decide_True.
    + by rewrite decide_False.
Qed.

Lemma dict_get_set_ne (k k' : K) (v : V) (d : list (K * V)) :
  k ≠ k' → dict_get k' (dict_set k v d) = dict_get k' d.
Proof.
  intros Hne. induction d as [|[k0 v0] d IH]; simpl.
  - by rewrite decide_False.
  - destruct (decide (k = k0)) as [->|Hne0]; simpl.
    + by rewrite !decide_False.
    + by rewrite IH.
Qed.

Lemma dict_get_set_is_Some (k k' : K) (v : V) (d : list (K * V)) :
  is_Some (dict_get k' d) → is_Some (dict_get k' (dict_set k v d)).
Proof.
  destruct (decide (k = k')) as [->|Hne].
  - rewrite dict_get_set_eq. eauto.
  - by rewrite dict_get_set_ne.
Qed.

(** In a dict, which has each key once, an entry is what its key gives. *)
Lemma dict_get_elem_of (k : K) (v : V) (d : list (K * V)) :
  NoDup (dict_keys d) → (k, v) ∈ d → dict_get k d = Some v.
Proof.
  induction d as [|[k' v'] d IH]; simpl; intros Hnd Hin.
  - by apply elem_of_nil in Hin.
  - apply NoDup_cons in Hnd as [Hnotin Hnd].
    apply elem_of_cons in Hin as [Heq|Hin].
    + inversion Heq; subst. by rewrite decide_True.
    + destruct (decide (k = k')) as [->|Hne]; [|by apply IH].
      exfalso. apply Hnotin. unfold dict_keys.
      apply list_elem_of_fmap. exists (k', v). done.
Qed.

End Dicts.

Section Bits.

Lemma land_bit (raw b : Z) :
  0 ≤ b → Z.land raw (Z.shiftl 1 b) = if Z.testbit raw b then 2 ^ b else 0.
Proof.
  intros Hb. rewrite Z.shiftl_1_l. apply Z.bits_inj'. intros i Hi.
  rewrite Z.land_spec, Z.pow2_bits_eqb by done.
  destruct (Z.eqb_spec b i) as [->|Hne].
  - destruct (Z.testbit raw i) eqn:Ht; simpl.
    + rewrite Z.pow2_bits_true; done.
    + by rewrite Z.bits_0.
  - rewrite andb_false_r. destruct (Z.testbit raw b).
    + rewrite Z.pow2_bits_false; done.
    + by rewrite Z.bits_0.
Qed.

(** [bool(raw & 1 << b)] is bit [b] of [raw]. *)
Lemma land_bit_testbit (raw b : Z) :
  0 ≤ b → negb (Z.land raw (Z.shiftl 1 b) =? 0) = Z.testbit raw b.
Proof.
  intros Hb. rewrite land_bit by done.
  destruct (Z.testbit raw b); [|done].
  assert (0 < 2 ^ b) by (apply Z.pow_pos_nonneg; lia).
  destruct (Z.eqb_spec (2 ^ b) 0); [lia|done].
Qed.

(** [(raw >> b) & 1] is bit [b] of [raw], as a number. *)
Lemma shiftr_land_testbit (raw b : Z) :
  0 ≤ b → Z.land (Z.shiftr raw b) 1 = Z.b2z (Z.testbit raw b).
Proof.
  intros Hb. change 1 with (Z.ones 1) at 1.
  rewrite Z.land_ones by lia. change (2 ^ 1) with 2.
  rewrite <- Z.bit0_mod, Z.shiftr_spec by lia. done.
Qed.

End Bits.

Section Decode.
Import Py Constants OpFlags.

Lemma bit_value_testbit (raw b : Z) :
  0 ≤ b → bit_value raw (Some b) = Ok (VBool (Z.testbit raw b)).
Proof.
  intros Hb. unfold bit_value.
  destruct (Z.ltb_spec b 0); [lia|]. by rewrite land_bit_testbit.
Qed.

(** The loop of [_update_flags] over entries of the dict [d] that bind
    distinct flags: it does not raise, loads each bound flag with its bit
    and leaves the other flags alone. *)
Lemma update_bits_entries (d es : list (Z * OperatingFlagInfo)) (raw : Z)
    (m : Manager) :
  (∀ k fi, (k, fi) ∈ es →
     dict_get k d = Some fi
     ∧ ∃ b, bit fi = Some b ∧ 0 ≤ b
            ∧ is_Some (dict_get (name fi) (_op_flags m))) →
  NoDup (map (λ e, name e.2) es) →
  ∃ m', update_bits d (dict_keys es) raw m = (Ok tt, m')
    ∧ (∀ nm, is_Some (dict_get nm (_op_flags m)) →
             is_Some (dict_get nm (_op_flags m')))
    ∧ (∀ nm, nm ∉ map (λ e, name e.2) es →
             dict_get nm (_op_flags m') = dict_get nm (_op_flags m))
    ∧ (∀ k fi b, (k, fi) ∈ es → bit fi = Some b →
         ∃ f, dict_get (name fi) (_op_flags m') = Some f
              ∧ value f = VBool (Z.testbit raw b)).
Proof.
  revert m. induction es as [|[k fi] es IH]; intros m Hes Hnd; simpl.
  - exists m. split; [done|]. split; [done|]. split; [done|].
    intros k fi b Hin. by apply elem_of_nil in Hin.
  - apply NoDup_cons in Hnd as [Hfresh Hnd]. simpl in Hfresh.
    destruct (Hes k fi) as (Hk & b & Hb & Hb0 & [f0 Hf0]); [left|].
    rewrite Hk, Hf0, Hb, bit_value_testbit by done.
    set (m1 := set_op_flags _ m).
    destruct (IH m1) as (m' & Hrun & Hsome & Hframe & Hbits); [|done|].
    { intros k' fi' Hin.
      destruct (Hes k' fi') as (Hk' & b' & Hb' & Hb0' & Hs'); [by right|].
      split; [done|]. exists b'. split; [done|]. split; [done|].
      subst m1. simpl. by apply dict_get_set_is_Some. }
    exists m'. split; [done|]. split; [|split].
    + intros nm Hnm. apply Hsome. subst m1. simpl.
      by apply dict_get_set_is_Some.
    + intros nm Hnm. apply not_elem_of_cons in Hnm as [Hne Hnm]. simpl in Hne.
      rewrite Hframe by done. subst m1. simpl.
      by rewrite dict_get_set_ne.
    + intros k' fi' b' Hin Hb'.
      apply elem_of_cons in Hin as [Heq|Hin]; [|by eapply Hbits].
      inversion Heq; subst k' fi'.
      rewrite Hframe by done. subst m1. simpl.
      rewrite dict_get_set_eq. eexists. split; [done|]. simpl. congruence.
Qed.

End Decode.

Section C9.
Import Py Constants OpFlags.

(** C9. A register value delivered for a group whose bit bindings bind
    distinct, known flags loads each of them with its bit of the value,
    the boolean of [(raw >> bit) & 1]; a flag bound to the whole register
    is loaded with the value itself; and in 0b00000100 = 4 bit 2 reads True
    and every other bit False. *)
Theorem update_flags_decodes (group raw : Z) (m : Manager) :
  (∀ d, _groups m !! group = Some (Bits d) →
     NoDup (dict_keys d) →
     NoDup (map (λ e, name e.2) d) →
     (∀ k fi, (k, fi) ∈ d →
        ∃ b, bit fi = Some b ∧ 0 ≤ b
             ∧ is_Some (dict_get (name fi) (_op_flags m))) →
     ∃ m', _update_flags group raw m = (Ok tt, m')
       ∧ ∀ k fi b, (k, fi) ∈ d → bit fi = Some b →
           ∃ f, dict_get (name fi) (_op_flags m') = Some f
                ∧ value f = VBool (Z.testbit raw b)
                ∧ number (value f) = Z.land (Z.shiftr raw b) 1)
  ∧ (∀ fi f, _groups m !! group = Some (Whole fi) →
       dict_get (name fi) (_op_flags m) = Some f →
       ∃ f', dict_get (name fi) (_op_flags (snd (_update_flags group raw m)))
             = Some f'
             ∧ value f' = VInt raw)
  ∧ (∀ b, 0 ≤ b → bit_value 4 (Some b) = Ok (VBool (b =? 2))).
Proof.
  split; [|split].
  - intros d Hgroup Hkeys Hnames Hbound.
    destruct (update_bits_entries d d raw m) as (m' & Hrun & _ & _ & Hbits);
      [|done|].
    { intros k fi Hin. split; [by apply dict_get_elem_of|by eapply Hbound]. }
    exists m'. split.
    + unfold _update_flags. rewrite Hgroup.
      destruct d as [|e d]; [|done].
      simpl in Hrun. congruence.
    + intros k fi b Hin Hb.
      destruct (Hbits k fi b Hin Hb) as (f & Hf & Hv).
      destruct (Hbound k fi Hin) as (b' & Hb' & Hb0 & _).
      assert (b' = b) as -> by congruence.
      exists f. split; [done|]. split; [done|].
      rewrite Hv. simpl. by rewrite shiftr_land_testbit.
  - intros fi f Hgroup Hf. unfold _update_flags. rewrite Hgroup, Hf. simpl.
    rewrite dict_get_set_eq. eauto.
  - intros b Hb. rewrite bit_value_testbit by done.
    change 4 with (2 ^ 2). rewrite Z.pow2_bits_eqb by lia.
    by rewrite Z.eqb_sym.
Qed.

End C9.

Section WriteLoop.
Import Py Constants OpFlags.

Lemma ResponseStatus_eqb_eq (a b : ResponseStatus) :
  ResponseStatus_eqb a b = true ↔ a = b.
Proof. destruct a, b; simpl; split; congruence. Qed.

(** The retry loop of [_async_write]: it is left, after [k] sends of the
    command within the budget; each send was made with a result other
    than SUCCESS in hand; and it is left early only with SUCCESS. *)
Lemma write_loop_spec (answers : nat → ResponseStatus) (n : nat) (cmd retries : Z)
    (result : ResponseStatus) (m : Manager) :
  (Z.to_nat (MAX_RETRIES - retries) ≤ n)%nat →
  ∃ (k : nat) (m' : Manager),
    write_loop answers n cmd retries result m
    = (true, (in_hand answers (length (sent m)) result k, m'))
    ∧ sent m' = sent m ++ replicate k cmd
    ∧ _op_flags m' = _op_flags m
    ∧ _flags m' = _flags m
    ∧ (k = 0%nat ∨ retries + Z.of_nat k ≤ MAX_RETRIES)
    ∧ (∀ i, (i < k)%nat →
         in_hand answers (length (sent m)) result i ≠ SUCCESS)
    ∧ (retries + Z.of_nat k < MAX_RETRIES →
         in_hand answers (length (sent m)) result k = SUCCESS).
Proof.
  revert retries result m.
  induction n as [|n IH]; intros retries result m Hn; simpl.
  - destruct (Z.ltb_spec retries MAX_RETRIES) as [Hlt|Hge]; [lia|]. simpl.
    exists 0%nat, m. simpl. rewrite app_nil_r.
    repeat split; auto; try lia.
  - destruct (Z.ltb_spec retries MAX_RETRIES) as [Hlt|Hge]; simpl.
    2:{ exists 0%nat, m. simpl. rewrite app_nil_r.
        repeat split; auto; try lia. }
    destruct (ResponseStatus_eqb result SUCCESS) eqn:Hres; simpl.
    { apply ResponseStatus_eqb_eq in Hres.
      exists 0%nat, m. simpl. rewrite app_nil_r.
      repeat split; auto; try lia. }
    assert (result ≠ SUCCESS) as Hne.
    { intros Heq. apply ResponseStatus_eqb_eq in Heq. congruence. }
    destruct (IH (retries + 1) (answers (length (sent m)))
                (set_sent (sent m ++ [cmd]) m))
      as (k & m' & Hrun & Hsent & Hops & Hflags & Hbound & Hbefore & Hearly).
    { unfold MAX_RETRIES in *. lia. }
    simpl in *. rewrite length_app in *. simpl in *.
    assert (∀ j, in_hand answers (length (sent m) + 1) (answers (length (sent m))) j
                 = in_hand answers (length (sent m)) result (S j)) as Hshift.
    { intros [|j]; simpl; f_equal; lia. }
    exists (S k), m'. rewrite Hrun, Hshift.
    split; [done|]. split.
    { rewrite Hsent, <- app_assoc. done. }
    split; [done|]. split; [done|]. split.
    { right. destruct Hbound as [->|Hbound]; lia. }
    split.
    + intros [|i] Hi; [done|]. rewrite <- Hshift. apply Hbefore. lia.
    + intros Hk. rewrite <- Hshift. apply Hearly. lia.
Qed.

End WriteLoop.

Section Witnesses.
Import Asyncio Aldb Py Constants.

(** The walk of a mirror holding 0x0FFF and 0x0FF7 runs off its end: the
    next missing record is the one at 0x0FEF. *)
Lemma next_missing_record_walk_witness :
  (∀ k, is_Some (get k (ReadManager._aldb Mirror.two_links)) → 0 ≤ k)
  ∧ ReadManager._next_missing_record Mirror.two_links = Ok (Some 0x0fef).
Proof.
  assert (∀ k, is_Some (get k (ReadManager._aldb Mirror.two_links)) → 0 ≤ k)
    as Hnonneg.
  { intros k Hk. apply elem_of_iter in Hk.
    replace (iter (ReadManager._aldb Mirror.two_links)) with [0x0fff; 0x0ff7] in Hk
      by (vm_compute; reflexivity).
    apply elem_of_cons in Hk as [->|Hk]; [lia|].
    apply elem_of_cons in Hk as [->|Hk]; [lia|].
    by apply elem_of_nil in Hk. }
  split; [exact Hnonneg|].
  destruct (next_missing_record_walk Mirror.two_links Hnonneg) as [_ Hwalk].
  destruct Hwalk as (_ & _ & Hend).
  { left. vm_compute. eauto. }
  apply (Hend [0x0fff] 0x0ff7).
  - vm_compute. reflexivity.
  - simpl. repeat split; try lia;
      intros (r & Hr & Hhwm); vm_compute in Hr;
      inversion Hr; subst r; discriminate Hhwm.
Defined.

(** The register 0b00000100 arrives for the group of the led. *)
Lemma update_flags_decodes_witness :
  ∃ m' : OpFlags.Manager,
    OpFlags._update_flags 0 4 Led.led_manager = (Ok tt, m')
    ∧ ∀ k fi b, (k, fi) ∈ [(2, Led.led_info)] → OpFlags.bit fi = Some b →
        ∃ f, OpFlags.dict_get (OpFlags.name fi) (OpFlags._op_flags m') = Some f
             ∧ OpFlags.value f = OpFlags.VBool (Z.testbit 4 b)
             ∧ OpFlags.number (OpFlags.value f) = Z.land (Z.shiftr 4 b) 1.
Proof.
  apply (proj1 (update_flags_decodes 0 4 Led.led_manager) [(2, Led.led_info)]).
  - reflexivity.
  - apply NoDup_singleton.
  - apply NoDup_singleton.
  - intros k fi Hin. apply list_elem_of_singleton in Hin. inversion Hin; subst.
    exists 2. split; [reflexivity|]. split; [lia|].
    exists Led.led_flag. reflexivity.
Defined.

End Witnesses.

Section Examples.
Import Asyncio Aldb Py Constants.

(** On an empty mirror the next missing record is the one at 0x0000. *)
Example next_missing_on_empty (first : Z) :
  ReadManager._next_missing_record (Mirror.fresh first) = Ok (Some 0x0000).
Proof. reflexivity. Qed.

(** With 0x0FFF and 0x0FE7 in the mirror, 0x0FF7 is missing. *)
Example next_missing_in_gap :
  ReadManager._next_missing_record
    (ReadManager.run (Mirror.fresh 0x0fff)
       [ReadManager.Delivers true (Mirror.link_at 0x0fe7);
        ReadManager.Delivers true (Mirror.link_at 0x0fff)])
  = Ok (Some 0x0ff7).
Proof. reflexivity. Qed.

(** With the sentinel right below the first record nothing is missing,
    and the mirror is loaded. *)
Example next_missing_when_loaded :
  let m := ReadManager.run (Mirror.fresh 0x0fff)
             [ReadManager.Delivers true (Mirror.sentinel 0x0ff7);
              ReadManager.Delivers true (Mirror.link_at 0x0fff)] in
  ReadManager._next_missing_record m = Ok None
  ∧ calc_load_status (ReadManager._aldb m) = true.
Proof. split; reflexivity. Qed.

(** A single read whose record arrives: the watchdog releases the gate,
    the second [acquire] of [async_read] takes it and the call returns,
    leaving the gate held. *)
Example single_read_returns_holding_the_gate :
  let m := ReadManager.run (Mirror.fresh 0x0fff)
             [ReadManager.CallRead 0x0fff 1; ReadManager.SendReturns 0;
              ReadManager.Delivers true (Mirror.link_at 0x0fff);
              ReadManager.TimerWakes 0] in
  ReadManager.returned m = 1%nat
  ∧ locked (ReadManager._load_lock m) = true
  ∧ ReadManager.errors m = [].
Proof. vm_compute. done. Qed.

(** Two overlapping calls of [async_send]: the call whose send returns
    first frees the lock the other one took; the closing [release] of the
    other one finds the lock free. *)
Example overlapping_sends :
  DirectCommand.outcomes
    (DirectCommand.run DirectCommand.init
       [DirectCommand.Calls; DirectCommand.Calls;
        DirectCommand.Responds SUCCESS; DirectCommand.Responds FAILURE])
  = [Ok SUCCESS; Raise RuntimeError].
Proof. reflexivity. Qed.

(** [subscribe] files the binding under its name, group and bit. *)
Example led_manager_bindings :
  OpFlags._flags Led.led_manager !! "led_on"%string = Some Led.led_info
  ∧ OpFlags._groups Led.led_manager !! 0 = Some (OpFlags.Bits [(2, Led.led_info)]).
Proof. split; reflexivity. Qed.

(** The whole run of [async_write] on the led: one command, and the flag
    is clean and on. *)
Example led_is_written :
  let r := OpFlags.async_write Led.obliging Led.led_manager in
  fst r = Ok [SUCCESS]
  ∧ OpFlags.sent (snd r) = [5]
  ∧ OpFlags.dict_get "led_on"%string (OpFlags._op_flags (snd r))
    = Some (OpFlags.mkFlag (OpFlags.VBool true) (OpFlags.VBool true)).
Proof. vm_compute. done. Qed.

End Examples.

(** * Further facts: the device manager *)

Section MissingSlot.
Import Asyncio Aldb Py ReadManager Flight.

Lemma iter_strictly_descending (a : ALDB) :
  StronglySorted (λ x y, y < x) (iter a).
Proof.
  pose proof (iter_sorted a) as Hs. pose proof (NoDup_iter a) as Hn.
  induction Hs as [|k l Hs IH Hall]; [constructor|].
  apply NoDup_cons in Hn as [Hnotin Hn].
  constructor; [by apply IH|].
  rewrite Forall_forall in *. intros k' Hk'.
  specialize (Hall k' Hk'). unfold flip in Hall.
  assert (k' ≠ k) by (intros ->; done). lia.
Qed.

(** The loop of [_next_missing_record], run over the stored keys below
    [last_addr], answers only with a slot that is empty and lies 8 below a
    stored record. *)
Lemma next_missing_loop_missing (a : ALDB) (c : Z) (l : list Z) (last_addr x : Z) :
  (∀ k, is_Some (get k a) → k mod 8 = c) →
  StronglySorted (λ x y, y < x) l →
  (∀ k, k ∈ l → is_Some (get k a)) →
  (last_addr = 0 ∧ l ≠ [] ∧ (∀ k, is_Some (get k a) → k ∈ l))
  ∨ (is_Some (get last_addr a) ∧ (∀ k, k ∈ l → k < last_addr)
     ∧ (∀ k, is_Some (get k a) → k < last_addr → k ∈ l)) →
  next_missing_loop a last_addr l = Ok (Some x) →
  get x a = None ∧ ∃ p, is_Some (get p a) ∧ x = p - 8.
Proof.
  intros Hgrid. revert last_addr.
  induction l as [|k l IH]; intros last_addr Hsorted Hstored Hlast Hres.
  - destruct Hlast as [(_ & Hne & _)|(Hl & _ & Hbelow)]; [done|].
    simpl in Hres. inversion Hres; subst x. split; [|eauto].
    destruct (get (last_addr - 8) a) eqn:Hget; [|done].
    exfalso. assert (last_addr - 8 ∈ []) as Hin by (apply Hbelow; [eauto|lia]).
    by apply elem_of_nil in Hin.
  - apply StronglySorted_inv in Hsorted as [Hsorted Hall].
    rewrite Forall_forall in Hall.
    destruct (Hstored k) as [r Hr]; [left|].
    simpl in Hres. rewrite Hr in Hres.
    destruct (is_high_water_mark (control_flags r)); [discriminate|].
    destruct (negb (last_addr =? 0) && negb (last_addr - 8 =? k)) eqn:Htest.
    + inversion Hres; subst x.
      apply andb_true_iff in Htest as [Hnz Hgap].
      apply negb_true_iff, Z.eqb_neq in Hnz, Hgap.
      destruct Hlast as [(Hz & _)|(Hl & Hlt & Hbelow)]; [done|].
      split; [|eauto].
      destruct (get (last_addr - 8) a) eqn:Hget; [|done]. exfalso.
      assert (last_addr - 8 ∈ k :: l) as Hin by (apply Hbelow; [eauto|lia]).
      assert (k < last_addr) as Hk by (apply Hlt; left).
      assert (last_addr - 8 < k) as Hk'.
      { apply elem_of_cons in Hin as [Heq|Hin]; [lia|].
        specialize (Hall _ Hin). simpl in Hall. lia. }
      pose proof (Hgrid k (ltac:(eauto))) as Hck.
      pose proof (Hgrid last_addr Hl) as Hcl.
      rewrite <- Hcl in Hck. clear -Hk Hk' Hck.
      Z.div_mod_to_equations. lia.
    + apply (IH k); [done| |right|done].
      * intros k' Hk'. apply Hstored. by right.
      * split; [eauto|]. split.
        -- intros k' Hk'. specialize (Hall _ Hk'). simpl in Hall. lia.
        -- intros k' Hs' Hlt'.
           assert (k' ∈ k :: l) as Hin.
           { destruct Hlast as [(_ & _ & Hallin)|(_ & Hlt & Hbelow)].
             - by apply Hallin.
             - apply Hbelow; [done|].
               assert (k < last_addr) by (apply Hlt; left). lia. }
           apply elem_of_cons in Hin as [->|Hin]; [lia|done].
Qed.

(** X1. The slot [_next_missing_record] names is missing: when the first
    record is there and all records lie in one 8-byte grid, an address it
    answers with holds no record and lies 8 below a record that is
    stored. *)
Theorem next_missing_record_is_missing (m : Manager) (x : Z) :
  aligned (_aldb m) →
  _has_first_record m = true →
  _next_missing_record m = Ok (Some x) →
  get x (_aldb m) = None ∧ ∃ p, is_Some (get p (_aldb m)) ∧ x = p - 8.
Proof.
  intros [c Hgrid] Hfirst Hres.
  unfold _next_missing_record in Hres. rewrite Hfirst in Hres. simpl in Hres.
  apply (next_missing_loop_missing (_aldb m) c (iter (_aldb m)) 0 x);
    [done|apply iter_strictly_descending| |left|done].
  - intros k Hk. by apply elem_of_iter.
  - split; [done|]. split.
    + intros Hnil. apply has_first_record_true in Hfirst.
      destruct Hfirst as [Hs|Hs]; apply elem_of_iter in Hs;
        rewrite Hnil in Hs; by apply elem_of_nil in Hs.
    + intros k Hk. by apply elem_of_iter.
Qed.

End MissingSlot.

Section OneInFlight.
Import Asyncio Aldb Py ReadManager Flight.

Lemma next_missing_loop_no_raise (a : ALDB) (l : list Z) (last_addr : Z) (e : Exn) :
  (∀ k, k ∈ l → is_Some (get k a)) →
  next_missing_loop a last_addr l ≠ Raise e.
Proof.
  revert last_addr. induction l as [|k l IH]; intros last_addr Hstored; simpl.
  - discriminate.
  - destruct (Hstored k) as [r Hr]; [left|]. rewrite Hr.
    destruct (is_high_water_mark (control_flags r)); [discriminate|].
    destruct (negb (last_addr =? 0) && negb (last_addr - 8 =? k));
      [discriminate|].
    apply IH. intros k' Hk'. apply Hstored. by right.
Qed.

(** The lookups of [_next_missing_record] are of keys the mirror has just
    given: it does not raise. *)
Lemma next_missing_record_no_raise (m : Manager) (e : Exn) :
  _next_missing_record m ≠ Raise e.
Proof.
  unfold _next_missing_record.
  destruct (negb (_has_first_record m)).
  - destruct ((_last_mem_addr m =? 0) && (RETRIES_ONE_MAX <=? _retries_one m));
      discriminate.
  - apply next_missing_loop_no_raise. intros k Hk. by apply elem_of_iter.
Qed.

Local Opaque calc_load_status _next_missing_record.

Ltac flight_done :=
  unfold one_in_flight; simpl;
  repeat match goal with |- _ ∧ _ => split end;
  solve [ done | auto with arith
        | intros; apply elem_of_app; left; auto
        | intros; apply elem_of_app; right; apply list_elem_of_here
        | auto 6 ].

Lemma one_in_flight_step (m : Manager) (e : Event) :
  one_in_flight m → one_in_flight (step m e).
Proof.
  intros (Hready & Hwoken & Hsum & Hheld & Hsec & Hfree & Herr & Hret).
  destruct m as [a ra ro rw lc lm [lk ws hw] rd sg tm st rt er].
  simpl in *. subst rd hw er.
  destruct e as [ma nr|i|b r|i].
  - (* a call of read *)
    unfold step. simpl. destruct lk; simpl; [flight_done|].
    rewrite Hfree by done.
    assert (rt = 0%nat) as Hrt by (destruct Hret as [?|(?&?&?&?)]; done).
    subst rt.
    assert (sg = [] ∧ tm = []) as [-> ->].
    { destruct sg, tm; try done; exfalso;
        (assert (false = true) by (apply Hheld; auto)); discriminate. }
    unfold read_locked. simpl.
    destruct ((ma =? 0) && (nr =? 0)); simpl; flight_done.
  - (* a send returns *)
    unfold step. simpl.
    destruct sg as [|[[retries ma] nr] sg]; [simpl; flight_done|].
    destruct sg; [|simpl in Hsum; lia].
    destruct tm; [|simpl in Hsum; lia].
    assert (lk = true) as -> by (apply Hheld; auto).
    assert (rt = 0%nat) as Hrt by (destruct Hret as [?|(?&?&?&?)]; done).
    subst rt.
    destruct i; simpl; [|flight_done].
    unfold read_sent, acquire. simpl. flight_done.
  - (* a record is delivered *)
    unfold step. simpl. flight_done.
  - (* a watchdog fires *)
    unfold step. simpl.
    destruct tm as [|[[delay ma] nr] tm]; [simpl; flight_done|].
    destruct tm; [|simpl in Hsum; lia].
    destruct sg; [|simpl in Hsum; lia].
    assert (lk = true) as -> by (apply Hheld; auto).
    assert (rt = 0%nat) as Hrt by (destruct Hret as [?|(?&?&?&?)]; done).
    subst rt.
    assert (∃ k ws', ws = k :: ws') as (k & ws' & ->).
    { destruct ws; [|eauto]. exfalso.
      assert (second_acquire ∈ @nil Cont) as Hin by (by apply Hsec).
      by apply elem_of_nil in Hin. }
    destruct i; simpl; [|flight_done].
    clear Hsec Hheld Hfree Hsum.
    assert (one_in_flight
              (drain 1 (lock_release
                 (mkManager a ra ro rw lc lm (mkLock true (k :: ws') false)
                    [] [] [] st 0 [])))) as Hrelease.
    { unfold lock_release, release. simpl.
      destruct k as [ma' nr'|]; simpl; [|flight_done].
      unfold read_locked. simpl.
      destruct ((ma' =? 0) && (nr' =? 0)); simpl; flight_done. }
    unfold lock_release, release in Hrelease. simpl in Hrelease.
    unfold _timer. simpl.
    destruct lc as [[| |]|];
      unfold _manage_get_all_cmd, _manage_get_one_cmd, lock_release, release;
      simpl.
    + destruct (calc_load_status a); simpl; [exact Hrelease|].
      destruct (ra <? RETRIES_ALL_MAX); simpl; [flight_done|].
      destruct (_next_missing_record _) as [[x|]|e] eqn:Hnext; simpl.
      * destruct (x =? lm); simpl.
        -- destruct (ro <? RETRIES_ONE_MAX); simpl; [flight_done|exact Hrelease].
        -- flight_done.
      * flight_done.
      * by apply next_missing_record_no_raise in Hnext.
    + destruct (get ma a); simpl; [exact Hrelease|].
      destruct (ro <? RETRIES_ONE_MAX); simpl; [flight_done|exact Hrelease].
    + destruct (get ma a); simpl; [exact Hrelease|].
      destruct (ro <? RETRIES_ONE_MAX); simpl; [flight_done|exact Hrelease].
    + destruct (get ma a); simpl; [exact Hrelease|].
      destruct (ro <? RETRIES_ONE_MAX); simpl; [flight_done|exact Hrelease].
Qed.

Lemma one_in_flight_init (a : ALDB) : one_in_flight (init a).
Proof.
  unfold one_in_flight. simpl.
  repeat match goal with |- _ ∧ _ => split end; auto.
  - by intros [H|H].
  - done.
Qed.

Lemma one_in_flight_run (es : list Event) (m : Manager) :
  one_in_flight m → one_in_flight (run m es).
Proof.
  revert m. induction es as [|e es IH]; intros m Hm; simpl; [done|].
  apply IH. by apply one_in_flight_step.
Qed.

(** X2. Whatever calls, deliveries, returning sends and firing watchdogs
    a manager meets: at most one command is with the handler or under its
    watchdog, the gate is held while one is, no [release] ever finds the
    gate free (nothing is raised), and at most one call of [async_read]
    has returned. *)
Theorem one_sequence_in_flight (a : ALDB) (es : list Event) :
  one_in_flight (run (init a) es)
  ∧ (length (sending (run (init a) es)) + length (timers (run (init a) es))
     ≤ 1)%nat
  ∧ errors (run (init a) es) = []
  ∧ (returned (run (init a) es) ≤ 1)%nat.
Proof.
  pose proof (one_in_flight_run es (init a) (one_in_flight_init a)) as Hm.
  split; [done|].
  destruct Hm as (_ & _ & Hsum & _ & _ & _ & Herr & Hret).
  split; [done|]. split; [done|].
  destruct Hret as [->|[-> _]]; auto with arith.
Qed.

(** Once a call has returned, an event changes neither what was sent nor
    the number of returns. *)
Lemma returned_step (m : Manager) (e : Event) :
  one_in_flight m → returned m = 1%nat →
  sent (step m e) = sent m ∧ returned (step m e) = 1%nat.
Proof.
  intros (Hready & Hwoken & _ & _ & _ & _ & _ & Hret) Hone.
  destruct Hret as [Hzero|(_ & Hlocked & Hsg & Htm)]; [congruence|].
  destruct m as [a ra ro rw lc lm [lk ws hw] rd sg tm st rt er].
  simpl in *. subst.
  destruct e as [ma nr|i|b r|i]; unfold step; simpl; done.
Qed.

Lemma returned_run (es : list Event) (m : Manager) :
  one_in_flight m → returned m = 1%nat →
  sent (run m es) = sent m ∧ returned (run m es) = 1%nat.
Proof.
  revert m. induction es as [|e es IH]; intros m Hm Hone; simpl; [done|].
  destruct (returned_step m e Hm Hone) as [Hsent Hret].
  destruct (IH (step m e)) as [Hsent' Hret'];
    [by apply one_in_flight_step|done|].
  split; congruence.
Qed.

(** X3. A manager serves one read in its life: once a call of
    [async_read] has returned, nothing that happens afterwards, no further
    call in particular, makes it send a command again, and no other call
    returns. *)
Theorem nothing_after_a_return (a : ALDB) (es later : list Event) :
  returned (run (init a) es) = 1%nat →
  sent (run (init a) (es ++ later)) = sent (run (init a) es)
  ∧ returned (run (init a) (es ++ later)) = 1%nat.
Proof.
  intros Hone. rewrite run_app.
  apply returned_run; [|done].
  apply one_in_flight_run, one_in_flight_init.
Qed.

End OneInFlight.

Section Budget.
Import Asyncio Aldb Py ReadManager Flight.

Lemma take_nth_Forall {A} (P : A → Prop) (i : nat) (l rest : list A) (x : A) :
  Forall P l → take_nth i l = Some (x, rest) → P x ∧ Forall P rest.
Proof.
  intros Hall. unfold take_nth.
  destruct (l !! i) as [y|] eqn:Hy; [|discriminate].
  intros Heq. inversion Heq; subst. split.
  - eapply Forall_lookup_1; eauto.
  - apply Forall_app. split.
    + by apply Forall_take.
    + by apply Forall_drop.
Qed.

Lemma within_budget_lock_release (m : Manager) :
  within_budget m → within_budget (lock_release m).
Proof. unfold lock_release. by repeat case_match. Qed.

Lemma within_budget_read (a n : Z) (m : Manager) :
  within_budget m → within_budget (read a n m).
Proof. done. Qed.

Lemma within_budget_read_locked (a n : Z) (m : Manager) :
  within_budget m → within_budget (read_locked a n m).
Proof.
  intros (Hall & Hone & Hsg & Htm). unfold read_locked.
  destruct ((a =? 0) && (n =? 0)); unfold within_budget; simpl;
    (split; [done|]; split; [done|]; split; [|done]);
    apply Forall_app; (split; [done|]);
    apply Forall_singleton; simpl;
    unfold RETRIES_ALL_MAX, RETRIES_ONE_MAX in *; lia.
Qed.

Lemma within_budget_read_sent (retries a n : Z) (m : Manager) :
  0 ≤ retries ≤ RETRIES_ONE_MAX →
  within_budget m → within_budget (read_sent retries a n m).
Proof.
  intros Hr (Hall & Hone & Hsg & Htm). unfold read_sent.
  destruct (acquire _ _) as [[|] l]; unfold within_budget; simpl;
    (split; [done|]; split; [done|]; split; [done|]);
    apply Forall_app; (split; [done|]);
    apply Forall_singleton; simpl;
    unfold TIMER, TIMER_INCREMENT, RETRIES_ONE_MAX in *; lia.
Qed.

Lemma within_budget_run_task (t : Task) (m : Manager) :
  within_budget m → within_budget (run_task t m).
Proof.
  intros Hm. destruct t as [a n|]; simpl.
  - destruct (acquire _ _) as [[|] l]; [|done].
    by apply within_budget_read_locked.
  - destruct (wake _) as [[[a n|] l]|]; simpl; [|done|done].
    by apply within_budget_read_locked.
Qed.

Lemma within_budget_drain (fuel : nat) (m : Manager) :
  within_budget m → within_budget (drain fuel m).
Proof.
  revert m. induction fuel as [|fuel IH]; intros m Hm; simpl; [done|].
  destruct (ready m) as [|t rest]; [done|].
  apply IH. by apply within_budget_run_task.
Qed.

Lemma within_budget_timer (a n : Z) (m : Manager) :
  within_budget m → within_budget (_timer a n m).
Proof.
  intros Hm. pose proof Hm as (Hall & Hone & Hsg & Htm).
  unfold _timer, _manage_get_all_cmd, _manage_get_one_cmd.
  repeat case_match; try (by apply within_budget_lock_release); try done;
    unfold within_budget; simpl;
    repeat match goal with
           | H : (_ <? _) = true |- _ => apply Z.ltb_lt in H
           end;
    unfold RETRIES_ALL_MAX, RETRIES_ONE_MAX in *;
    (split; [lia|]; split; [lia|]; done).
Qed.

Lemma within_budget_step (m : Manager) (e : Event) :
  within_budget m → within_budget (step m e).
Proof.
  intros Hm. pose proof Hm as (Hall & Hone & Hsg & Htm).
  unfold step. apply within_budget_drain.
  destruct e as [a n|i|b r|i]; simpl; [done| |done|].
  - destruct (take_nth i (sending m)) as [[[[retries a] n] rest]|] eqn:Hi;
      [|done].
    destruct (take_nth_Forall _ _ _ _ _ Hsg Hi) as [Hx Hrest].
    apply within_budget_read_sent; [done|].
    unfold within_budget. simpl. done.
  - destruct (take_nth i (timers m)) as [[[[delay a] n] rest]|] eqn:Hi;
      [|done].
    destruct (take_nth_Forall _ _ _ _ _ Htm Hi) as [Hx Hrest].
    apply within_budget_timer. unfold within_budget. simpl. done.
Qed.

Lemma within_budget_run (es : list Event) (m : Manager) :
  within_budget m → within_budget (run m es).
Proof.
  revert m. induction es as [|e es IH]; intros m Hm; simpl; [done|].
  apply IH. by apply within_budget_step.
Qed.

(** X4. The counters of a manager never leave their budgets: in every
    state it reaches, 0 <= [_retries_all] <= 5 and 0 <= [_retries_one]
    <= 20, and every watchdog that is pending sleeps between 10 and 70
    seconds. *)
Theorem counters_within_budget (a : ALDB) (es : list Event) :
  0 ≤ _retries_all (run (init a) es) ≤ 5
  ∧ 0 ≤ _retries_one (run (init a) es) ≤ 20
  ∧ Forall (λ t, 10 ≤ t.1.1 ≤ 70) (timers (run (init a) es)).
Proof.
  destruct (within_budget_run es (init a)) as (Hall & Hone & _ & Htm).
  { unfold within_budget, RETRIES_ALL_MAX, RETRIES_ONE_MAX. simpl.
    repeat split; try lia; constructor. }
  done.
Qed.

End Budget.

Section SingleRead.
Import Asyncio Aldb Py ReadManager Mirror.

(** X5. A single read whose record arrives before its watchdog fires is
    served: one command is sent, the record is in the mirror under its
    address, no retry is counted and the call returns. *)
Theorem single_read_completes (first addr num_recs : Z) (is_response : bool)
    (record : ALDBRecord) :
  (addr =? 0x0000) && (num_recs =? 0) = false →
  mem_addr record = addr →
  let m := run (fresh first)
             [CallRead addr num_recs; SendReturns 0;
              Delivers is_response record; TimerWakes 0] in
  sent m = [(addr, num_recs)]
  ∧ returned m = 1%nat
  ∧ get addr (_aldb m) = Some record
  ∧ _retries_one m = 0
  ∧ timers m = [] ∧ errors m = [].
Proof.
  intros Hone Haddr. cbv zeta. unfold run, fresh. cbn [fold_left].
  set (a0 := mkALDB ∅ first).
  assert (step (init a0) (CallRead addr num_recs)
          = mkManager a0 0 0 0 (Some READ_ONE) 0 (mkLock true [] false)
              [] [(0, addr, num_recs)] [] [(addr, num_recs)] 0 []) as ->.
  { unfold step. simpl. unfold read_locked. simpl. by rewrite Hone. }
  assert (step (mkManager a0 0 0 0 (Some READ_ONE) 0 (mkLock true [] false)
                  [] [(0, addr, num_recs)] [] [(addr, num_recs)] 0 [])
               (SendReturns 0)
          = mkManager a0 0 0 0 (Some READ_ONE) 0
              (mkLock true [second_acquire] false)
              [] [] [(10, addr, num_recs)] [(addr, num_recs)] 0 []) as ->
    by reflexivity.
  assert (step (mkManager a0 0 0 0 (Some READ_ONE) 0
                  (mkLock true [second_acquire] false)
                  [] [] [(10, addr, num_recs)] [(addr, num_recs)] 0 [])
               (Delivers is_response record)
          = mkManager (setitem addr record a0) 0 0 0 (Some READ_ONE) 0
              (mkLock true [second_acquire] false)
              [] [] [(10, addr, num_recs)] [(addr, num_recs)] 0 []) as ->
    by (unfold step; simpl; unfold _receive_record; by rewrite Haddr).
  assert (get addr (setitem addr record a0) = Some record) as Hget.
  { unfold get, setitem. simpl. apply lookup_insert_eq. }
  assert (step (mkManager (setitem addr record a0) 0 0 0 (Some READ_ONE) 0
                  (mkLock true [second_acquire] false)
                  [] [] [(10, addr, num_recs)] [(addr, num_recs)] 0 [])
               (TimerWakes 0)
          = mkManager (setitem addr record a0) 0 0 0 (Some READ_ONE) 0
              (mkLock true [] false)
              [] [] [] [(addr, num_recs)] 1 []) as ->.
  { unfold step. cbn -[get setitem]. unfold _manage_get_one_cmd.
    cbn -[get setitem]. by rewrite Hget. }
  simpl. done.
Qed.

End SingleRead.

Section NoRetry.
Import Asyncio Aldb Py ReadManager Flight.

Local Opaque calc_load_status _next_missing_record.

Ltac asked_done :=
  unfold only_asked; simpl;
  repeat match goal with |- _ ∧ _ => split end;
  intros;
  repeat match goal with
         | H : _ ∈ [] |- _ => by apply elem_of_nil in H
         | H : _ ∈ _ ++ _ |- _ => apply elem_of_app in H as [H|H]
         | H : _ ∈ _ :: _ |- _ => apply elem_of_cons in H as [H|H]
         | H : (_, _, _) = (_, _, _) |- _ => injection H as -> -> ->
         | H : (_, _) = (_, _) |- _ => injection H as -> ->
         | H : first_acquire _ _ = first_acquire _ _ |- _ =>
             injection H as -> ->
         | H : first_acquire _ _ = second_acquire |- _ => discriminate H
         | H : first_acquire _ _ = ?k |- _ => is_var k; subst k
         end;
  apply elem_of_app;
  solve [ left; eauto 6 using list_elem_of_here, list_elem_of_further
        | right; apply list_elem_of_here
        | match goal with
          | H : _ ∨ _ ∨ _ |- _ => by destruct H as [H|[H|H]]
          end ].

Lemma only_asked_step (es : list Event) (m : Manager) (e : Event) :
  one_in_flight m → only_asked es m → only_asked (es ++ [e]) (step m e).
Proof.
  intros (Hready & Hwoken & Hsum & Hheld & Hsec & Hfree & Herr & Hret)
         (Hsent & Hsending & Hqueued).
  destruct m as [a ra ro rw lc lm [lk ws hw] rd sg tm st rt er].
  simpl in *. subst rd hw er.
  destruct e as [ma nr|i|b r|i].
  - (* a call of read *)
    unfold step. simpl. destruct lk; simpl.
    + asked_done.
    + rewrite Hfree by done.
      assert (sg = [] ∧ tm = []) as [-> ->].
      { destruct sg, tm; try done; exfalso;
          (assert (false = true) by (apply Hheld; auto)); discriminate. }
      unfold read_locked. simpl.
      destruct ((ma =? 0) && (nr =? 0)); simpl; asked_done.
  - (* a send returns *)
    unfold step. simpl.
    destruct sg as [|[[retries ma] nr] sg]; [simpl; asked_done|].
    destruct sg; [|simpl in Hsum; lia].
    destruct tm; [|simpl in Hsum; lia].
    assert (lk = true) as -> by (apply Hheld; auto).
    destruct i; simpl; [|asked_done].
    unfold read_sent, acquire. simpl. asked_done.
  - (* a record is delivered *)
    unfold step. simpl. asked_done.
  - (* a watchdog fires *)
    unfold step. simpl.
    destruct tm as [|[[delay ma] nr] tm]; [simpl; asked_done|].
    destruct tm; [|simpl in Hsum; lia].
    destruct sg; [|simpl in Hsum; lia].
    assert (lk = true) as -> by (apply Hheld; auto).
    assert (∃ k ws', ws = k :: ws') as (k & ws' & ->).
    { destruct ws; [|eauto]. exfalso.
      assert (second_acquire ∈ @nil Cont) as Hin by (by apply Hsec).
      by apply elem_of_nil in Hin. }
    destruct i; simpl; [|asked_done].
    assert (∀ a n, first_acquire a n ∈ k :: ws' → CallRead a n ∈ es)
      as Hasked by (apply Hqueued; auto).
    clear Hsec Hheld Hfree Hsum Hret Hqueued.
    assert (only_asked (es ++ [TimerWakes 0])
              (drain 1 (lock_release
                 (mkManager a ra ro rw lc lm (mkLock true (k :: ws') false)
                    [] [] [] st rt [])))) as Hrelease.
    { unfold lock_release, release. simpl.
      destruct k as [ma' nr'|]; simpl; [|asked_done].
      unfold read_locked. simpl.
      destruct ((ma' =? 0) && (nr' =? 0)); simpl; asked_done. }
    unfold lock_release, release in Hrelease. simpl in Hrelease.
    unfold _timer. simpl.
    destruct lc as [[| |]|];
      unfold _manage_get_all_cmd, _manage_get_one_cmd, lock_release, release;
      simpl.
    + destruct (calc_load_status a); simpl; [exact Hrelease|].
      destruct (ra <? RETRIES_ALL_MAX); simpl; [asked_done|].
      destruct (_next_missing_record _) as [[x|]|e] eqn:Hnext; simpl.
      * destruct (x =? lm); simpl.
        -- destruct (ro <? RETRIES_ONE_MAX); simpl; [asked_done|exact Hrelease].
        -- asked_done.
      * asked_done.
      * asked_done.
    + destruct (get ma a); simpl; [exact Hrelease|].
      destruct (ro <? RETRIES_ONE_MAX); simpl; [asked_done|exact Hrelease].
    + destruct (get ma a); simpl; [exact Hrelease|].
      destruct (ro <? RETRIES_ONE_MAX); simpl; [asked_done|exact Hrelease].
    + destruct (get ma a); simpl; [exact Hrelease|].
      destruct (ro <? RETRIES_ONE_MAX); simpl; [asked_done|exact Hrelease].
Qed.

Lemma only_asked_run (a : ALDB) (es : list Event) :
  only_asked es (run (init a) es).
Proof.
  induction es as [|e es IH] using rev_ind.
  - unfold only_asked. simpl.
    repeat match goal with |- _ ∧ _ => split end;
      intros; exfalso; eapply elem_of_nil; eauto.
  - rewrite run_app. simpl. apply only_asked_step; [|done].
    apply one_in_flight_run, one_in_flight_init.
Qed.

Lemma stalled_step (m : Manager) (e : Event) :
  stalled m → stalled (step m e) ∧ sent (step m e) = sent m.
Proof.
  intros (Hready & Hsending & Htimers & Hlocked).
  destruct m as [a ra ro rw lc lm [lk ws hw] rd sg tm st rt er].
  simpl in *. subst rd sg tm lk.
  destruct e as [ma nr|i|b r|i]; unfold step, stalled; simpl; done.
Qed.

Lemma stalled_run (es : list Event) (m : Manager) :
  stalled m → stalled (run m es) ∧ sent (run m es) = sent m.
Proof.
  revert m. induction es as [|e es IH]; intros m Hm; simpl; [done|].
  destruct (stalled_step m e Hm) as [Hstep Hsent].
  destruct (IH _ Hstep) as [Hrun Hsent']. split; [done|congruence].
Qed.

(** A watchdog that asks for a read again leaves the manager stalled: the
    read it asks for is queued for the gate, which nothing is left to
    release. *)
Lemma watchdog_asks_again (m : Manager) (i : nat) (mem_addr num_recs : Z) :
  one_in_flight m →
  Start mem_addr num_recs ∈ ready (handle (TimerWakes i) m) →
  stalled (step m (TimerWakes i)) ∧ sent (step m (TimerWakes i)) = sent m.
Proof.
  intros (Hready & Hwoken & Hsum & Hheld & Hsec & Hfree & Herr & Hret) Hasks.
  destruct m as [a ra ro rw lc lm [lk ws hw] rd sg tm st rt er].
  simpl in *. subst rd hw er.
  destruct tm as [|[[delay ma] nr] tm].
  { simpl in Hasks. by apply elem_of_nil in Hasks. }
  destruct tm; [|simpl in Hsum; lia].
  destruct sg; [|simpl in Hsum; lia].
  assert (lk = true) as -> by (apply Hheld; auto).
  destruct i; simpl in Hasks; [|by apply elem_of_nil in Hasks].
  clear Hsec Hheld Hfree Hsum Hret.
  assert (Start mem_addr num_recs
          ∈ ready (lock_release
                     (mkManager a ra ro rw lc lm (mkLock true ws false)
                        [] [] [] st rt [])) → False) as Hrelease.
  { unfold lock_release, release. simpl.
    destruct ws; simpl; intros Hin; [by apply elem_of_nil in Hin|].
    apply list_elem_of_singleton in Hin. discriminate Hin. }
  unfold lock_release, release in Hrelease. simpl in Hrelease.
  revert Hasks. unfold step, stalled. simpl. unfold _timer. simpl.
  destruct lc as [[| |]|];
    unfold _manage_get_all_cmd, _manage_get_one_cmd, lock_release, release;
    simpl.
  - destruct (calc_load_status a); simpl; [intros Hin; by destruct Hrelease|].
    destruct (ra <? RETRIES_ALL_MAX); simpl; [done|].
    destruct (_next_missing_record _) as [[x|]|e] eqn:Hnext; simpl.
    + destruct (x =? lm); simpl; [|done].
      destruct (ro <? RETRIES_ONE_MAX); simpl; [done|].
      intros Hin; by destruct Hrelease.
    + intros Hin. by apply elem_of_nil in Hin.
    + intros Hin. by apply elem_of_nil in Hin.
  - destruct (get ma a); simpl; [intros Hin; by destruct Hrelease|].
    destruct (ro <? RETRIES_ONE_MAX); simpl; [done|].
    intros Hin; by destruct Hrelease.
  - destruct (get ma a); simpl; [intros Hin; by destruct Hrelease|].
    destruct (ro <? RETRIES_ONE_MAX); simpl; [done|].
    intros Hin; by destruct Hrelease.
  - destruct (get ma a); simpl; [intros Hin; by destruct Hrelease|].
    destruct (ro <? RETRIES_ONE_MAX); simpl; [done|].
    intros Hin; by destruct Hrelease.
Qed.

(** X6. The reads the watchdogs ask for again are never sent.  When a
    watchdog calls [read] again, the manager is left with nothing under
    way and the gate held, and in every continuation of the run the
    commands handed to the read handler are those handed to it before the
    watchdog fired: neither the read asked for again nor any other is
    sent.  Each of them was asked for by a call of [read] from outside. *)
Theorem retries_are_never_sent (a : ALDB) (es later : list Event) (i : nat)
    (mem_addr num_recs : Z) :
  Start mem_addr num_recs ∈ ready (handle (TimerWakes i) (run (init a) es)) →
  sent (run (init a) (es ++ TimerWakes i :: later)) = sent (run (init a) es)
  ∧ stalled (run (init a) (es ++ TimerWakes i :: later))
  ∧ (∀ mem_addr' num_recs',
       (mem_addr', num_recs') ∈ sent (run (init a) (es ++ TimerWakes i :: later)) →
       CallRead mem_addr' num_recs' ∈ es).
Proof.
  intros Hasks. rewrite run_app.
  change (run (run (init a) es) (TimerWakes i :: later))
    with (run (step (run (init a) es) (TimerWakes i)) later).
  destruct (watchdog_asks_again (run (init a) es) i mem_addr num_recs)
    as [Hstalled Hsent]; [apply one_in_flight_run, one_in_flight_init|done|].
  destruct (stalled_run later _ Hstalled) as [Hlater Hsent'].
  rewrite Hsent', Hsent. split; [done|]. split; [done|].
  destruct (only_asked_run a es) as [Hasked _]. exact Hasked.
Qed.

End NoRetry.

(** * Further facts: the modem manager *)

Section ModemGate.
Import Asyncio Aldb Py Constants ImReadManager.

(** While its counter is at 0 the get-next loop leaves everything but the
    log of requests as it is. *)
Lemma get_next_loop_keeps (answers : nat → bool) (n : nat) (response : bool)
    (m : Manager) :
  _retries m = 0 →
  _retries (snd (get_next_loop answers n response m)) = 0
  ∧ _load_lock (snd (get_next_loop answers n response m)) = _load_lock m
  ∧ woken (snd (get_next_loop answers n response m)) = woken m
  ∧ errors (snd (get_next_loop answers n response m)) = errors m.
Proof.
  revert response m. induction n as [|n IH]; intros response m Hr; simpl.
  - by destruct (negb response && negb (_max_retries m)).
  - destruct (negb response && negb (_max_retries m)); [|done].
    destruct (IH (answers (length (sent m)))
                (set_retries (_retries m + 0) (set_sent (sent m ++ [GetNext]) m)))
      as (H1 & H2 & H3 & H4); [simpl; lia|].
    by rewrite H1, H2, H3, H4.
Qed.

Lemma get_next_record_frame (answers : nat → bool) (n : nat) (m : Manager) :
  _load_lock (snd (_get_next_record answers n m)) = _load_lock m
  ∧ woken (snd (_get_next_record answers n m)) = woken m
  ∧ errors (snd (_get_next_record answers n m)) = errors m
  ∧ _aldb (snd (_get_next_record answers n m)) = _aldb m
  ∧ _retries (snd (_get_next_record answers n m)) = 0.
Proof.
  unfold _get_next_record.
  destruct (get_next_loop_keeps answers n false (set_retries 0 m) eq_refl)
    as (Hr & Hl & Hw & He).
  destruct (get_next_loop_frame answers n false (set_retries 0 m)) as [Ha _].
  assert (_max_retries (snd (get_next_loop answers n false (set_retries 0 m)))
          = false) as Hmax by (unfold _max_retries; by rewrite Hr).
  destruct (get_next_loop answers n false (set_retries 0 m)) as [[|] m'];
    simpl in *; rewrite ?Hmax; done.
Qed.

End ModemGate.

Section ModemLoad.
Import Asyncio Aldb Py Constants ImReadManager Modem.

Lemma deliveries_keep (answers : nat → bool) (create_from_byte : Z → ControlFlags)
    (n : nat) (ds : list Delivery) (m : Manager) :
  _load_lock (deliveries answers create_from_byte n ds m) = _load_lock m
  ∧ woken (deliveries answers create_from_byte n ds m) = woken m
  ∧ errors (deliveries answers create_from_byte n ds m) = errors m.
Proof.
  revert m. induction ds as [|[[[[[flags group] address] d1] d2] d3] ds IH];
    intros m; simpl; [done|].
  destruct (IH (snd (receive_record_then_ask answers create_from_byte n
                       flags group address d1 d2 d3 m))) as (H1 & H2 & H3).
  unfold deliveries in *. rewrite H1, H2, H3.
  unfold receive_record_then_ask.
  destruct (get_next_record_frame answers n
              (_receive_record create_from_byte flags group address d1 d2 d3 m))
    as (Hl & Hw & He & _).
  by rewrite Hl, Hw, He.
Qed.

(** X9. A load whose get-first request is acknowledged never completes:
    [async_load] is suspended at its second [acquire], and whatever
    records are delivered afterwards and whatever the modem answers to the
    get-next requests, the gate stays held, the call stays queued and no
    waiter is woken. *)
Theorem acknowledged_load_never_completes
    (answers later : nat → bool) (create_from_byte : Z → ControlFlags)
    (n turns : nat) (ds : list Delivery) (m : Manager) :
  locked (_load_lock m) = false →
  waiters (_load_lock m) = [] →
  answers (length (sent m)) = true →
  let m' := deliveries later create_from_byte turns ds
              (snd (async_load answers (S n) m)) in
  fst (async_load answers (S n) m) = Suspended second_acquire
  ∧ locked (_load_lock m') = true
  ∧ waiters (_load_lock m') = [second_acquire]
  ∧ woken m' = woken m
  ∧ errors m' = errors m.
Proof.
  intros Hfree Hnone Hack m'.
  assert (async_load answers (S n) m
          = (Suspended second_acquire,
             set_load_lock (mkLock true [second_acquire] false)
               (set_retries 1 (set_sent (sent m ++ [GetFirst]) m)))) as Hload.
  { unfold async_load.
    assert (acquire first_acquire (_load_lock (set_retries 0 m))
            = (true, mkLock true [] false)) as ->.
    { unfold acquire. simpl. by rewrite Hfree, Hnone. }
    unfold load_locked. simpl. rewrite Hack.
    destruct n; simpl; reflexivity. }
  destruct (deliveries_keep later create_from_byte turns ds
              (snd (async_load answers (S n) m))) as (Hl & Hw & He).
  subst m'. rewrite Hl, Hw, He, Hload. done.
Qed.

End ModemLoad.

(** * Further facts: the direct command handler *)

Section DirectRuns.
Import Asyncio Py Constants DirectCommand Direct.

Lemma run_direct_app (h : Handler) (es1 es2 : list Event) :
  run h (es1 ++ es2) = run (run h es1) es2.
Proof. apply fold_left_app. Qed.

Lemma one_by_one_run (rs : list ResponseStatus) (h : Handler) :
  locked (response_lock h) = false → waiters (response_lock h) = [] →
  sending h = 0%nat →
  outcomes (run h (one_by_one rs)) = outcomes h ++ map Ok rs
  ∧ locked (response_lock (run h (one_by_one rs))) = false
  ∧ waiters (response_lock (run h (one_by_one rs))) = []
  ∧ sending (run h (one_by_one rs)) = 0%nat.
Proof.
  revert h. induction rs as [|r rs IH]; intros h Hfree Hnone Hzero.
  - simpl. by rewrite app_nil_r.
  - destruct h as [[lk ws hw] sg wk oc].
    simpl in Hfree, Hnone, Hzero. subst lk ws sg.
    change (one_by_one (r :: rs)) with ([Calls; Responds r] ++ one_by_one rs).
    rewrite run_direct_app.
    assert (run (mkHandler (mkLock false [] hw) 0 wk oc) [Calls; Responds r]
            = mkHandler (mkLock false [] false) 0 wk (oc ++ [Ok r])) as ->
      by reflexivity.
    destruct (IH (mkHandler (mkLock false [] false) 0 wk (oc ++ [Ok r])))
      as (Ho & Hl & Hw & Hs); [done|done|done|].
    rewrite Ho, Hl, Hw, Hs. simpl.
    by rewrite <- app_assoc.
Qed.

(** X10. Exchanges made one after the other all succeed: each call of
    [async_send] returns the response of its own send, in order, and the
    response lock is free when the last one is over. *)
Theorem exchanges_one_by_one (rs : list ResponseStatus) :
  outcomes (run init (one_by_one rs)) = map Ok rs
  ∧ locked (response_lock (run init (one_by_one rs))) = false
  ∧ sending (run init (one_by_one rs)) = 0%nat.
Proof.
  destruct (one_by_one_run rs init) as (Ho & Hl & _ & Hs); done.
Qed.

Lemma calls_run_held (k sg wk : nat) (oc : list (result ResponseStatus)) :
  run (mkHandler (mkLock true [] false) sg wk oc) (replicate k Calls)
  = mkHandler (mkLock true [] false) (k + sg) wk oc.
Proof.
  revert sg. induction k as [|k IH]; intros sg; [done|].
  change (replicate (S k) Calls) with ([Calls] ++ replicate k Calls).
  rewrite run_direct_app.
  assert (run (mkHandler (mkLock true [] false) sg wk oc) [Calls]
          = mkHandler (mkLock true [] false) (S sg) wk oc) as ->
    by reflexivity.
  rewrite IH. f_equal. lia.
Qed.

Lemma calls_run (k : nat) (h : Handler) :
  waiters (response_lock h) = [] →
  run h (replicate (S k) Calls)
  = mkHandler (mkLock true [] false) (S k + sending h) (woken h) (outcomes h).
Proof.
  intros Hnone. destruct h as [[lk ws hw] sg wk oc].
  simpl in Hnone. subst ws.
  change (replicate (S k) Calls) with ([Calls] ++ replicate k Calls).
  rewrite run_direct_app.
  assert (run (mkHandler (mkLock lk [] hw) sg wk oc) [Calls]
          = mkHandler (mkLock true [] false) (S sg) wk oc) as ->
    by (by destruct lk).
  rewrite calls_run_held. simpl. f_equal. lia.
Qed.

Lemma late_returns_run (rs : list ResponseStatus) (h : Handler) :
  locked (response_lock h) = false →
  (length rs ≤ sending h)%nat →
  run h (map Responds rs)
  = mkHandler (response_lock h) (sending h - length rs) (woken h)
      (outcomes h ++ map (λ _, Raise RuntimeError) rs).
Proof.
  revert h. induction rs as [|r rs IH]; intros h Hfree Hlen.
  - destruct h as [l sg wk oc]. simpl. f_equal; [lia|by rewrite app_nil_r].
  - destruct h as [[lk ws hw] sg wk oc]. simpl in Hfree, Hlen. subst lk.
    destruct sg as [|sg]; [lia|].
    change (map Responds (r :: rs)) with ([Responds r] ++ map Responds rs).
    rewrite run_direct_app.
    assert (run (mkHandler (mkLock false ws hw) (S sg) wk oc) [Responds r]
            = mkHandler (mkLock false ws hw) sg wk (oc ++ [Raise RuntimeError]))
      as -> by reflexivity.
    rewrite IH; simpl; [|done|lia].
    f_equal. by rewrite <- app_assoc.
Qed.

(** X11. Of exchanges that overlap only one is answered: when all calls
    of [async_send] are made before the first send returns, the call whose
    send returns first gets its response and every other call raises
    [RuntimeError] from its closing [release], the lock having been freed
    already. *)
Theorem exchanges_overlapping (r : ResponseStatus) (rs : list ResponseStatus) :
  outcomes (run init (overlapping (r :: rs)))
  = Ok r :: map (λ _, Raise RuntimeError) rs
  ∧ locked (response_lock (run init (overlapping (r :: rs)))) = false
  ∧ sending (run init (overlapping (r :: rs))) = 0%nat.
Proof.
  unfold overlapping. rewrite run_direct_app.
  change (length (r :: rs)) with (S (length rs)).
  rewrite calls_run by done.
  change (map Responds (r :: rs)) with ([Responds r] ++ map Responds rs).
  rewrite run_direct_app.
  assert (run (mkHandler (mkLock true [] false) (S (length rs) + sending init)
                 (woken init) (outcomes init)) [Responds r]
          = mkHandler (mkLock false [] false) (length rs) 0 [Ok r]) as ->.
  { simpl. unfold async_send_returns. simpl. by rewrite Nat.add_0_r. }
  rewrite late_returns_run by (simpl; lia).
  simpl. split; [done|]. split; [done|]. lia.
Qed.

Lemma accounted_run (es : list Event) (h : Handler) :
  waiters (response_lock h) = [] → woken h = 0%nat →
  (locked (response_lock h) = true → 1 ≤ sending h)%nat →
  waiters (response_lock (run h es)) = []
  ∧ (locked (response_lock (run h es)) = true → 1 ≤ sending (run h es))%nat
  ∧ (length (outcomes (run h es)) + sending (run h es)
     = length (outcomes h) + sending h + calls es)%nat.
Proof.
  unfold run. revert h. induction es as [|e es IH]; intros h Hnone Hwk Hheld.
  - simpl. split; [done|]. split; [done|]. lia.
  - cbn [fold_left].
    destruct h as [[lk ws hw] sg wk oc]. simpl in Hnone, Hwk, Hheld.
    subst ws wk.
    destruct e as [|response|].
    + assert (step (mkHandler (mkLock lk [] hw) sg 0 oc) Calls
              = mkHandler (mkLock true [] false) (S sg) 0 oc) as ->
        by (by destruct lk).
      destruct (IH (mkHandler (mkLock true [] false) (S sg) 0 oc))
        as (H1 & H2 & H3); [done|done|simpl; lia|].
      simpl in *. split; [done|]. split; [done|]. lia.
    + destruct sg as [|sg].
      * assert (step (mkHandler (mkLock lk [] hw) 0 0 oc) (Responds response)
                = mkHandler (mkLock lk [] hw) 0 0 oc) as -> by reflexivity.
        destruct (IH (mkHandler (mkLock lk [] hw) 0 0 oc))
          as (H1 & H2 & H3); [done|done|done|].
        simpl in *. split; [done|]. split; [done|]. lia.
      * destruct lk.
        -- assert (step (mkHandler (mkLock true [] hw) (S sg) 0 oc)
                     (Responds response)
                   = mkHandler (mkLock false [] false) sg 0 (oc ++ [Ok response]))
             as -> by reflexivity.
           destruct (IH (mkHandler (mkLock false [] false) sg 0
                           (oc ++ [Ok response])))
             as (H1 & H2 & H3); [done|done|done|].
           simpl in *. rewrite length_app in H3. simpl in H3.
           split; [done|]. split; [done|]. lia.
        -- assert (step (mkHandler (mkLock false [] hw) (S sg) 0 oc)
                     (Responds response)
                   = mkHandler (mkLock false [] hw) sg 0
                       (oc ++ [Raise RuntimeError]))
             as -> by reflexivity.
           destruct (IH (mkHandler (mkLock false [] hw) sg 0
                           (oc ++ [Raise RuntimeError])))
             as (H1 & H2 & H3); [done|done|done|].
           simpl in *. rewrite length_app in H3. simpl in H3.
           split; [done|]. split; [done|]. lia.
    + assert (step (mkHandler (mkLock lk [] hw) sg 0 oc) Wakes
              = mkHandler (mkLock lk [] hw) sg 0 oc) as -> by reflexivity.
      destruct (IH (mkHandler (mkLock lk [] hw) sg 0 oc))
        as (H1 & H2 & H3); [done|done|done|].
      simpl in *. split; [done|]. split; [done|]. lia.
Qed.

(** X12. However calls of [async_send] and returns of their sends
    interleave: nobody ever waits for the response lock, the lock is held
    only while some call is sending, and every call made is accounted for,
    either still sending or over with an outcome. *)
Theorem calls_accounted_for (es : list Event) :
  waiters (response_lock (run init es)) = []
  ∧ (locked (response_lock (run init es)) = true → 1 ≤ sending (run init es))%nat
  ∧ (length (outcomes (run init es)) + sending (run init es) = calls es)%nat.
Proof.
  destruct (accounted_run es init) as (H1 & H2 & H3); [done|done|done|].
  done.
Qed.

End DirectRuns.

Section C7.
Import Asyncio Py Constants DirectCommand.

(** C7. A call of [async_send] made while an exchange is outstanding
    frees the response lock that the outstanding call holds, takes it
    again at once, is not queued and goes on to send, so that two calls
    are sending under one lock.  But the lock is not released again
    after every send: of the two calls, the one whose send returns first
    has its response and frees the lock, and the closing [release] of
    the other finds the lock free and raises [RuntimeError] in place of
    the response. *)
Theorem overlapping_call_raises (es : list Event) (r1 r2 : ResponseStatus) :
  let h := run init es in
  locked (response_lock h) = true →
  let h' := run h [Calls] in
  locked (response_lock (release_if_locked h)) = false
  ∧ fst (async_send_enters h) = Sends
  ∧ locked (response_lock h') = true
  ∧ waiters (response_lock h') = []
  ∧ sending h' = S (sending h)
  ∧ (2 ≤ sending h')%nat
  ∧ outcomes (run h' [Responds r1]) = outcomes h ++ [Ok r1]
  ∧ locked (response_lock (run h' [Responds r1])) = false
  ∧ (1 ≤ sending (run h' [Responds r1]))%nat
  ∧ outcomes (run h' [Responds r1; Responds r2])
    = outcomes h ++ [Ok r1; Raise RuntimeError]
  ∧ locked (response_lock (run h' [Responds r1; Responds r2])) = false.
Proof.
  intros h.
  destruct (nobody_waits es init) as [Hw Hk]; [done|].
  destruct (accounted_run es init) as (_ & Hheld & _); [done|done|done|].
  fold h in Hw, Hk, Hheld. clearbody h.
  destruct h as [[lk ws hw] sg wk oc]. simpl in Hw, Hk, Hheld. subst ws wk.
  intros Hl. simpl in Hl. subst lk. specialize (Hheld eq_refl).
  destruct sg as [|sg]; [lia|].
  cbv zeta. unfold run. cbn [fold_left].
  assert (step (mkHandler (mkLock true [] hw) (S sg) 0 oc) Calls
          = mkHandler (mkLock true [] false) (S (S sg)) 0 oc) as ->
    by reflexivity.
  assert (step (mkHandler (mkLock true [] false) (S (S sg)) 0 oc) (Responds r1)
          = mkHandler (mkLock false [] false) (S sg) 0 (oc ++ [Ok r1])) as ->
    by reflexivity.
  assert (step (mkHandler (mkLock false [] false) (S sg) 0 (oc ++ [Ok r1]))
            (Responds r2)
          = mkHandler (mkLock false [] false) sg 0
              ((oc ++ [Ok r1]) ++ [Raise RuntimeError])) as ->
    by reflexivity.
  simpl. rewrite <- app_assoc. simpl.
  repeat split; auto with lia.
Qed.

(** A second call is made while the first one is sending, and both sends
    return. *)
Lemma overlapping_call_raises_witness :
  locked (response_lock (run init [Calls])) = true
  ∧ outcomes (run (run (run init [Calls]) [Calls])
                [Responds SUCCESS; Responds SUCCESS])
    = [Ok SUCCESS; Raise RuntimeError].
Proof.
  split; [reflexivity|].
  destruct (overlapping_call_raises [Calls] SUCCESS SUCCESS)
    as (_ & _ & _ & _ & _ & _ & _ & _ & _ & Hout & _); [reflexivity|].
  exact Hout.
Defined.

End C7.

(** * Further facts: the operating flags manager *)

Section MoreDicts.
Import OpFlags Registry.
Context {K V : Type} `{EqDecision K}.

Lemma dict_set_elem_of (k k' : K) (v v' : V) (d : list (K * V)) :
  (k', v') ∈ dict_set k v d → (k', v') = (k, v) ∨ (k', v') ∈ d.
Proof.
  induction d as [|[k0 v0] d IH]; simpl.
  - intros Hin. apply list_elem_of_singleton in Hin. auto.
  - destruct (decide (k = k0)) as [->|Hne]; intros Hin;
      apply elem_of_cons in Hin as [Hin|Hin]; auto.
    + right. by right.
    + right. rewrite Hin. by left.
    + destruct (IH Hin) as [?|?]; auto. right. by right.
Qed.

Lemma dict_keys_set (k : K) (v : V) (d : list (K * V)) :
  dict_keys (dict_set k v d)
  = match dict_get k d with
    | Some _ => dict_keys d
    | None => dict_keys d ++ [k]
    end.
Proof.
  induction d as [|[k0 v0] d IH]; simpl; [done|].
  destruct (decide (k = k0)) as [->|Hne]; simpl; [done|].
  rewrite IH. by destruct (dict_get k d).
Qed.

Lemma dict_get_None_keys (k : K) (d : list (K * V)) :
  dict_get k d = None ↔ k ∉ dict_keys d.
Proof.
  induction d as [|[k0 v0] d IH]; simpl.
  - split; [intros _ Hin; by apply elem_of_nil in Hin|done].
  - rewrite not_elem_of_cons. destruct (decide (k = k0)) as [->|Hne].
    + split; [done|]. intros [Hne _]. done.
    + rewrite IH. tauto.
Qed.

Lemma NoDup_dict_set (k : K) (v : V) (d : list (K * V)) :
  NoDup (dict_keys d) → NoDup (dict_keys (dict_set k v d)).
Proof.
  intros Hnd. rewrite dict_keys_set.
  destruct (dict_get k d) eqn:Hget; [done|].
  apply NoDup_app. split; [done|]. split; [|apply NoDup_singleton].
  intros x Hx Hin. apply list_elem_of_singleton in Hin. subst x.
  by apply dict_get_None_keys in Hget.
Qed.

Lemma dict_get_Some_elem_of (k : K) (v : V) (d : list (K * V)) :
  dict_get k d = Some v → (k, v) ∈ d.
Proof.
  induction d as [|[k0 v0] d IH]; simpl; [done|].
  destruct (decide (k = k0)) as [->|Hne].
  - intros Heq. inversion Heq; subst. by left.
  - intros Heq. right. by apply IH.
Qed.

Lemma dict_keys_is_Some (k : K) (d : list (K * V)) :
  k ∈ dict_keys d → is_Some (dict_get k d).
Proof.
  intros Hin. destruct (dict_get k d) eqn:Hget; [by eexists|].
  by apply dict_get_None_keys in Hget.
Qed.

End MoreDicts.

Section Pops.
Import OpFlags Registry.
Context {V : Type}.

Lemma dict_pop_elem_of (k k' : Z) (v' : V) (d d' : list (Z * V)) :
  dict_pop k d = Some d' → (k', v') ∈ d' → (k', v') ∈ d.
Proof.
  revert d'. induction d as [|[k0 v0] d IH]; intros d'; simpl; [done|].
  destruct (decide (k = k0)) as [->|Hne].
  - intros Heq Hin. inversion Heq; subst. by right.
  - destruct (dict_pop k d) as [d''|]; [|done].
    intros Heq Hin. inversion Heq; subst.
    apply elem_of_cons in Hin as [Hin|Hin]; [rewrite Hin; by left|].
    right. by apply (IH d'').
Qed.

Lemma dict_pop_keys (k : Z) (d d' : list (Z * V)) :
  dict_pop k d = Some d' → NoDup (dict_keys d) →
  NoDup (dict_keys d') ∧ (k ∉ dict_keys d')
  ∧ (∀ k', k' ≠ k → dict_get k' d' = dict_get k' d).
Proof.
  revert d'. induction d as [|[k0 v0] d IH]; intros d'; simpl; [done|].
  intros Heq Hnd. apply NoDup_cons in Hnd as [Hnotin Hnd].
  destruct (decide (k = k0)) as [->|Hne].
  - inversion Heq; subst. split; [done|]. split; [done|].
    intros k' Hk'. by rewrite decide_False.
  - destruct (dict_pop k d) as [d''|] eqn:Hpop; [|done].
    inversion Heq; subst.
    destruct (IH d'' eq_refl Hnd) as (Hnd' & Hk & Hget).
    split; [|split].
    + simpl. apply NoDup_cons. split; [|done].
      intros Hin. apply Hnotin.
      apply list_elem_of_fmap in Hin as [[k1 v1] [-> Hin]].
      apply list_elem_of_fmap. exists (k1, v1). split; [done|].
      by eapply dict_pop_elem_of.
    + simpl. apply not_elem_of_cons. done.
    + intros k' Hk'. simpl. destruct (decide (k' = k0)); [done|].
      by apply Hget.
Qed.

Lemma dict_pop_None (k : Z) (d : list (Z * V)) :
  dict_pop k d = None ↔ dict_get k d = None.
Proof.
  induction d as [|[k0 v0] d IH]; simpl; [done|].
  destruct (decide (k = k0)); [done|].
  destruct (dict_pop k d); [|tauto].
  split; [done|]. intros Hn. by apply IH in Hn.
Qed.

Lemma dict_pop_get_ne (k k' : Z) (d d' : list (Z * V)) :
  dict_pop k d = Some d' → k' ≠ k → dict_get k' d' = dict_get k' d.
Proof.
  revert d'. induction d as [|[k0 v0] d IH]; intros d'; simpl; [done|].
  destruct (decide (k = k0)) as [->|Hne].
  - intros Heq Hk'. inversion Heq; subst. by rewrite decide_False.
  - destruct (dict_pop k d) as [d''|] eqn:Hpop; [|done].
    intros Heq Hk'. inversion Heq; subst. simpl.
    destruct (decide (k' = k0)); [done|]. by apply IH.
Qed.

End Pops.

Section Filing.
Import Py Constants OpFlags Registry.

Lemma well_filed_insert_group (m : Manager) (g : Z) (e : GroupEntry) :
  well_filed m → filed_in g e →
  well_filed (set_groups (<[g := e]> (_groups m)) m).
Proof.
  intros [Hflags Hgroups] He. split; [done|]. simpl.
  intros g' e'. rewrite lookup_insert_Some.
  intros [[<- <-]|[_ Hg']]; [done|by apply Hgroups].
Qed.

Lemma well_filed_delete_group (m : Manager) (g : Z) :
  well_filed m → well_filed (set_groups (delete g (_groups m)) m).
Proof.
  intros [Hflags Hgroups]. split; [done|]. simpl.
  intros g' e'. rewrite lookup_delete_Some. intros [_ Hg']. by apply Hgroups.
Qed.

Lemma well_filed_insert_flag (m : Manager) (fi : OperatingFlagInfo) :
  well_filed m → well_filed (set_flags (<[name fi := fi]> (_flags m)) m).
Proof.
  intros [Hflags Hgroups]. split; [|done]. simpl.
  intros n fi'. rewrite lookup_insert_Some.
  intros [[<- <-]|[_ Hn]]; [done|by apply Hflags].
Qed.

Lemma well_filed_delete_flag (m : Manager) (n : string) :
  well_filed m → well_filed (set_flags (delete n (_flags m)) m).
Proof.
  intros [Hflags Hgroups]. split; [|done]. simpl.
  intros n' fi'. rewrite lookup_delete_Some. intros [_ Hn]. by apply Hflags.
Qed.

Lemma filed_in_dict_set (g b : Z) (fi : OperatingFlagInfo)
    (d : list (Z * OperatingFlagInfo)) :
  bit fi = Some b → group fi = g →
  filed_in g (Bits d) → filed_in g (Bits (dict_set b fi d)).
Proof.
  intros Hb Hg [Hd Hnd]. split; [|by apply NoDup_dict_set].
  intros b' fi' Hin. apply dict_set_elem_of in Hin as [Heq|Hin].
  - by inversion Heq; subst.
  - by apply Hd.
Qed.

Lemma well_filed_subscribe (n : string) (g : Z) (b : option Z)
    (set_cmd unset_cmd : option Z) (m : Manager) :
  well_filed m → well_filed (snd (subscribe n g b set_cmd unset_cmd m)).
Proof.
  intros Hm. unfold subscribe.
  set (info := mkInfo n g b set_cmd unset_cmd).
  assert (well_filed
            (match _groups m !! g with
             | Some _ => m
             | None => set_groups (<[g:=Bits []]> (_groups m)) m
             end)) as Hm1.
  { destruct (_groups m !! g); [done|].
    apply well_filed_insert_group; [done|].
    split; [|constructor]. intros b' fi' Hin. by apply elem_of_nil in Hin. }
  set (m1 := match _groups m !! g with
             | Some _ => m
             | None => set_groups (<[g:=Bits []]> (_groups m)) m
             end) in *.
  destruct b as [b|].
  - destruct (_groups m1 !! g) as [[d|w]|] eqn:Hg; cbv zeta; cbn [snd];
      [|done|done].
    apply (well_filed_insert_flag _ info).
    apply well_filed_insert_group; [done|].
    apply filed_in_dict_set; [done|done|].
    destruct Hm1 as [_ Hgroups]. by apply (Hgroups g).
  - cbv zeta; cbn [snd]. apply (well_filed_insert_flag _ info).
    by apply well_filed_insert_group.
Qed.

Lemma well_filed_unsubscribe (n : string) (m : Manager) :
  well_filed m → well_filed (snd (unsubscribe n m)).
Proof.
  intros Hm. unfold unsubscribe.
  destruct (_flags m !! n) as [fi|]; [|done].
  unfold _remove. destruct (bit fi) as [b|].
  - destruct (_groups m !! group fi) as [[d|w]|] eqn:Hg.
    + destruct (dict_pop b d) as [d'|] eqn:Hpop; cbv beta iota zeta; cbn [snd].
      * apply well_filed_delete_flag. apply well_filed_insert_group; [done|].
        destruct Hm as [_ Hgroups].
        destruct (Hgroups _ _ Hg) as [Hd Hnd].
        destruct (dict_pop_keys b d d' Hpop Hnd) as (Hnd' & _ & _).
        split; [|done]. intros b' fi' Hin. apply Hd.
        by eapply dict_pop_elem_of.
      * by apply well_filed_delete_flag.
    + done.
    + cbv beta iota zeta; cbn [snd]. by apply well_filed_delete_flag.
  - cbv beta iota zeta; cbn [snd]. apply well_filed_delete_flag.
    by apply well_filed_delete_group.
Qed.

Lemma well_filed_apply_all (ops : list Op) (m : Manager) :
  well_filed m → well_filed (apply_all m ops).
Proof.
  revert m. induction ops as [|op ops IH]; intros m Hm; simpl; [done|].
  apply IH. destruct op; simpl.
  - by apply well_filed_subscribe.
  - by apply well_filed_unsubscribe.
Qed.

Lemma well_filed_init (flags : list (string * OperatingFlag)) :
  well_filed (init flags).
Proof.
  split; simpl.
  - intros n fi. by rewrite lookup_empty.
  - intros g e. by rewrite lookup_empty.
Qed.

(** X13. The registry stays in order: after any calls of [subscribe] and
    [unsubscribe], also those that raise, every binding in [_flags] is
    under its own name and every binding in [_groups] is under its own
    group and bit, each bit of a group being bound once. *)
Theorem registry_well_filed (flags : list (string * OperatingFlag)) (ops : list Op) :
  well_filed (apply_all (init flags) ops).
Proof.
  apply well_filed_apply_all, well_filed_init.
Qed.

End Filing.

Section Subscriptions.
Import Py Constants OpFlags Registry.

(** The bit bindings of a group: none when the group is not there. *)
Lemma subscribe_bit_spec (n : string) (g b : Z) (s u : option Z) (m : Manager) :
  (∀ fi, _groups m !! g ≠ Some (Whole fi)) →
  ∃ d, (_groups m !! g = Some (Bits d) ∨ _groups m !! g = None ∧ d = [])
    ∧ subscribe n g (Some b) s u m
      = (Ok tt,
         mkManager (_op_flags m)
           (<[g := Bits (dict_set b (mkInfo n g (Some b) s u) d)]> (_groups m))
           (<[n := mkInfo n g (Some b) s u]> (_flags m))
           (sent m)).
Proof.
  intros Hbits. unfold subscribe.
  destruct (_groups m !! g) as [[d|w]|] eqn:Hg.
  - exists d. split; [by left|]. by rewrite Hg.
  - by destruct (Hbits w).
  - exists []. split; [by right|]. cbn -[insert lookup].
    rewrite lookup_insert_eq. cbn -[insert lookup].
    by rewrite insert_insert_eq.
Qed.

Lemma subscribe_whole_spec (n : string) (g : Z) (s u : option Z) (m : Manager) :
  subscribe n g None s u m
  = (Ok tt,
     mkManager (_op_flags m)
       (<[g := Whole (mkInfo n g None s u)]> (_groups m))
       (<[n := mkInfo n g None s u]> (_flags m))
       (sent m)).
Proof.
  unfold subscribe. destruct (_groups m !! g) as [e|] eqn:Hg; [done|].
  cbn -[insert lookup]. by rewrite insert_insert_eq.
Qed.

(** X14. A flag subscribed to a bit of a register that is not bound as a
    whole is found again: [subscribe] returns, the binding is in [_flags]
    under the name and in [_groups] under the group and the bit, and the
    bindings of the other names, the other groups and the other bits of
    the group, the flags and the commands sent are as they were. *)
Theorem subscribe_binds (n : string) (g b : Z) (s u : option Z) (m : Manager) :
  (∀ fi, _groups m !! g ≠ Some (Whole fi)) →
  let info := mkInfo n g (Some b) s u in
  let m' := snd (subscribe n g (Some b) s u m) in
  fst (subscribe n g (Some b) s u m) = Ok tt
  ∧ _flags m' !! n = Some info
  ∧ (∃ d, _groups m' !! g = Some (Bits d)
          ∧ dict_get b d = Some info
          ∧ ∀ b', b' ≠ b →
              dict_get b' d = match _groups m !! g with
                              | Some (Bits d0) => dict_get b' d0
                              | _ => None
                              end)
  ∧ (∀ n', n' ≠ n → _flags m' !! n' = _flags m !! n')
  ∧ (∀ g', g' ≠ g → _groups m' !! g' = _groups m !! g')
  ∧ _op_flags m' = _op_flags m
  ∧ sent m' = sent m.
Proof.
  intros Hbits info m'. subst m'.
  destruct (subscribe_bit_spec n g b s u m Hbits) as (d & Hd & ->).
  cbn [fst snd _flags _groups _op_flags sent].
  split; [done|]. split; [by rewrite lookup_insert_eq|].
  split; [|split; [|split]]; [| |by intros g' Hg'; rewrite lookup_insert_ne|done].
  - exists (dict_set b info d). rewrite lookup_insert_eq.
    split; [done|]. split; [by rewrite dict_get_set_eq|].
    intros b' Hb'. rewrite dict_get_set_ne by done.
    by destruct Hd as [->|[-> ->]].
  - intros n' Hn'. by rewrite lookup_insert_ne.
Qed.

(** X15. [unsubscribe] takes back a [subscribe] to a bit: the name is no
    longer in [_flags], the bit is no longer bound in the group, and the
    other names, groups and bits of the group are bound as before the
    [subscribe]; the group itself stays in [_groups], with no binding
    left when the flag was its only one. *)
Theorem unsubscribe_takes_back (n : string) (g b : Z) (s u : option Z)
    (m : Manager) :
  well_filed m →
  (∀ fi, _groups m !! g ≠ Some (Whole fi)) →
  let m1 := snd (subscribe n g (Some b) s u m) in
  let m2 := snd (unsubscribe n m1) in
  fst (unsubscribe n m1) = Removed
  ∧ _flags m2 !! n = None
  ∧ (∃ d, _groups m2 !! g = Some (Bits d)
          ∧ dict_get b d = None
          ∧ (∀ b', b' ≠ b →
               dict_get b' d = match _groups m !! g with
                               | Some (Bits d0) => dict_get b' d0
                               | _ => None
                               end)
          ∧ (_groups m !! g = None → d = []))
  ∧ (∀ n', n' ≠ n → _flags m2 !! n' = _flags m !! n')
  ∧ (∀ g', g' ≠ g → _groups m2 !! g' = _groups m !! g').
Proof.
  intros Hm Hbits m1 m2. subst m2 m1.
  destruct (subscribe_bit_spec n g b s u m Hbits) as (d & Hd & ->).
  cbn [snd]. set (info := mkInfo n g (Some b) s u).
  assert (NoDup (dict_keys d)) as Hnd.
  { destruct Hd as [Hd|[_ ->]]; [|constructor].
    destruct Hm as [_ Hgroups]. by destruct (Hgroups _ _ Hd). }
  assert (is_Some (dict_pop b (dict_set b info d))) as [d' Hpop].
  { destruct (dict_pop b (dict_set b info d)) eqn:Hpop; [by eexists|].
    apply dict_pop_None in Hpop. by rewrite dict_get_set_eq in Hpop. }
  destruct (dict_pop_keys b _ d' Hpop (NoDup_dict_set b info d Hnd))
    as (_ & Hout & Hrest).
  unfold unsubscribe, _remove. cbn [_flags _groups].
  rewrite lookup_insert_eq. cbn [bit group info].
  rewrite lookup_insert_eq, Hpop.
  cbn [fst snd _flags _groups set_flags set_groups _op_flags sent].
  split; [done|]. split; [by rewrite lookup_delete_eq|].
  split; [|split].
  - exists d'. rewrite lookup_insert_eq. split; [done|].
    split; [by apply dict_get_None_keys|]. split.
    + intros b' Hb'. rewrite Hrest by done. rewrite dict_get_set_ne by done.
      by destruct Hd as [->|[-> ->]].
    + intros Hnone. destruct Hd as [Hd|[_ ->]]; [congruence|].
      simpl in Hpop. rewrite decide_True in Hpop by done. congruence.
  - intros n' Hn'. rewrite lookup_delete_ne by done.
    by rewrite lookup_insert_ne.
  - intros g' Hg'. rewrite insert_insert_eq. by rewrite lookup_insert_ne.
Qed.

(** X16. [unsubscribe] takes back only the last binding of a name: a name
    subscribed to one bit of a register and then to another one is no
    longer in [_flags] after [unsubscribe], but the first bit is still
    bound to it in [_groups]. *)
Theorem unsubscribe_leaves_earlier_bit (n : string) (g b1 b2 : Z)
    (s1 u1 s2 u2 : option Z) (m : Manager) :
  b1 ≠ b2 →
  (∀ fi, _groups m !! g ≠ Some (Whole fi)) →
  let m1 := snd (subscribe n g (Some b1) s1 u1 m) in
  let m2 := snd (subscribe n g (Some b2) s2 u2 m1) in
  let m3 := snd (unsubscribe n m2) in
  fst (unsubscribe n m2) = Removed
  ∧ _flags m3 !! n = None
  ∧ ∃ d, _groups m3 !! g = Some (Bits d)
         ∧ dict_get b1 d = Some (mkInfo n g (Some b1) s1 u1).
Proof.
  intros Hne Hbits m1 m2 m3. subst m3 m2 m1.
  destruct (subscribe_bit_spec n g b1 s1 u1 m Hbits) as (d & Hd & ->).
  cbn [snd]. set (info1 := mkInfo n g (Some b1) s1 u1).
  set (m1 := mkManager _ _ _ _).
  destruct (subscribe_bit_spec n g b2 s2 u2 m1) as (d1 & Hd1 & ->).
  { intros fi. unfold m1. cbn [_groups]. by rewrite lookup_insert_eq. }
  assert (d1 = dict_set b1 info1 d) as ->.
  { unfold m1 in Hd1. cbn [_groups] in Hd1. rewrite lookup_insert_eq in Hd1.
    destruct Hd1 as [Hd1|[Hd1 _]]; congruence. }
  cbn [snd]. set (info2 := mkInfo n g (Some b2) s2 u2).
  assert (is_Some (dict_pop b2 (dict_set b2 info2 (dict_set b1 info1 d))))
    as [d' Hpop].
  { destruct (dict_pop b2 _) eqn:Hpop; [by eexists|].
    apply dict_pop_None in Hpop. by rewrite dict_get_set_eq in Hpop. }
  unfold unsubscribe, _remove. cbn [_flags _groups].
  rewrite lookup_insert_eq. cbn [bit group info2].
  rewrite lookup_insert_eq, Hpop.
  cbn [fst snd _flags _groups set_flags set_groups _op_flags sent].
  split; [done|]. split; [by rewrite lookup_delete_eq|].
  exists d'. rewrite lookup_insert_eq. split; [done|].
  rewrite (dict_pop_get_ne b2 b1 _ d' Hpop) by done.
  rewrite dict_get_set_ne by done. by rewrite dict_get_set_eq.
Qed.

(** X17. [subscribe] raises in one case only, a bit to be bound in a
    register that is bound as a whole: then it raises [TypeError] and the
    manager is as it was; in every other case it returns. *)
Theorem subscribe_raises_on_whole_register (n : string) (g : Z)
    (b : option Z) (s u : option Z) (m : Manager) :
  match fst (subscribe n g b s u m) with
  | Ok _ => b = None ∨ ∀ fi, _groups m !! g ≠ Some (Whole fi)
  | Raise e =>
      e = TypeError
      ∧ snd (subscribe n g b s u m) = m
      ∧ is_Some b
      ∧ ∃ fi, _groups m !! g = Some (Whole fi)
  end.
Proof.
  unfold subscribe.
  destruct b as [b|]; [|by left].
  destruct (_groups m !! g) as [[d|w]|] eqn:Hg.
  - rewrite Hg. cbn [fst]. by right.
  - rewrite Hg. cbn [fst snd]. eauto.
  - cbn -[insert lookup]. rewrite lookup_insert_eq. cbn [fst]. by right.
Qed.

(** X18. Binding a register as a whole strands the flags bound to its
    bits: they stay in [_flags], and [unsubscribe] of such a flag raises
    [AttributeError] and removes nothing. *)
Theorem whole_register_strands_bit_flags (n n' : string) (g b : Z)
    (s u s' u' : option Z) (m : Manager) :
  n ≠ n' →
  (∀ fi, _groups m !! g ≠ Some (Whole fi)) →
  let m1 := snd (subscribe n g (Some b) s u m) in
  let m2 := snd (subscribe n' g None s' u' m1) in
  fst (subscribe n' g None s' u' m1) = Ok tt
  ∧ _groups m2 !! g = Some (Whole (mkInfo n' g None s' u'))
  ∧ _flags m2 !! n = Some (mkInfo n g (Some b) s u)
  ∧ unsubscribe n m2 = (AttributeError, m2).
Proof.
  intros Hne Hbits m1 m2. subst m2 m1.
  destruct (subscribe_bit_spec n g b s u m Hbits) as (d & Hd & ->).
  cbn [snd]. rewrite subscribe_whole_spec.
  cbn [fst snd _groups _flags _op_flags sent].
  split; [done|]. split; [by rewrite lookup_insert_eq|].
  assert (<[n':=mkInfo n' g None s' u']>
            (<[n:=mkInfo n g (Some b) s u]> (_flags m)) !! n
          = Some (mkInfo n g (Some b) s u)) as Hn.
  { rewrite lookup_insert_ne by done. by rewrite lookup_insert_eq. }
  split; [done|].
  unfold unsubscribe, _remove. cbn [_flags _groups]. rewrite Hn.
  cbn [bit group]. by rewrite lookup_insert_eq.
Qed.

End Subscriptions.

Section ReadLoop.
Import Py Constants OpFlags Registry.

(** The retry loop of [_async_read], as the one of [_async_write]. *)
Lemma read_loop_spec (answers : nat → ResponseStatus) (n : nat)
    (group retries : Z) (result : ResponseStatus) (asked : list Z) :
  (Z.to_nat (MAX_RETRIES - retries) ≤ n)%nat →
  ∃ k : nat,
    read_loop answers n group retries result asked
    = (true, (in_hand answers (length asked) result k,
              asked ++ replicate k group))
    ∧ (k = 0%nat ∨ retries + Z.of_nat k ≤ MAX_RETRIES)
    ∧ (∀ i, (i < k)%nat → in_hand answers (length asked) result i ≠ SUCCESS)
    ∧ (retries + Z.of_nat k < MAX_RETRIES →
         in_hand answers (length asked) result k = SUCCESS).
Proof.
  revert retries result asked.
  induction n as [|n IH]; intros retries result asked Hn; simpl.
  - destruct (Z.ltb_spec retries MAX_RETRIES) as [Hlt|Hge]; [lia|]. simpl.
    exists 0%nat. simpl. rewrite app_nil_r.
    repeat split; auto; try lia.
  - destruct (Z.ltb_spec retries MAX_RETRIES) as [Hlt|Hge]; simpl.
    2:{ exists 0%nat. simpl. rewrite app_nil_r.
        repeat split; auto; try lia. }
    destruct (ResponseStatus_eqb result SUCCESS) eqn:Hres; simpl.
    { apply ResponseStatus_eqb_eq in Hres.
      exists 0%nat. simpl. rewrite app_nil_r.
      repeat split; auto; try lia. }
    assert (result ≠ SUCCESS) as Hne.
    { intros Heq. apply ResponseStatus_eqb_eq in Heq. congruence. }
    destruct (IH (retries + 1) (answers (length asked)) (asked ++ [group]))
      as (k & Hrun & Hbound & Hbefore & Hearly).
    { unfold MAX_RETRIES in *. lia. }
    rewrite length_app in *. simpl in Hrun, Hbefore, Hearly.
    assert (∀ j, in_hand answers (length asked + 1) (answers (length asked)) j
                 = in_hand answers (length asked) result (S j)) as Hshift.
    { intros [|j]; simpl; f_equal; lia. }
    exists (S k). rewrite Hrun, Hshift.
    split; [by rewrite <- app_assoc|]. split.
    { right. destruct Hbound as [->|Hbound]; lia. }
    split.
    + intros [|i] Hi; [done|]. rewrite <- Hshift. apply Hbefore. lia.
    + intros Hk. rewrite <- Hshift. apply Hearly. lia.
Qed.

(** X19. [_async_read] asks the device for the group between 1 and 5
    times: each time with a result other than SUCCESS in hand, stopping
    short of 5 only on SUCCESS, and it returns the answer to its last
    request. *)
Theorem async_read_asks_up_to_five_times (answers : nat → ResponseStatus)
    (group : Z) (asked : list Z) :
  ∃ k : nat,
    (1 ≤ k ≤ 5)%nat
    ∧ _async_read answers group asked
      = (answers (length asked + k - 1)%nat, asked ++ replicate k group)
    ∧ (∀ i, (i < k - 1)%nat → answers (length asked + i)%nat ≠ SUCCESS)
    ∧ ((k < 5)%nat → answers (length asked + k - 1)%nat = SUCCESS).
Proof.
  destruct (read_loop_spec answers (Z.to_nat MAX_RETRIES) group 0 UNSENT asked)
    as (k & Hrun & Hbound & Hbefore & Hearly).
  { unfold MAX_RETRIES. lia. }
  unfold MAX_RETRIES in Hbound, Hearly.
  destruct k as [|k].
  { simpl in Hearly. discriminate Hearly. lia. }
  exists (S k). split; [lia|]. unfold _async_read. rewrite Hrun.
  cbn [snd in_hand].
  replace (length asked + S k - 1)%nat with (length asked + k)%nat by lia.
  split; [done|]. split.
  - intros i Hi. apply (Hbefore (S i)). lia.
  - intros Hk. apply Hearly. lia.
Qed.

End ReadLoop.

Section Writes.
Import Py Constants OpFlags Registry.

Lemma is_dirty_load (v : Value) (f : OperatingFlag) : is_dirty (load v f) = false.
Proof. unfold is_dirty, value_eqb. simpl. by rewrite Z.eqb_refl. Qed.

Lemma dirty_flags_cons (nm : string) (f : OperatingFlag)
    (es : list (string * OperatingFlag)) :
  dirty_flags ((nm, f) :: es)
  = if is_dirty f then (nm, f) :: dirty_flags es else dirty_flags es.
Proof.
  unfold dirty_flags. destruct (is_dirty f) eqn:Hd.
  - by rewrite filter_cons_True.
  - rewrite filter_cons_False; [done|]. simpl. congruence.
Qed.

(** [_async_write] to a device that acknowledges every command. *)
Lemma async_write_acknowledged (answers : nat → ResponseStatus)
    (fi : OperatingFlagInfo) (f : OperatingFlag) (m : Manager) :
  (∀ i, answers i = SUCCESS) →
  dict_get (name fi) (_op_flags m) = Some f →
  ∃ (v : Value) (m' : Manager),
    _async_write answers fi m = (Ok SUCCESS, m')
    ∧ _op_flags m' = dict_set (name fi) (load v f) (_op_flags m)
    ∧ _flags m' = _flags m
    ∧ (length (sent m') ≤ length (sent m) + 1)%nat.
Proof.
  intros Hack Hf. unfold _async_write. rewrite Hf.
  destruct (if truth (new_value f) then set_cmd fi else unset_cmd fi)
    as [cmd|].
  - destruct (write_loop_spec answers (Z.to_nat MAX_RETRIES) cmd 0 UNSENT m)
      as (k & m' & Hrun & Hsent & Hops & Hflags & Hbound & Hbefore & Hearly).
    { unfold MAX_RETRIES. lia. }
    unfold MAX_RETRIES in Hbound, Hearly.
    assert (k = 1%nat) as ->.
    { destruct k as [|[|k]]; [|done|].
      - simpl in Hearly. discriminate Hearly. lia.
      - destruct (Hbefore 1%nat); [lia|]. simpl. apply Hack. }
    rewrite Hrun. cbn [snd in_hand]. rewrite Hack. cbn [ResponseStatus_eqb].
    eexists (new_value f), _. split; [done|]. simpl.
    rewrite Hops, Hflags, Hsent, length_app. simpl. done.
  - eexists (value f), _. split; [done|]. simpl. split; [done|].
    split; [done|]. lia.
Qed.

(** [_async_write] of a command to a device that never acknowledges. *)
Lemma async_write_unacknowledged (answers : nat → ResponseStatus)
    (fi : OperatingFlagInfo) (f : OperatingFlag) (cmd : Z) (m : Manager) :
  (∀ i, answers i ≠ SUCCESS) →
  dict_get (name fi) (_op_flags m) = Some f →
  (if truth (new_value f) then set_cmd fi else unset_cmd fi) = Some cmd →
  ∃ (r : ResponseStatus) (m' : Manager),
    _async_write answers fi m = (Ok r, m')
    ∧ r ≠ SUCCESS
    ∧ _op_flags m' = _op_flags m
    ∧ _flags m' = _flags m
    ∧ sent m' = sent m ++ replicate 5 cmd.
Proof.
  intros Hnak Hf Hcmd. unfold _async_write. rewrite Hf, Hcmd.
  destruct (write_loop_spec answers (Z.to_nat MAX_RETRIES) cmd 0 UNSENT m)
    as (k & m' & Hrun & Hsent & Hops & Hflags & Hbound & Hbefore & Hearly).
  { unfold MAX_RETRIES. lia. }
  unfold MAX_RETRIES in Hbound, Hearly.
  assert (∀ i, in_hand answers (length (sent m)) UNSENT i ≠ SUCCESS) as Hnone.
  { intros [|i]; simpl; [done|apply Hnak]. }
  assert (k = 5%nat) as ->.
  { destruct (decide (Z.of_nat k < 5)) as [Hlt|Hge]; [|lia].
    by destruct (Hnone k); apply Hearly. }
  rewrite Hrun. cbn [snd].
  destruct (ResponseStatus_eqb _ SUCCESS) eqn:Hres.
  { apply ResponseStatus_eqb_eq in Hres. by destruct (Hnone 5%nat). }
  eexists _, m'. split; [done|]. split; [apply Hnone|done].
Qed.

Lemma write_names_settles (answers : nat → ResponseStatus)
    (es : list (string * OperatingFlag)) (results : list ResponseStatus)
    (m : Manager) :
  (∀ i, answers i = SUCCESS) →
  (∀ nm fi, _flags m !! nm = Some fi → name fi = nm) →
  NoDup (dict_keys es) →
  (∀ nm f, (nm, f) ∈ es →
     dict_get nm (_op_flags m) = Some f
     ∧ (is_dirty f = true → is_Some (_flags m !! nm))) →
  ∃ m',
    write_names answers (dict_keys es) results m
    = (Ok (results ++ replicate (length (dirty_flags es)) SUCCESS), m')
    ∧ _flags m' = _flags m
    ∧ dict_keys (_op_flags m') = dict_keys (_op_flags m)
    ∧ (∀ nm, nm ∈ dict_keys es →
         ∃ f, dict_get nm (_op_flags m') = Some f ∧ is_dirty f = false)
    ∧ (∀ nm, nm ∉ dict_keys es →
         dict_get nm (_op_flags m') = dict_get nm (_op_flags m))
    ∧ (∀ nm f, dict_get nm (_op_flags m) = Some f → is_dirty f = false →
         dict_get nm (_op_flags m') = Some f)
    ∧ (length (sent m') ≤ length (sent m) + length (dirty_flags es))%nat.
Proof.
  intros Hack. revert results m.
  induction es as [|[nm0 f0] es IH]; intros results m Hnames Hnd Hes.
  - exists m. simpl. rewrite app_nil_r. split; [done|]. split; [done|].
    split; [done|]. split.
    { intros nm Hin. by apply elem_of_nil in Hin. }
    split; [done|]. split; [done|]. lia.
  - simpl in Hnd. apply NoDup_cons in Hnd as [Hfresh Hnd].
    destruct (Hes nm0 f0) as [Hf0 Hsub]; [left|].
    rewrite dirty_flags_cons. cbn [dict_keys map fst write_names].
    unfold write_visit. rewrite Hf0.
    destruct (is_dirty f0) eqn:Hdirty.
    + destruct (Hsub eq_refl) as [fi Hfi]. rewrite Hfi.
      pose proof (Hnames _ _ Hfi) as Hname.
      destruct (async_write_acknowledged answers fi f0 m Hack)
        as (v & m1 & Hrun & Hops1 & Hflags1 & Hsent1); [by rewrite Hname|].
      rewrite Hrun. rewrite Hname in Hops1.
      destruct (IH (results ++ [SUCCESS]) m1) as
        (m' & Hrest & Hflags & Hkeys & Hclean & Hout & Hkept & Hsent);
        [by rewrite Hflags1|done| |].
      { intros nm f Hin. destruct (Hes nm f) as [Hf Hs]; [by right|].
        rewrite Hflags1, Hops1. split; [|done].
        rewrite dict_get_set_ne; [done|].
        intros <-. apply Hfresh. apply list_elem_of_fmap.
        by exists (nm0, f). }
      exists m'. fold (dict_keys es). rewrite Hrest, <- app_assoc.
      split; [done|]. split; [congruence|]. split.
      { rewrite Hkeys, Hops1, dict_keys_set. by rewrite Hf0. }
      split.
      { intros nm Hin. apply elem_of_cons in Hin as [->|Hin]; [|by apply Hclean].
        exists (load v f0). split; [|apply is_dirty_load].
        rewrite Hout by done. rewrite Hops1. apply dict_get_set_eq. }
      split.
      { intros nm Hnm. apply not_elem_of_cons in Hnm as [Hne Hnm].
        rewrite Hout by done. rewrite Hops1. by rewrite dict_get_set_ne. }
      split.
      { intros nm f Hf Hc. apply Hkept; [|done].
        rewrite Hops1, dict_get_set_ne; [done|].
        intros <-. congruence. }
      simpl. lia.
    + destruct (IH results m) as
        (m' & Hrest & Hflags & Hkeys & Hclean & Hout & Hkept & Hsent);
        [done|done| |].
      { intros nm f Hin. apply Hes. by right. }
      exists m'. fold (dict_keys es). rewrite Hrest.
      split; [done|]. split; [done|]. split; [done|]. split.
      { intros nm Hin. apply elem_of_cons in Hin as [->|Hin]; [|by apply Hclean].
        exists f0. split; [|done]. by apply Hkept. }
      split.
      { intros nm Hnm. apply not_elem_of_cons in Hnm as [Hne Hnm].
        by apply Hout. }
      done.
Qed.

(** X20. [async_write] to a device that acknowledges every command leaves
    no write pending: when the pending flags are subscribed it does not
    raise, has SUCCESS for each of them, sends one command for each at
    most, and afterwards no flag is dirty, the flags that were not dirty
    being as they were. *)
Theorem async_write_settles (answers : nat → ResponseStatus) (m : Manager) :
  (∀ i, answers i = SUCCESS) →
  well_filed m →
  NoDup (dict_keys (_op_flags m)) →
  (∀ nm f, dict_get nm (_op_flags m) = Some f → is_dirty f = true →
     is_Some (_flags m !! nm)) →
  ∃ m',
    async_write answers m
    = (Ok (replicate (length (dirty_flags (_op_flags m))) SUCCESS), m')
    ∧ dict_keys (_op_flags m') = dict_keys (_op_flags m)
    ∧ (∀ nm f, dict_get nm (_op_flags m') = Some f → is_dirty f = false)
    ∧ (∀ nm f, dict_get nm (_op_flags m) = Some f → is_dirty f = false →
         dict_get nm (_op_flags m') = Some f)
    ∧ _flags m' = _flags m
    ∧ (length (sent m')
       ≤ length (sent m) + length (dirty_flags (_op_flags m)))%nat.
Proof.
  intros Hack [Hnames _] Hnd Hsub.
  destruct (write_names_settles answers (_op_flags m) [] m Hack Hnames Hnd)
    as (m' & Hrun & Hflags & Hkeys & Hclean & _ & Hkept & Hsent).
  { intros nm f Hin. apply dict_get_elem_of in Hin; [|done].
    split; [done|]. by apply Hsub. }
  exists m'. unfold async_write. rewrite Hrun.
  split; [done|]. split; [done|]. split; [|done].
  intros nm f Hf. destruct (Hclean nm) as (f' & Hf' & Hc).
  { rewrite <- Hkeys.
    destruct (decide (nm ∈ dict_keys (_op_flags m'))) as [|Hout]; [done|].
    apply dict_get_None_keys in Hout. congruence. }
  congruence.
Qed.

Lemma write_names_unanswered (answers : nat → ResponseStatus)
    (es : list (string * OperatingFlag)) (results : list ResponseStatus)
    (m : Manager) :
  (∀ i, answers i ≠ SUCCESS) →
  (∀ nm fi, _flags m !! nm = Some fi → name fi = nm) →
  (∀ nm f, (nm, f) ∈ es →
     dict_get nm (_op_flags m) = Some f
     ∧ (is_dirty f = true →
        ∃ fi, _flags m !! nm = Some fi
              ∧ is_Some (if truth (new_value f) then set_cmd fi
                         else unset_cmd fi))) →
  ∃ results' m',
    write_names answers (dict_keys es) results m = (Ok (results ++ results'), m')
    ∧ _op_flags m' = _op_flags m
    ∧ _flags m' = _flags m
    ∧ Forall (λ r, r ≠ SUCCESS) results'
    ∧ length results' = length (dirty_flags es)
    ∧ length (sent m') = (length (sent m) + 5 * length (dirty_flags es))%nat.
Proof.
  intros Hnak. revert results m.
  induction es as [|[nm0 f0] es IH]; intros results m Hnames Hes.
  - exists [], m. simpl. rewrite app_nil_r. split; [done|]. split; [done|].
    split; [done|]. split; [constructor|]. split; [done|]. lia.
  - destruct (Hes nm0 f0) as [Hf0 Hsub]; [left|].
    rewrite dirty_flags_cons. cbn [dict_keys map fst write_names].
    unfold write_visit. rewrite Hf0.
    destruct (is_dirty f0) eqn:Hdirty.
    + destruct (Hsub eq_refl) as (fi & Hfi & [cmd Hcmd]). rewrite Hfi.
      pose proof (Hnames _ _ Hfi) as Hname.
      destruct (async_write_unacknowledged answers fi f0 cmd m Hnak)
        as (r & m1 & Hrun & Hr & Hops1 & Hflags1 & Hsent1);
        [by rewrite Hname|done|].
      rewrite Hrun.
      destruct (IH (results ++ [r]) m1) as
        (results' & m' & Hrest & Hops & Hflags & Hres & Hlen & Hsent);
        [by rewrite Hflags1| |].
      { intros nm f Hin. rewrite Hops1, Hflags1. apply Hes. by right. }
      exists (r :: results'), m'. fold (dict_keys es).
      rewrite Hrest, <- app_assoc.
      split; [done|]. split; [congruence|]. split; [congruence|].
      split; [by constructor|]. split; [simpl; by rewrite Hlen|].
      rewrite Hsent, Hsent1, length_app, length_replicate. simpl. lia.
    + destruct (IH results m) as
        (results' & m' & Hrest & Hops & Hflags & Hres & Hlen & Hsent);
        [done| |].
      { intros nm f Hin. apply Hes. by right. }
      exists results', m'. fold (dict_keys es). by rewrite Hrest.
Qed.

(** X21. [async_write] to a device that acknowledges nothing commits
    nothing: when the pending flags are subscribed with a command it does
    not raise, has a result other than SUCCESS for each of them, sends
    five commands for each, and leaves every flag as it was, the pending
    writes pending. *)
Theorem async_write_unanswered (answers : nat → ResponseStatus) (m : Manager) :
  (∀ i, answers i ≠ SUCCESS) →
  well_filed m →
  NoDup (dict_keys (_op_flags m)) →
  (∀ nm f, dict_get nm (_op_flags m) = Some f → is_dirty f = true →
     ∃ fi, _flags m !! nm = Some fi
           ∧ is_Some (if truth (new_value f) then set_cmd fi
                      else unset_cmd fi)) →
  ∃ results m',
    async_write answers m = (Ok results, m')
    ∧ _op_flags m' = _op_flags m
    ∧ Forall (λ r, r ≠ SUCCESS) results
    ∧ length results = length (dirty_flags (_op_flags m))
    ∧ length (sent m')
      = (length (sent m) + 5 * length (dirty_flags (_op_flags m)))%nat.
Proof.
  intros Hnak [Hnames _] Hnd Hsub.
  destruct (write_names_unanswered answers (_op_flags m) [] m Hnak Hnames)
    as (results & m' & Hrun & Hops & _ & Hres & Hlen & Hsent).
  { intros nm f Hin. apply dict_get_elem_of in Hin; [|done].
    split; [done|]. by apply Hsub. }
  exists results, m'. unfold async_write. by rewrite Hrun.
Qed.

End Writes.

Section Frame.
Import Py Constants OpFlags Registry.

Lemma update_bits_frame (d : list (Z * OperatingFlagInfo)) (keys : list Z)
    (flags : Z) (m : Manager) :
  let m' := snd (update_bits d keys flags m) in
  _groups m' = _groups m ∧ _flags m' = _flags m ∧ sent m' = sent m
  ∧ dict_keys (_op_flags m') = dict_keys (_op_flags m)
  ∧ (∀ nm, (∀ b fi, (b, fi) ∈ d → name fi ≠ nm) →
       dict_get nm (_op_flags m') = dict_get nm (_op_flags m)).
Proof.
  revert m. induction keys as [|k keys IH]; intros m; simpl; [done|].
  destruct (dict_get k d) as [fi|] eqn:Hk; [|done].
  destruct (dict_get (name fi) (_op_flags m)) as [f|] eqn:Hf; [|done].
  destruct (bit_value flags (bit fi)) as [v|e]; [|done].
  destruct (IH (set_op_flags
                  (dict_set (name fi) (load v f) (_op_flags m)) m))
    as (Hg & Hfl & Hs & Hkeys & Hother).
  simpl in Hg, Hfl, Hs, Hkeys, Hother.
  split; [done|]. split; [done|]. split; [done|]. split.
  - rewrite Hkeys, dict_keys_set. by rewrite Hf.
  - intros nm Hnm. rewrite Hother by done.
    apply dict_get_set_ne. apply (Hnm k). by apply dict_get_Some_elem_of.
Qed.

(** X22. A delivery of a register touches the flags bound in its group
    and nothing else, whether [_update_flags] returns or raises: the
    bindings and the commands sent are as they were, no flag is added or
    dropped, and a flag that no binding of the group names keeps its
    values. *)
Theorem update_flags_frame (group flags : Z) (m : Manager) :
  let m' := snd (_update_flags group flags m) in
  _groups m' = _groups m ∧ _flags m' = _flags m ∧ sent m' = sent m
  ∧ dict_keys (_op_flags m') = dict_keys (_op_flags m)
  ∧ (∀ nm,
       match _groups m !! group with
       | Some (Bits d) => ∀ b fi, (b, fi) ∈ d → name fi ≠ nm
       | Some (Whole fi) => name fi ≠ nm
       | None => True
       end →
       dict_get nm (_op_flags m') = dict_get nm (_op_flags m)).
Proof.
  unfold _update_flags.
  destruct (_groups m !! group) as [[d|fi]|] eqn:Hg; [| |done].
  - destruct d as [|e d]; [done|]. apply update_bits_frame.
  - destruct (dict_get (name fi) (_op_flags m)) as [f|] eqn:Hf; [|done].
    cbn [snd set_op_flags _groups _flags sent _op_flags].
    split; [done|]. split; [done|]. split; [done|]. split.
    + rewrite dict_keys_set. by rewrite Hf.
    + intros nm Hnm. by apply dict_get_set_ne.
Qed.

End Frame.

Section C8.
Import Py Constants OpFlags Registry Written.

(** One write of [_async_write], for any answers of the device. *)
Lemma async_write_one (answers : nat → ResponseStatus)
    (fi : OperatingFlagInfo) (f : OperatingFlag) (m : Manager) :
  dict_get (name fi) (_op_flags m) = Some f →
  ∃ (k : nat) (r : ResponseStatus) (m1 : Manager),
    let w := mkWrite (name fi) f fi (length (sent m)) k r in
    _async_write answers fi m = (Ok r, m1)
    ∧ as_specified answers w
    ∧ sent m1 = sent m ++ commands w
    ∧ length (sent m1) = (length (sent m) + k)%nat
    ∧ _flags m1 = _flags m
    ∧ dict_get (name fi) (_op_flags m1) = Some (written w)
    ∧ (∀ nm, nm ≠ name fi →
         dict_get nm (_op_flags m1) = dict_get nm (_op_flags m)).
Proof.
  intros Hf. unfold _async_write. rewrite Hf.
  change (if truth (new_value f) then set_cmd fi else unset_cmd fi)
    with (command fi f).
  unfold as_specified, commands, written. cbn [w_info w_flag w_sends w_result w_start].
  destruct (command fi f) as [cmd|] eqn:Hcmd.
  - destruct (write_loop_spec answers (Z.to_nat MAX_RETRIES) cmd 0 UNSENT m)
      as (k & m' & Hrun & Hsent & Hops & Hflags & Hbound & Hbefore & Hearly).
    { unfold MAX_RETRIES. lia. }
    unfold MAX_RETRIES in Hbound, Hearly.
    destruct k as [|k].
    { simpl in Hearly. discriminate Hearly. lia. }
    rewrite Hrun. cbn [snd in_hand] in *.
    set (r := answers (length (sent m) + k)%nat) in *.
    exists (S k), r.
    eexists. split; [reflexivity|].
    split.
    { split; [lia|]. split.
      { unfold r. f_equal. lia. }
      split.
      { intros i Hi. apply (Hbefore (S i)). lia. }
      intros Hk. apply Hearly. lia. }
    destruct (ResponseStatus_eqb r SUCCESS) eqn:Hres;
      cbn [sent _flags _op_flags set_op_flags].
    + split; [done|]. split; [by rewrite Hsent, length_app, length_replicate|].
      split; [done|]. split; [by rewrite dict_get_set_eq|].
      intros nm Hnm. rewrite dict_get_set_ne by done. by rewrite Hops.
    + split; [done|]. split; [by rewrite Hsent, length_app, length_replicate|].
      split; [done|]. split; [by rewrite Hops|].
      intros nm Hnm. by rewrite Hops.
  - exists 0%nat, SUCCESS. eexists. split; [reflexivity|].
    split; [done|]. cbn [sent _flags _op_flags set_op_flags].
    split; [by rewrite app_nil_r|]. split; [lia|]. split; [done|].
    split; [by rewrite dict_get_set_eq|].
    intros nm Hnm. by rewrite dict_get_set_ne.
Qed.

Lemma dirty_flags_elem_of (nm : string) (f : OperatingFlag)
    (es : list (string * OperatingFlag)) :
  (nm, f) ∈ dirty_flags es ↔ (nm, f) ∈ es ∧ is_dirty f = true.
Proof. unfold dirty_flags. rewrite list_elem_of_filter. simpl. tauto. Qed.

(** The loop of [async_write] over the entries [es] of [_op_flags] that
    are still to be visited. *)
Lemma write_names_commits (answers : nat → ResponseStatus)
    (es : list (string * OperatingFlag)) (results : list ResponseStatus)
    (m : Manager) :
  NoDup (dict_keys es) →
  (∀ nm fi, _flags m !! nm = Some fi → name fi = nm) →
  (∀ nm f, (nm, f) ∈ es → dict_get nm (_op_flags m) = Some f) →
  ∃ (ws : list Write) (m' : Manager),
    snd (write_names answers (dict_keys es) results m) = m'
    ∧ Forall (as_specified answers) ws
    ∧ chained (length (sent m)) ws
    ∧ Forall (λ w, _flags m !! w_name w = Some (w_info w)) ws
    ∧ (∀ w, w ∈ ws → (w_name w, w_flag w) ∈ dirty_flags es)
    ∧ sent m' = sent m ++ concat (map commands ws)
    ∧ _flags m' = _flags m
    ∧ (∀ w, w ∈ ws → dict_get (w_name w) (_op_flags m') = Some (written w))
    ∧ (∀ nm, (∀ w, w ∈ ws → w_name w ≠ nm) →
         dict_get nm (_op_flags m') = dict_get nm (_op_flags m))
    ∧ (fst (write_names answers (dict_keys es) results m)
         = Ok (results ++ map w_result ws)
       ∧ found ws = dirty_flags es
       ∨ fst (write_names answers (dict_keys es) results m) = Raise KeyError
         ∧ ∃ nm f rest,
             dirty_flags es = found ws ++ (nm, f) :: rest
             ∧ _flags m !! nm = None).
Proof.
  revert results m.
  induction es as [|[nm0 f0] es IH]; intros results m Hnd Hnames Hes.
  - exists [], m. simpl. rewrite !app_nil_r.
    split; [done|]. split; [constructor|]. split; [done|].
    split; [constructor|]. split.
    { intros w Hw. by apply elem_of_nil in Hw. }
    split; [done|]. split; [done|]. split.
    { intros w Hw. by apply elem_of_nil in Hw. }
    split; [done|]. by left.
  - simpl in Hnd. apply NoDup_cons in Hnd as [Hfresh Hnd].
    pose proof (Hes nm0 f0 (list_elem_of_here _ _)) as Hf0.
    assert (∀ nm f, (nm, f) ∈ es → nm ≠ nm0) as Hother.
    { intros nm f Hin ->. apply Hfresh. apply list_elem_of_fmap.
      by exists (nm0, f). }
    rewrite dirty_flags_cons. cbn [dict_keys map fst write_names].
    fold (dict_keys es). unfold write_visit. rewrite Hf0.
    destruct (is_dirty f0) eqn:Hdirty.
    + destruct (_flags m !! nm0) as [fi|] eqn:Hfi.
      * pose proof (Hnames _ _ Hfi) as Hname.
        destruct (async_write_one answers fi f0 m)
          as (k & r & m1 & Hrun & Hspec & Hsent1 & Hlen1 & Hflags1 & Hw1 & Hrest1);
          [by rewrite Hname|].
        rewrite Hname in Hspec, Hsent1, Hw1, Hrest1.
        set (w := mkWrite nm0 f0 fi (length (sent m)) k r) in *.
        rewrite Hrun.
        destruct (IH (results ++ [r]) m1) as
          (ws & m' & Hsnd & Hall & Hchain & Hinfo & Hfound & Hsent & Hflags
           & Hws & Hout & Hend); [done|by rewrite Hflags1| |].
        { intros nm f Hin. rewrite Hrest1 by (by eapply Hother).
          apply Hes. by right. }
        assert (∀ w', w' ∈ ws → w_name w' ≠ nm0) as Hfar.
        { intros w' Hw'. apply Hfound, dirty_flags_elem_of in Hw' as [Hw' _].
          by eapply Hother. }
        exists (w :: ws), m'.
        split; [done|]. split; [by constructor|]. split.
        { simpl. split; [done|]. by rewrite <- Hlen1. }
        split.
        { constructor; [done|]. by rewrite <- Hflags1. }
        split.
        { intros w' Hw'. apply elem_of_cons in Hw' as [->|Hw'].
          - apply list_elem_of_here.
          - apply list_elem_of_further. by apply Hfound. }
        split.
        { rewrite Hsent, Hsent1. simpl. by rewrite <- app_assoc. }
        split; [congruence|]. split.
        { intros w' Hw'. apply elem_of_cons in Hw' as [->|Hw']; [|by apply Hws].
          cbn [w_name w]. rewrite Hout by done. done. }
        split.
        { intros nm Hnm. rewrite Hout.
          - apply Hrest1. intros ->. by apply (Hnm w (list_elem_of_here _ _)).
          - intros w' Hw'. apply Hnm. by apply list_elem_of_further. }
        destruct Hend as [[Hok Hall']|(Hraise & nm & f & rest & Hcut & Hnone)].
        -- left. rewrite Hok, <- app_assoc. split; [done|].
           unfold found in *. simpl. by rewrite Hall'.
        -- right. split; [done|]. exists nm, f, rest.
           unfold found in *. simpl. rewrite Hcut. split; [done|]. congruence.
      * exists [], m. simpl. rewrite !app_nil_r.
        split; [done|]. split; [constructor|]. split; [done|].
        split; [constructor|]. split.
        { intros w Hw. by apply elem_of_nil in Hw. }
        split; [done|]. split; [done|]. split.
        { intros w Hw. by apply elem_of_nil in Hw. }
        split; [done|]. right. split; [done|].
        by exists nm0, f0, (dirty_flags es).
    + destruct (IH results m) as
        (ws & m' & Hsnd & Hall & Hchain & Hinfo & Hfound & Hsent & Hflags
         & Hws & Hout & Hend); [done|done| |].
      { intros nm f Hin. apply Hes. by right. }
      exists ws, m'. done.
Qed.

(** C8. [async_write] goes through the flags in their order and writes
    the dirty ones, one write after the other; nothing is sent for a flag
    that is not dirty, and such a flag is left as it is.  Each write is
    made as specified ([as_specified]): the command bound for
    the pending value is sent between 1 and 5 times, again only after an
    answer other than SUCCESS, and on SUCCESS the pending value becomes
    the confirmed one, the flag being left alone otherwise; with no
    command bound nothing is sent, the pending value is reset to the
    confirmed one and the result is SUCCESS.  Every dirty flag is written
    when the dirty flags are all subscribed; at a dirty flag that is not,
    [async_write] raises [KeyError] with the flags before it written. *)
Theorem async_write_commits (answers : nat → ResponseStatus) (m : Manager) :
  NoDup (dict_keys (_op_flags m)) →
  (∀ nm fi, _flags m !! nm = Some fi → name fi = nm) →
  ∃ (ws : list Write) (m' : Manager),
    snd (async_write answers m) = m'
    ∧ Forall (as_specified answers) ws
    ∧ chained (length (sent m)) ws
    ∧ Forall (λ w, _flags m !! w_name w = Some (w_info w)) ws
    ∧ sent m' = sent m ++ concat (map commands ws)
    ∧ (∀ w, w ∈ ws → dict_get (w_name w) (_op_flags m') = Some (written w))
    ∧ (∀ nm f, dict_get nm (_op_flags m) = Some f → is_dirty f = false →
         dict_get nm (_op_flags m') = Some f)
    ∧ (∀ nm, (∀ w, w ∈ ws → w_name w ≠ nm) →
         dict_get nm (_op_flags m') = dict_get nm (_op_flags m))
    ∧ (fst (async_write answers m) = Ok (map w_result ws)
       ∧ found ws = dirty_flags (_op_flags m)
       ∨ fst (async_write answers m) = Raise KeyError
         ∧ ∃ nm f rest,
             dirty_flags (_op_flags m) = found ws ++ (nm, f) :: rest
             ∧ _flags m !! nm = None).
Proof.
  intros Hnd Hnames.
  destruct (write_names_commits answers (_op_flags m) [] m Hnd Hnames)
    as (ws & m' & Hsnd & Hall & Hchain & Hinfo & Hfound & Hsent & _
        & Hws & Hout & Hend).
  { intros nm f Hin. by apply dict_get_elem_of. }
  exists ws, m'. unfold async_write.
  split; [done|]. split; [done|]. split; [done|]. split; [done|].
  split; [done|]. split; [done|]. split; [|done].
  intros nm f Hf Hclean. rewrite Hout; [done|].
  intros w Hw <-. apply Hfound, dirty_flags_elem_of in Hw as [Hin Hd].
  apply dict_get_elem_of in Hin; [|done]. congruence.
Qed.

(** The led is switched on: one write, of one command, with SUCCESS, and
    the flag is on and clean. *)
Lemma async_write_commits_witness :
  ∃ w : Write,
    as_specified Led.obliging w
    ∧ found [w] = [("led_on"%string, Led.led_flag)]
    ∧ fst (async_write Led.obliging Led.led_manager) = Ok [w_result w]
    ∧ sent (snd (async_write Led.obliging Led.led_manager)) = commands w
    ∧ dict_get (w_name w)
        (_op_flags (snd (async_write Led.obliging Led.led_manager)))
      = Some (written w).
Proof.
  destruct (async_write_commits Led.obliging Led.led_manager)
    as (ws & m' & Hsnd & Hall & _ & _ & Hsent & Hws & _ & _ & Hend).
  - apply NoDup_singleton.
  - apply well_filed_subscribe, well_filed_init.
  - destruct Hend as [[Hok Hfound]|[Hraise _]]; [|discriminate Hraise].
    destruct ws as [|w [|w' ws]]; [discriminate Hfound| |discriminate Hfound].
    exists w. apply Forall_inv in Hall.
    split; [exact Hall|]. split; [exact Hfound|]. split; [exact Hok|].
    rewrite Hsnd. split.
    + rewrite Hsent. simpl. by rewrite app_nil_r.
    + apply Hws. apply list_elem_of_here.
Defined.

End C8.

(** * Further facts: the coroutines of the modem manager *)

Section ModemSteps.
Import Asyncio Aldb Py Constants ImReadManager Modem ImEvents.
Variable create_from_byte : Z → ControlFlags.

Lemma modem_run_app (s : State) (es1 es2 : list Event) :
  run create_from_byte s (es1 ++ es2)
  = run create_from_byte (run create_from_byte s es1) es2.
Proof. apply fold_left_app. Qed.

(** Beside a load, a step leaves the lock alone: the counter stays under
    the budget wherever a get-next call is under way. *)
Lemma beside_load_step (s : State) (e : Event) :
  loading s = 0%nat → woken (manager s) = 0%nat →
  (asking s = 0%nat ∨ _retries (manager s) < 3) →
  beside_load e →
  loading (step create_from_byte s e) = 0%nat
  ∧ woken (manager (step create_from_byte s e)) = 0%nat
  ∧ (asking (step create_from_byte s e) = 0%nat
     ∨ _retries (manager (step create_from_byte s e)) < 3)
  ∧ _load_lock (manager (step create_from_byte s e)) = _load_lock (manager s)
  ∧ errors (manager (step create_from_byte s e)) = errors (manager s)
  ∧ returned (step create_from_byte s e) = returned s
  ∧ ∃ k, sent (manager (step create_from_byte s e))
         = sent (manager s) ++ replicate k GetNext.
Proof.
  intros Hload Hwoken Hunder He.
  destruct s as [[a r lk st wk er] ld ak rt]. simpl in *. subst ld wk.
  destruct e as [|response| |response|[[[[[flags group] address] d1] d2] d3]|];
    try done; simpl.
  - (* a call of _get_next_record *)
    unfold calls_get_next, next_turns. simpl.
    do 2 (split; [done|]). split; [right; lia|].
    do 3 (split; [done|]). by exists 1%nat.
  - (* a get-next send returns *)
    unfold next_returns. simpl. destruct ak as [|ak]; simpl.
    { do 2 (split; [done|]). split; [by left|]. do 3 (split; [done|]).
      exists 0%nat. by rewrite app_nil_r. }
    destruct Hunder as [Hnone|Hunder]; [done|].
    unfold next_turns, _max_retries. simpl.
    destruct (Z.leb_spec 3 (r + 0)) as [Hge|Hlt]; [lia|].
    destruct response; simpl.
    + do 2 (split; [done|]). split; [right; lia|]. do 3 (split; [done|]).
      exists 0%nat. by rewrite app_nil_r.
    + do 2 (split; [done|]). split; [right; lia|]. do 3 (split; [done|]).
      by exists 1%nat.
  - (* a record is delivered *)
    do 2 (split; [done|]). split; [done|]. do 3 (split; [done|]).
    exists 0%nat. by rewrite app_nil_r.
  - (* nobody was woken *)
    unfold wakes. simpl.
    do 2 (split; [done|]). split; [done|]. do 3 (split; [done|]).
    exists 0%nat. by rewrite app_nil_r.
Qed.

Lemma beside_load_run (es : list Event) (s : State) :
  loading s = 0%nat → woken (manager s) = 0%nat →
  (asking s = 0%nat ∨ _retries (manager s) < 3) →
  Forall beside_load es →
  loading (run create_from_byte s es) = 0%nat
  ∧ woken (manager (run create_from_byte s es)) = 0%nat
  ∧ (asking (run create_from_byte s es) = 0%nat
     ∨ _retries (manager (run create_from_byte s es)) < 3)
  ∧ _load_lock (manager (run create_from_byte s es)) = _load_lock (manager s)
  ∧ errors (manager (run create_from_byte s es)) = errors (manager s)
  ∧ returned (run create_from_byte s es) = returned s
  ∧ ∃ k, sent (manager (run create_from_byte s es))
         = sent (manager s) ++ replicate k GetNext.
Proof.
  revert s. induction es as [|e es IH]; intros s Hload Hwoken Hunder Hes.
  - simpl. do 2 (split; [done|]). split; [done|]. do 3 (split; [done|]).
    exists 0%nat. by rewrite app_nil_r.
  - apply Forall_cons in Hes as [He Hes].
    destruct (beside_load_step s e Hload Hwoken Hunder He)
      as (H1 & H2 & H3 & H4 & H5 & H6 & k1 & H7).
    destruct (IH _ H1 H2 H3 Hes) as (G1 & G2 & G3 & G4 & G5 & G6 & k2 & G7).
    simpl. do 2 (split; [done|]). split; [done|].
    split; [congruence|]. split; [congruence|]. split; [congruence|].
    exists (k1 + k2)%nat.
    by rewrite G7, H7, <- app_assoc, replicate_add.
Qed.

(** X7. Beside a load the get-next loop never touches the gate.  While no
    call of [async_load] is under way or made, however calls of
    [_get_next_record], returns of their sends and deliveries interleave:
    the lock is as it was, nobody is woken, nothing is raised, no call of
    [async_load] returns, only get-next requests are sent, and a get-next
    call that is refused asks again, so that no call gives up. *)
Theorem get_next_beside_load_keeps_the_gate (s : State) (es : list Event) :
  loading s = 0%nat → woken (manager s) = 0%nat →
  (asking s = 0%nat ∨ _retries (manager s) < 3) →
  Forall beside_load es →
  let s' := run create_from_byte s es in
  _load_lock (manager s') = _load_lock (manager s)
  ∧ woken (manager s') = 0%nat
  ∧ errors (manager s') = errors (manager s)
  ∧ returned s' = returned s
  ∧ (∃ k, sent (manager s') = sent (manager s) ++ replicate k GetNext)
  ∧ ((0 < asking s')%nat →
     asking (step create_from_byte s' (NextReturns false)) = asking s'
     ∧ sent (manager (step create_from_byte s' (NextReturns false)))
       = sent (manager s') ++ [GetNext]).
Proof.
  intros Hload Hwoken Hunder Hes s'.
  destruct (beside_load_run es s Hload Hwoken Hunder Hes)
    as (H1 & H2 & H3 & H4 & H5 & H6 & H7).
  fold s' in H1, H2, H3, H4, H5, H6, H7. clearbody s'.
  do 5 (split; [done|]).
  intros Hasking. destruct s' as [[a r lk st wk er] ld ak rt]. simpl in *.
  destruct ak as [|ak]; [lia|]. destruct H3 as [H3|H3]; [done|].
  unfold next_returns, next_turns, _max_retries. simpl.
  destruct (Z.leb_spec 3 (r + 0)) as [Hge|Hlt]; [lia|]. done.
Qed.

(** X8. A load by itself sends between one and three get-first requests.
    From a manager at rest, after the call and [j] refusals, [j] at most
    2, the load has sent [j + 1] requests and is waiting for the answer to
    the last with the lock held.  An acknowledgement then leaves it
    suspended at its second [acquire], the lock held and nothing
    returned; a third refusal makes it release the lock and return
    SUCCESS. *)
Theorem load_alone_attempts (s : State) (j : nat) :
  at_rest s → (j ≤ 2)%nat →
  let refused :=
    run create_from_byte s (CallsLoad :: replicate j (FirstReturns false)) in
  let acknowledged := step create_from_byte refused (FirstReturns true) in
  let given_up := step create_from_byte refused (FirstReturns false) in
  (sent (manager refused) = sent (manager s) ++ replicate (S j) GetFirst
   ∧ loading refused = 1%nat
   ∧ locked (_load_lock (manager refused)) = true
   ∧ returned refused = returned s)
  ∧ (sent (manager acknowledged) = sent (manager refused)
     ∧ loading acknowledged = 0%nat
     ∧ locked (_load_lock (manager acknowledged)) = true
     ∧ waiters (_load_lock (manager acknowledged)) = [second_acquire]
     ∧ returned acknowledged = returned s)
  ∧ (j = 2%nat →
     sent (manager given_up) = sent (manager refused)
     ∧ loading given_up = 0%nat
     ∧ locked (_load_lock (manager given_up)) = false
     ∧ waiters (_load_lock (manager given_up)) = []
     ∧ returned given_up = returned s ++ [SUCCESS]).
Proof.
  intros (Hload & Hask & Hfree & Hnone & Hwoken) Hj.
  destruct s as [[a r [lk ws hw] st wk er] ld ak rt]. simpl in *.
  subst ld ak lk ws wk.
  destruct j as [|[|[|j]]]; [| | |lia]; cbv zeta; simpl;
    rewrite <- ?app_assoc; simpl; repeat split; done.
Qed.

Lemma another_call_run (n : nat) (s : State) :
  loading s = 1%nat → locked (_load_lock (manager s)) = true →
  let s' := run create_from_byte s (concat (replicate n another_call)) in
  sent (manager s') = sent (manager s) ++ replicate n GetFirst
  ∧ loading s' = 1%nat
  ∧ locked (_load_lock (manager s')) = true
  ∧ returned s' = returned s
  ∧ waiters (_load_lock (manager s'))
    = waiters (_load_lock (manager s)) ++ replicate n first_acquire.
Proof.
  revert s. induction n as [|n IH]; intros s Hload Hlocked.
  - simpl. by rewrite !app_nil_r.
  - destruct s as [[a r [lk ws hw] st wk er] ld ak rt]. simpl in Hload, Hlocked.
    subst ld lk.
    cbn [replicate concat another_call app]. cbv zeta. unfold run.
    cbn [fold_left].
    assert (step create_from_byte
              (step create_from_byte
                 (mkState (mkManager a r (mkLock true ws hw) st wk er) 1 ak rt)
                 CallsLoad) (FirstReturns false)
            = mkState (mkManager a 1 (mkLock true (ws ++ [first_acquire]) hw)
                         (st ++ [GetFirst]) wk er) 1 ak rt) as ->
      by reflexivity.
    destruct (IH (mkState (mkManager a 1 (mkLock true (ws ++ [first_acquire]) hw)
                             (st ++ [GetFirst]) wk er) 1 ak rt))
      as (H1 & H2 & H3 & H4 & H5); [done|done|].
    unfold run in H1, H2, H3, H4, H5. simpl in H1, H5.
    rewrite H1, H2, H3, H4, H5, <- !app_assoc. simpl. done.
Qed.

(** X23. The budget of three get-first requests is one counter shared by
    all calls, and every call of [async_load] sets it back: when
    [async_load] is called again each time a get-first request has been
    refused, the first load never gives up.  After [n] such rounds it has
    sent [n + 1] requests and waits for the answer to the last with the
    lock held, the [n] later calls are queued for the lock, and no call
    has returned. *)
Theorem load_budget_is_shared (s : State) (n : nat) :
  at_rest s →
  let s' := run create_from_byte s
              (CallsLoad :: concat (replicate n another_call)) in
  sent (manager s') = sent (manager s) ++ replicate (S n) GetFirst
  ∧ loading s' = 1%nat
  ∧ locked (_load_lock (manager s')) = true
  ∧ waiters (_load_lock (manager s')) = replicate n first_acquire
  ∧ returned s' = returned s.
Proof.
  intros (Hload & Hask & Hfree & Hnone & Hwoken).
  destruct s as [[a r [lk ws hw] st wk er] ld ak rt].
  simpl in Hload, Hask, Hfree, Hnone, Hwoken.
  subst ld ak lk ws wk. cbv zeta. unfold run. cbn [fold_left].
  assert (step create_from_byte
            (mkState (mkManager a r (mkLock false [] hw) st 0 er) 0 0 rt)
            CallsLoad
          = mkState (mkManager a 0 (mkLock true [] false) (st ++ [GetFirst]) 0 er)
              1 0 rt) as -> by reflexivity.
  destruct (another_call_run n
              (mkState (mkManager a 0 (mkLock true [] false) (st ++ [GetFirst]) 0 er)
                 1 0 rt)) as (H1 & H2 & H3 & H4 & H5); [done|done|].
  unfold run in H1, H2, H3, H4, H5. simpl in H1, H4, H5.
  rewrite H1, H2, H3, H4, H5, <- app_assoc. simpl. done.
Qed.

End ModemSteps.

Section MoreWitnesses.
Import Asyncio Aldb Py Constants Samples.

(** In a mirror holding 0x0FFF and 0x0FF7 the slot at 0x0FEF, 8 below
    the lower record, holds nothing. *)
Lemma next_missing_record_is_missing_witness :
  Flight.aligned (ReadManager._aldb Mirror.two_links)
  ∧ get 0x0fef (ReadManager._aldb Mirror.two_links) = None
  ∧ ∃ p, is_Some (get p (ReadManager._aldb Mirror.two_links)) ∧ 0x0fef = p - 8.
Proof.
  assert (Flight.aligned (ReadManager._aldb Mirror.two_links)) as Hgrid.
  { exists 7. intros k Hk. apply elem_of_iter in Hk.
    replace (iter (ReadManager._aldb Mirror.two_links)) with [0x0fff; 0x0ff7] in Hk
      by (vm_compute; reflexivity).
    apply elem_of_cons in Hk as [->|Hk]; [reflexivity|].
    apply elem_of_cons in Hk as [->|Hk]; [reflexivity|].
    by apply elem_of_nil in Hk. }
  split; [exact Hgrid|].
  apply (next_missing_record_is_missing Mirror.two_links 0x0fef Hgrid);
    vm_compute; reflexivity.
Defined.

(** After the read of 0x0FFF was served, a call for 0x0FF7 sends
    nothing. *)
Lemma nothing_after_a_return_witness :
  ReadManager.sent
    (ReadManager.run (ReadManager.init (mkALDB ∅ 0x0fff))
       (served ++ [ReadManager.CallRead 0x0ff7 1]))
  = ReadManager.sent (ReadManager.run (ReadManager.init (mkALDB ∅ 0x0fff)) served)
  ∧ ReadManager.returned
      (ReadManager.run (ReadManager.init (mkALDB ∅ 0x0fff))
         (served ++ [ReadManager.CallRead 0x0ff7 1])) = 1%nat.
Proof.
  apply (nothing_after_a_return (mkALDB ∅ 0x0fff) served
           [ReadManager.CallRead 0x0ff7 1]).
  vm_compute. reflexivity.
Defined.

(** The read of the record at 0x0FFF. *)
Lemma single_read_completes_witness :
  ReadManager.sent (ReadManager.run (Mirror.fresh 0x0fff) served) = [(0x0fff, 1)]
  ∧ ReadManager.returned (ReadManager.run (Mirror.fresh 0x0fff) served) = 1%nat.
Proof.
  destruct (single_read_completes 0x0fff 0x0fff 1 true (Mirror.link_at 0x0fff))
    as (Hsent & Hret & _); [reflexivity|reflexivity|].
  split; [exact Hsent|exact Hret].
Defined.

(** A bulk read is called, its send returns and its watchdog fires on an
    empty mirror: the watchdog asks for the bulk read again, and whatever
    follows, here another call and another wake-up, the one command sent
    stays the only one. *)
Lemma retries_are_never_sent_witness :
  ReadManager.sent
    (ReadManager.run (ReadManager.init (mkALDB ∅ 0x0fff))
       ([ReadManager.CallRead 0 0; ReadManager.SendReturns 0]
        ++ ReadManager.TimerWakes 0
           :: [ReadManager.CallRead 0x0fff 1; ReadManager.TimerWakes 0]))
  = [(0, 0)].
Proof.
  destruct (retries_are_never_sent (mkALDB ∅ 0x0fff)
              [ReadManager.CallRead 0 0; ReadManager.SendReturns 0]
              [ReadManager.CallRead 0x0fff 1; ReadManager.TimerWakes 0]
              0 0 0) as (Hsent & _).
  - replace (ReadManager.ready
               (ReadManager.handle (ReadManager.TimerWakes 0)
                  (ReadManager.run (ReadManager.init (mkALDB ∅ 0x0fff))
                     [ReadManager.CallRead 0 0; ReadManager.SendReturns 0])))
      with [ReadManager.Start 0 0] by (vm_compute; reflexivity).
    apply list_elem_of_here.
  - rewrite Hsent. vm_compute. reflexivity.
Defined.

(** A load from a modem that acknowledges the first request and then
    delivers a record. *)
Lemma acknowledged_load_never_completes_witness :
  fst (ImReadManager.async_load acknowledging 1 empty_modem)
  = ImReadManager.Suspended ImReadManager.second_acquire
  ∧ locked (ImReadManager._load_lock
              (Modem.deliveries refusing in_use 3 [(0xe2, 1, 0x1a2b3c, 255, 28, 1)]
                 (snd (ImReadManager.async_load acknowledging 1 empty_modem))))
    = true.
Proof.
  destruct (acknowledged_load_never_completes acknowledging refusing in_use
              0 3 [(0xe2, 1, 0x1a2b3c, 255, 28, 1)] empty_modem)
    as (Hsusp & Hlocked & _); [reflexivity|reflexivity|reflexivity|].
  split; [exact Hsusp|exact Hlocked].
Defined.

(** On a manager at rest [_get_next_record] is called, is refused, a
    record is delivered and the next request is acknowledged. *)
Lemma get_next_beside_load_keeps_the_gate_witness :
  ImReadManager._load_lock
    (ImEvents.manager
       (ImEvents.run in_use modem_at_rest
          [ImEvents.CallsGetNext; ImEvents.NextReturns false;
           ImEvents.Delivers (0xe2, 1, 0x1a2b3c, 255, 28, 1);
           ImEvents.NextReturns true]))
  = new_lock
  ∧ ImReadManager.errors
      (ImEvents.manager
         (ImEvents.run in_use modem_at_rest
            [ImEvents.CallsGetNext; ImEvents.NextReturns false;
             ImEvents.Delivers (0xe2, 1, 0x1a2b3c, 255, 28, 1);
             ImEvents.NextReturns true]))
    = [].
Proof.
  destruct (get_next_beside_load_keeps_the_gate in_use modem_at_rest
              [ImEvents.CallsGetNext; ImEvents.NextReturns false;
               ImEvents.Delivers (0xe2, 1, 0x1a2b3c, 255, 28, 1);
               ImEvents.NextReturns true])
    as (Hlock & _ & Herr & _).
  - reflexivity.
  - reflexivity.
  - left. reflexivity.
  - repeat constructor.
  - split; [exact Hlock|exact Herr].
Defined.

(** A load by itself that is refused twice and then acknowledged. *)
Lemma load_alone_attempts_witness :
  ImReadManager.sent
    (ImEvents.manager
       (ImEvents.run in_use modem_at_rest
          (ImEvents.CallsLoad :: replicate 2 (ImEvents.FirstReturns false))))
  = replicate 3 ImReadManager.GetFirst
  ∧ ImEvents.returned
      (ImEvents.step in_use
         (ImEvents.run in_use modem_at_rest
            (ImEvents.CallsLoad :: replicate 2 (ImEvents.FirstReturns false)))
         (ImEvents.FirstReturns false))
    = [SUCCESS].
Proof.
  destruct (load_alone_attempts in_use modem_at_rest 2)
    as ((Hsent & _) & _ & Hgiven).
  - repeat split.
  - lia.
  - destruct (Hgiven eq_refl) as (_ & _ & _ & _ & Hret).
    split; [exact Hsent|exact Hret].
Defined.

(** Four more calls of [async_load], each after a refusal: five get-first
    requests. *)
Lemma load_budget_is_shared_witness :
  ImReadManager.sent
    (ImEvents.manager
       (ImEvents.run in_use modem_at_rest
          (ImEvents.CallsLoad :: concat (replicate 4 ImEvents.another_call))))
  = replicate 5 ImReadManager.GetFirst.
Proof.
  destruct (load_budget_is_shared in_use modem_at_rest 4) as (Hsent & _).
  - repeat split.
  - exact Hsent.
Defined.

Lemma led_unbound_no_whole (g : Z) (fi : OpFlags.OperatingFlagInfo) :
  OpFlags._groups led_unbound !! g ≠ Some (OpFlags.Whole fi).
Proof. unfold led_unbound. simpl. by rewrite lookup_empty. Qed.

(** The led is subscribed to bit 2 of register 0. *)
Lemma subscribe_binds_witness :
  OpFlags._flags Led.led_manager !! "led_on"%string = Some Led.led_info.
Proof.
  destruct (subscribe_binds "led_on" 0 2 (Some 5) (Some 6) led_unbound)
    as (_ & Hflag & _); [apply led_unbound_no_whole|].
  exact Hflag.
Defined.

(** The led is subscribed and unsubscribed again. *)
Lemma unsubscribe_takes_back_witness :
  fst (Registry.unsubscribe "led_on" Led.led_manager) = Registry.Removed
  ∧ OpFlags._flags (snd (Registry.unsubscribe "led_on" Led.led_manager))
      !! "led_on"%string = None.
Proof.
  destruct (unsubscribe_takes_back "led_on" 0 2 (Some 5) (Some 6) led_unbound)
    as (Hret & Hflag & _);
    [apply well_filed_init|apply led_unbound_no_whole|].
  split; [exact Hret|exact Hflag].
Defined.

(** The led is subscribed to bit 2, then to bit 3, and unsubscribed. *)
Lemma unsubscribe_leaves_earlier_bit_witness :
  ∃ d,
    OpFlags._groups
      (snd (Registry.unsubscribe "led_on"
              (snd (OpFlags.subscribe "led_on" 0 (Some 3) (Some 5) (Some 6)
                      Led.led_manager)))) !! 0
    = Some (OpFlags.Bits d)
    ∧ OpFlags.dict_get 2 d = Some Led.led_info.
Proof.
  destruct (unsubscribe_leaves_earlier_bit "led_on" 0 2 3
              (Some 5) (Some 6) (Some 5) (Some 6) led_unbound)
    as (_ & _ & d & Hd); [lia|apply led_unbound_no_whole|].
  exists d. exact Hd.
Defined.

(** Register 0 is bound as a whole after the led was bound to its
    bit 2. *)
Lemma whole_register_strands_bit_flags_witness :
  Registry.unsubscribe "led_on"
    (snd (OpFlags.subscribe "flags" 0 None None None Led.led_manager))
  = (Registry.AttributeError,
     snd (OpFlags.subscribe "flags" 0 None None None Led.led_manager)).
Proof.
  destruct (whole_register_strands_bit_flags "led_on" "flags" 0 2
              (Some 5) (Some 6) None None led_unbound)
    as (_ & _ & _ & Hraise); [done|apply led_unbound_no_whole|].
  exact Hraise.
Defined.

Lemma led_manager_well_filed : Registry.well_filed Led.led_manager.
Proof. apply well_filed_subscribe, well_filed_init. Qed.

Lemma led_manager_dirty_bound (nm : string) (f : OpFlags.OperatingFlag) :
  OpFlags.dict_get nm (OpFlags._op_flags Led.led_manager) = Some f →
  OpFlags._flags Led.led_manager !! nm = Some Led.led_info.
Proof.
  assert (OpFlags._op_flags Led.led_manager
          = [("led_on"%string, Led.led_flag)]) as -> by reflexivity.
  assert (OpFlags._flags Led.led_manager
          = <["led_on"%string := Led.led_info]> ∅) as -> by reflexivity.
  cbn [OpFlags.dict_get].
  destruct (decide (nm = "led_on"%string)) as [->|Hne]; [|done].
  intros _. by rewrite lookup_insert_eq.
Qed.

(** The led is switched on at a device that acknowledges. *)
Lemma async_write_settles_witness :
  ∃ m',
    OpFlags.async_write Led.obliging Led.led_manager = (Ok [SUCCESS], m')
    ∧ ∀ nm f, OpFlags.dict_get nm (OpFlags._op_flags m') = Some f →
              OpFlags.is_dirty f = false.
Proof.
  destruct (async_write_settles Led.obliging Led.led_manager)
    as (m' & Hrun & _ & Hclean & _).
  - reflexivity.
  - apply led_manager_well_filed.
  - apply NoDup_singleton.
  - intros nm f Hf _. exists Led.led_info. by eapply led_manager_dirty_bound.
  - exists m'. split; [exact Hrun|exact Hclean].
Defined.

(** The led is switched on at a device that does not acknowledge. *)
Lemma async_write_unanswered_witness :
  ∃ results m',
    OpFlags.async_write silent Led.led_manager = (Ok results, m')
    ∧ OpFlags._op_flags m' = OpFlags._op_flags Led.led_manager
    ∧ length (OpFlags.sent m') = 5%nat.
Proof.
  destruct (async_write_unanswered silent Led.led_manager)
    as (results & m' & Hrun & Hops & _ & _ & Hsent).
  - done.
  - apply led_manager_well_filed.
  - apply NoDup_singleton.
  - intros nm f Hf _. exists Led.led_info.
    split; [by eapply led_manager_dirty_bound|].
    assert (f = Led.led_flag) as ->; [|by eexists].
    revert Hf.
    assert (OpFlags._op_flags Led.led_manager
            = [("led_on"%string, Led.led_flag)]) as -> by reflexivity.
    cbn [OpFlags.dict_get].
    destruct (decide (nm = "led_on"%string)); [|done]. congruence.
  - exists results, m'. split; [exact Hrun|]. split; [exact Hops|exact Hsent].
Defined.

End MoreWitnesses.
